(** * splat-temporal: the sequencing and encoding pipeline of [src/cli.js]

    A shallow embedding of the command line tool that converts [.ply] point
    clouds to SOG, rearranges the per-attribute WebP images into frame
    sequences, encodes one WebM per attribute and writes a manifest.

    - JavaScript strings are byte strings ([string]); only ASCII letters
      change under [toLowerCase], which is all the program relies on (it
      tests for the literal suffixes [.ply] and [.webp]).
    - A path is the list of its components from the file system root, so
      [path.join dir name] appends one component; components are taken
      literally (no [.] or [..] normalisation).
    - The file system is a finite tree; [fs.readdir] returns the entries of a
      directory in the order the tree lists them.
    - [async] functions are computations in a state and error monad over the
      world (file system and the trace of observable actions); a rejected
      promise or a thrown exception is [Err].
    - External programs (the converter, ffmpeg, dwebp), [JSON.parse],
      [JSON.stringify] and [String.prototype.localeCompare] are parameters. *)

From Stdlib Require Import Ascii String ZArith Lia.
From stdpp Require Import base gmap strings list sorting pretty.

Open Scope string_scope.
Open Scope list_scope.

Set Warnings "-register-all".

(** ** Strings *)

Module Str.

(** [toLowerCase] on one byte: [A]..[Z] are mapped to [a]..[z]. *)
Definition lower (c : ascii) : ascii :=
  let n := nat_of_ascii c in
  if (65 <=? n)%nat && (n <=? 90)%nat then ascii_of_nat (n + 32) else c.

(** [s.toLowerCase()] *)
Fixpoint toLowerCase (s : string) : string :=
  match s with
  | EmptyString => EmptyString
  | String c rest => String (lower c) (toLowerCase rest)
  end.

(** [s.endsWith(suffix)]: some tail of [s] is [suffix]. *)
Fixpoint endsWith (s suffix : string) : bool :=
  if String.eqb s suffix then true
  else match s with
       | EmptyString => false
       | String _ rest => endsWith rest suffix
       end.

(** [s.includes(needle)] *)
Fixpoint includes (s needle : string) : bool :=
  if String.prefix needle s then true
  else match s with
       | EmptyString => false
       | String _ rest => includes rest needle
       end.

(** [s.replace(/ext$/i, to)] for a lower-case literal [ext]: the tail of [s]
    that matches [ext] without regard to case, if there is one, is replaced
    by [to]. *)
Fixpoint replace_suffix_ci (ext to s : string) : string :=
  if String.eqb (toLowerCase s) ext then to
  else match s with
       | EmptyString => EmptyString
       | String c rest => String c (replace_suffix_ci ext to rest)
       end.

(** [s.padStart(width, '0')] *)
Definition padStart0 (width : nat) (s : string) : string :=
  string_of_list_ascii (replicate (width - String.length s) "0"%char) +:+ s.

(** Index of the last ['.'] of [s], if it has one. *)
Fixpoint lastDot (s : string) : option nat :=
  match s with
  | EmptyString => None
  | String c rest =>
      match lastDot rest with
      | Some i => Some (S i)
      | None => if Ascii.eqb c "."%char then Some 0%nat else None
      end
  end.

End Str.

(** ** Paths ([node:path], POSIX flavour) *)

Definition path := list string.

Module Path.

(** [path.join(dir, name)] for a single component [name] that is [proper],
    as the constant names and the names that [readdir] returns are. *)
Definition join (dir : path) (name : string) : path := dir ++ [name].

(** The components that [path.join] appends as they are: it drops an
    empty component and [.], and [..] takes the component before it away. *)
Definition proper (name : string) : bool :=
  negb (String.eqb name "") && negb (String.eqb name ".") && negb (String.eqb name "..").

(** [path.extname] of one component: from the last dot to the end; empty
    when there is no dot, when the only dot is the first character, and for
    the component [..]. *)
Definition extname_of (name : string) : string :=
  match Str.lastDot name with
  | None => ""
  | Some 0%nat => ""
  | Some i =>
      if String.eqb name ".." then ""
      else substring i (String.length name - i) name
  end.

(** [path.basename(p)]: the last component. *)
Definition basename (p : path) : string := List.last p "".

(** [path.extname(p)] *)
Definition extname (p : path) : string := extname_of (basename p).

(** [path.basename(p, ext)]: the last component without the suffix [ext],
    unless [ext] is empty or is the whole component. *)
Definition basename_ext (p : path) (ext : string) : string :=
  let name := basename p in
  let n := String.length name in
  let k := String.length ext in
  if (0 <? k)%nat && (k <? n)%nat && String.eqb (substring (n - k) k name) ext
  then substring 0 (n - k) name
  else name.

(** [`${p}${text}`]: text appended to the last component of a path. *)
Definition append_text (p : path) (text : string) : path :=
  match p with
  | [] => [text]
  | _ => removelast p ++ [basename p +:+ text]
  end.

(** The path as the string the program would hold. *)
Definition to_string (p : path) : string :=
  foldr (fun name acc => "/" +:+ name +:+ acc) "" p.

End Path.

(** ** The file system *)

(** A node of the tree: a regular file with its content, a directory with
    its entries in [readdir] order, or something that is neither (a socket, a
    device). Entry names of one directory are distinct in a real file system;
    lookups take the first entry of a name. *)
Inductive node :=
| File (data : string)
| Dir (entries : list (string * node))
| Special.

Module Fs.

(** The entry called [name], if any. *)
Fixpoint entry {A : Type} (name : string) (entries : list (string * A)) : option A :=
  match entries with
  | [] => None
  | (n, x) :: rest => if String.eqb n name then Some x else entry name rest
  end.

(** Replace the entry called [name], or add it after the others. *)
Fixpoint set_entry {A : Type} (name : string) (x : A) (entries : list (string * A))
  : list (string * A) :=
  match entries with
  | [] => [(name, x)]
  | (n, y) :: rest =>
      if String.eqb n name then (n, x) :: rest else (n, y) :: set_entry name x rest
  end.

(** Drop the entries called [name]. *)
Definition drop_entry {A : Type} (name : string) (entries : list (string * A))
  : list (string * A) :=
  List.filter (fun e => negb (String.eqb (fst e) name)) entries.

(** The node a path leads to. *)
Fixpoint resolve (p : path) (n : node) : option node :=
  match p with
  | [] => Some n
  | name :: rest =>
      match n with
      | Dir entries =>
          match entry name entries with
          | Some child => resolve rest child
          | None => None
          end
      | _ => None
      end
  end.

(** [mkdir -p]: every missing directory of the path is created; fails when
    a component exists and is not a directory. *)
Fixpoint mkdir_p (p : path) (n : node) : option node :=
  match n with
  | Dir entries =>
      match p with
      | [] => Some n
      | name :: rest =>
          match entry name entries with
          | Some child =>
              match mkdir_p rest child with
              | Some child' => Some (Dir (set_entry name child' entries))
              | None => None
              end
          | None =>
              match mkdir_p rest (Dir []) with
              | Some child' => Some (Dir (set_entry name child' entries))
              | None => None
              end
          end
      end
  | _ => None
  end.

(** [rm -rf]: the entry the path leads to is removed, with all below it. *)
Fixpoint remove (p : path) (n : node) : node :=
  match p, n with
  | [name], Dir entries => Dir (drop_entry name entries)
  | name :: rest, Dir entries =>
      match entry name entries with
      | Some child => Dir (set_entry name (remove rest child) entries)
      | None => n
      end
  | _, _ => n
  end.

(** Write a regular file: its directory must exist, and the target must not
    be a directory. *)
Fixpoint write (p : path) (data : string) (n : node) : option node :=
  match p, n with
  | [name], Dir entries =>
      match entry name entries with
      | Some (Dir _) => None
      | _ => Some (Dir (set_entry name (File data) entries))
      end
  | name :: rest, Dir entries =>
      match entry name entries with
      | Some child =>
          match write rest data child with
          | Some child' => Some (Dir (set_entry name child' entries))
          | None => None
          end
      | None => None
      end
  | _, _ => None
  end.

End Fs.

(** A directory entry as [readdir] with [withFileTypes] returns it. *)
Definition dirent := (string * node)%type.

Definition dirent_name (e : dirent) : string := fst e.

Definition isFile (e : dirent) : bool :=
  match snd e with File _ => true | _ => false end.

Definition isDirectory (e : dirent) : bool :=
  match snd e with Dir _ => true | _ => false end.

(** ** Errors, external programs, the world *)

(** What a promise is rejected with. *)
Inductive error :=
| Error (message : string)                (* new Error(message) *)
| SystemError (code : string) (target : path)   (* a failed fs call *)
| SyntaxError                             (* JSON.parse *)
| TypeError.

Definition error_message (e : error) : string :=
  match e with
  | Error message => message
  | SystemError code target => code +:+ ": " +:+ Path.to_string target
  | SyntaxError => "Unexpected token in JSON"
  | TypeError => "fileName.replace is not a function"
  end.

Inductive result (A : Type) :=
| Ok (value : A)
| Err (e : error).

Arguments Ok {A} value.
Arguments Err {A} e.

(** An argument of a spawned program: plain text or a path. *)
Inductive arg :=
| ArgText (text : string)
| ArgPath (p : path).

(** How a child process ends: the ['error'] event, or ['close'] with the exit
    code ([None] when a signal killed it). *)
Inductive child_outcome :=
| ChildError (e : error)
| ChildClose (code : option N).

(** The options of one ffmpeg run that vary ([encodeWithFfmpeg]); the
    filter graph and the codec options are constants of the program. *)
Record ffmpeg_job := {
  inputPattern : path;
  outputVideoPath : path;
  job_fps : Z;
  job_crf : Z;
  job_gop : Z
}.

(** A JavaScript number: a finite value [mantissa * 2 ^ exponent], the
    negative zero, an infinity, or NaN. *)
Inductive number :=
| Finite (mantissa exponent : Z)
| NegZero
| Infinity (negative : bool)
| NaN.

Definition integer (n : Z) : number := Finite n 0.

(** [Number.isFinite(n)] *)
Definition finite (n : number) : bool :=
  match n with
  | Finite _ _ | NegZero => true
  | Infinity _ | NaN => false
  end.

Coercion integer : Z >-> number.

(** A value as [JSON.parse] builds it, by its tree. A number too large for
    a double, as [1e999], is read as an infinity, and [-0] as the negative
    zero. *)
Inductive json :=
| JNull
| JBool (b : bool)
| JNum (n : number)
| JStr (s : string)
| JArr (items : list json)
| JObj (fields : list (string * json)).

(** One item of [processed]. *)
Record processed_item := {
  plyPath : path;
  plyName : string;
  sogDir : path
}.

(** A line on the console. *)
Inductive message :=
| WarnMismatch (name : string) (saw expected : nat)
| WarnFallback (sequenceDir : path)
| LogProcessed (count : nat)
| LogSequences (sequenceRoot : path)
| LogVideos (videoRoot : path)
| LogError (text : string).

(** The text of a console line. *)
Definition render (m : message) : string :=
  match m with
  | WarnMismatch name saw expected =>
      "Frame index mismatch for " +:+ name +:+ ": saw " +:+ pretty saw
        +:+ ", expected " +:+ pretty expected
  | WarnFallback sequenceDir =>
      "ffmpeg could not decode WebP in " +:+ Path.to_string sequenceDir
        +:+ "; falling back to dwebp + PNG."
  | LogProcessed count => "Processed " +:+ pretty count +:+ " .ply files."
  | LogSequences sequenceRoot => "Sequences written to " +:+ Path.to_string sequenceRoot
  | LogVideos videoRoot => "Videos written to " +:+ Path.to_string videoRoot
  | LogError text => text
  end.

(** What a run does that can be observed from outside, in order. [EvCopy]
    carries the name of the object whose frame is copied. *)
Inductive event :=
| EvSplatTransform (execPath : path) (fullArgs : list arg) (outcome : child_outcome)
| EvDwebp (dwebpPath : path) (srcPath targetPath : path) (outcome : child_outcome)
| EvFfmpeg (job : ffmpeg_job) (outcome : result unit)
| EvCopy (owner : string) (webpPath targetPath : path)
| EvConsole (m : message).

Record world := {
  fs : node;
  trace : list event
}.

Definition set_fs (n : node) (w : world) : world :=
  {| fs := n; trace := trace w |}.

Definition emit (e : event) (w : world) : world :=
  {| fs := fs w; trace := trace w ++ [e] |}.

(** ** The monad of asynchronous computations *)

Definition M (A : Type) : Type := world -> result A * world.

Definition ret {A : Type} (a : A) : M A := fun w => (Ok a, w).

Definition throw {A : Type} (e : error) : M A := fun w => (Err e, w).

Definition bind {A B : Type} (m : M A) (k : A -> M B) : M B :=
  fun w =>
    match m w with
    | (Ok a, w') => k a w'
    | (Err e, w') => (Err e, w')
    end.

(** [try { body } catch (error) { handler }] *)
Definition try_catch {A : Type} (body : M A) (handler : error -> M A) : M A :=
  fun w =>
    match body w with
    | (Ok a, w') => (Ok a, w')
    | (Err e, w') => handler e w'
    end.

Notation "'let*' x := m 'in' k" := (bind m (fun x => k))
  (at level 10, x pattern, m at level 100, k at level 200).
Notation "'do' m 'in' k" := (bind m (fun _ => k))
  (at level 10, m at level 100, k at level 200).

(** [for (const x of xs) { body }] with the variables the body assigns to
    carried as [s]. *)
Fixpoint for_of {A S : Type} (xs : list A) (body : S -> A -> M S) (s : S) : M S :=
  match xs with
  | [] => ret s
  | x :: rest => let* s' := body s x in for_of rest body s'
  end.

(** [for (const x of xs) { body }] for a body that assigns to nothing. *)
Definition for_each {A : Type} (xs : list A) (body : A -> M unit) : M unit :=
  for_of xs (fun _ x => body x) tt.

(** [console.warn], [console.log], [console.error] *)
Definition console (m : message) : M unit :=
  fun w => (Ok tt, emit (EvConsole m) w).

(** A computation extends the trace, and only by events that satisfy [P]. *)
Definition emits {A : Type} (P : event -> Prop) (m : M A) : Prop :=
  forall w r w',
    m w = (r, w') -> exists new, trace w' = trace w ++ new /\ Forall P new.

(** The events of each stage of a run. *)
Definition is_convert (e : event) : Prop :=
  match e with EvSplatTransform _ _ _ => True | _ => False end.

Definition is_build (e : event) : Prop :=
  match e with
  | EvCopy _ _ _ | EvConsole (WarnMismatch _ _ _) => True
  | _ => False
  end.

Definition is_encode (e : event) : Prop :=
  match e with
  | EvFfmpeg _ _ | EvDwebp _ _ _ _ | EvConsole (WarnFallback _) => True
  | _ => False
  end.

Definition is_report (e : event) : Prop :=
  match e with
  | EvConsole (LogProcessed _) | EvConsole (LogSequences _) | EvConsole (LogVideos _) => True
  | _ => False
  end.

(** The error [runSplatTransform] rejects with for an outcome of the
    converter, if it does: the error of the ['error'] event, or the message
    with the exit code. *)
Definition converter_error (outcome : child_outcome) : option error :=
  match outcome with
  | ChildError e => Some e
  | ChildClose (Some 0%N) => None
  | ChildClose code =>
      Some (Error ("splat-transform failed with exit code "
                     +:+ match code with Some n => pretty n | None => "null" end))
  end.

(** Any event but a converter run that failed. *)
Definition harmless (e : event) : Prop :=
  match e with
  | EvSplatTransform _ _ outcome => converter_error outcome = None
  | _ => True
  end.

(** A computation extends the trace by harmless events, or else by harmless
    events and then a failed converter run, with whose error it fails. *)
Definition stops_at_failed_conversion {A : Type} (m : M A) : Prop :=
  forall w r w',
    m w = (r, w') ->
    exists new,
      trace w' = trace w ++ new
      /\ (Forall harmless new
          \/ exists pre execPath fullArgs outcome e,
               new = pre ++ [EvSplatTransform execPath fullArgs outcome]
               /\ Forall harmless pre
               /\ converter_error outcome = Some e
               /\ r = Err e).

(** ** [node:fs] *)

(** [fs.access(targetPath)] wrapped as in [pathExists]. *)
Definition pathExists (targetPath : path) : M bool :=
  fun w =>
    match Fs.resolve targetPath (fs w) with
    | Some _ => (Ok true, w)
    | None => (Ok false, w)
    end.

(** [fs.mkdir(dir, { recursive: true })] *)
Definition ensureDir (dir : path) : M unit :=
  fun w =>
    match Fs.mkdir_p dir (fs w) with
    | Some n => (Ok tt, set_fs n w)
    | None => (Err (SystemError "EEXIST" dir), w)
    end.

(** [fs.rm(dir, { recursive: true, force: true })] *)
Definition removeDir (dir : path) : M unit :=
  fun w => (Ok tt, set_fs (Fs.remove dir (fs w)) w).

(** [fs.readdir(dir, { withFileTypes: true })] *)
Definition readdir (dir : path) : M (list dirent) :=
  fun w =>
    match Fs.resolve dir (fs w) with
    | Some (Dir entries) => (Ok entries, w)
    | Some _ => (Err (SystemError "ENOTDIR" dir), w)
    | None => (Err (SystemError "ENOENT" dir), w)
    end.

(** [fs.readFile(p, 'utf8')] *)
Definition readFile (p : path) : M string :=
  fun w =>
    match Fs.resolve p (fs w) with
    | Some (File data) => (Ok data, w)
    | Some _ => (Err (SystemError "EISDIR" p), w)
    | None => (Err (SystemError "ENOENT" p), w)
    end.

(** [fs.writeFile(p, data)] *)
Definition writeFile (p : path) (data : string) : M unit :=
  fun w =>
    match Fs.write p data (fs w) with
    | Some n => (Ok tt, set_fs n w)
    | None => (Err (SystemError "ENOENT" p), w)
    end.

(** [fs.copyFile(src, dst)], recorded in the trace for [owner]. *)
Definition copyFile (owner : string) (src dst : path) : M unit :=
  fun w =>
    match Fs.resolve src (fs w) with
    | Some (File data) =>
        match Fs.write dst data (fs w) with
        | Some n => (Ok tt, emit (EvCopy owner src dst) (set_fs n w))
        | None => (Err (SystemError "ENOENT" dst), w)
        end
    | _ => (Err (SystemError "ENOENT" src), w)
    end.

(** [fs.existsSync(p)] *)
Definition existsSync (p : path) (n : node) : bool :=
  match Fs.resolve p n with Some _ => true | None => false end.

(** ** The program *)

(** The command line, parsed ([program.opts()]); [input] and [output] are
    already resolved, [env_PATH] is [process.env.PATH] split at the
    delimiter. *)
Record options := {
  input : option path;
  output : path;
  splatExec : path;
  splatArgs : list string;
  webpWidth : option positive;
  webpHeight : option positive;
  crf : Z;
  gop : Z;
  fps : Z;
  overwrite : bool;
  videosOnly : bool;
  env_PATH : list path
}.

(** An entry of the manifest's [splats]. *)
Record splat := {
  original : string;
  frame : option nat;
  meta : json
}.

Definition splat_json (s : splat) : json :=
  JObj [("original", JStr (original s));
        ("frame", match frame s with Some i => JNum (Z.of_nat i) | None => JNull end);
        ("meta", meta s)].

(** [{ splats }] *)
Definition manifest_json (splats : list splat) : json :=
  JObj [("splats", JArr (map splat_json splats))].

(** [`frame_${String(currentIndex).padStart(5, '0')}.webp`] *)
Definition frameName (currentIndex : nat) : string :=
  "frame_" +:+ Str.padStart0 5 (pretty currentIndex) +:+ ".webp".

(** [String(code)] of an exit code. *)
Definition code_text (code : option N) : string :=
  match code with
  | Some n => pretty n
  | None => "null"
  end.

(** [name.toLowerCase().endsWith(ext)] *)
Definition has_ext (ext : string) (name : string) : bool :=
  Str.endsWith (Str.toLowerCase name) ext.

(** [fileName.replace(/\.webp$/i, to)] *)
Definition replace_webp (to fileName : string) : string :=
  Str.replace_suffix_ci ".webp" to fileName.

(** The recognised attribute keys of [mapMetaToWebm]. *)
Definition targets : list string := ["means"; "scales"; "quats"; "sh0"; "shN"].

(** The callback of [files.map]: calling [replace] on anything but a string
    throws. *)
Definition rename_file (fileName : json) : result json :=
  match fileName with
  | JStr s => Ok (JStr (replace_webp ".webm" s))
  | _ => Err TypeError
  end.

(** [files.map(callback)] for a callback that may throw. *)
Fixpoint map_result {A B : Type} (f : A -> result B) (l : list A) : result (list B) :=
  match l with
  | [] => Ok []
  | x :: rest =>
      match f x with
      | Ok y =>
          match map_result f rest with
          | Ok ys => Ok (y :: ys)
          | Err e => Err e
          end
      | Err e => Err e
      end
  end.

(** One round of the loop of [mapMetaToWebm] on the fields of [cloned]:
    [cloned[key]] must be an object whose [files] is an array, or the round
    changes nothing. *)
Definition rewrite_key (cloned : list (string * json)) (key : string)
  : result (list (string * json)) :=
  match Fs.entry key cloned with
  | Some (JObj fields) =>
      match Fs.entry "files" fields with
      | Some (JArr files) =>
          match map_result rename_file files with
          | Ok files' =>
              Ok (Fs.set_entry key (JObj (Fs.set_entry "files" (JArr files') fields)) cloned)
          | Err e => Err e
          end
      | _ => Ok cloned
      end
  | _ => Ok cloned
  end.

Fixpoint rewrite_keys (keys : list string) (cloned : list (string * json))
  : result (list (string * json)) :=
  match keys with
  | [] => Ok cloned
  | key :: rest =>
      match rewrite_key cloned key with
      | Ok cloned' => rewrite_keys rest cloned'
      | Err e => Err e
      end
  end.

(** [JSON.parse(JSON.stringify(value))]: [JSON.stringify] writes a number
    that is not finite as [null] and the negative zero as [0]; every other
    number is written with the digits that read back as the same number. *)
Fixpoint JSON_roundtrip (value : json) : json :=
  match value with
  | JNum (Finite mantissa exponent) => JNum (Finite mantissa exponent)
  | JNum NegZero => JNum (Finite 0 0)
  | JNum (Infinity _) | JNum NaN => JNull
  | JArr items => JArr (map JSON_roundtrip items)
  | JObj fields =>
      JObj (map (fun field : string * json => (fst field, JSON_roundtrip (snd field)))
                fields)
  | other => other
  end.

(** [mapMetaToWebm(meta)] on values. Reading a property of [null] throws; a
    boolean, number, string or array has none of the keys. *)
Definition mapMetaToWebm (meta : json) : result json :=
  match JSON_roundtrip meta with
  | JNull => Err TypeError
  | JObj cloned =>
      match rewrite_keys targets cloned with
      | Ok cloned' => Ok (JObj cloned')
      | Err e => Err e
      end
  | cloned => Ok cloned
  end.

(** *** The rewrite as the specification words it

    Every file name that ends in [.webp] gets the same base name with
    [.webm]; this is done in the [files] array of every recognised key;
    all else stays. *)

Definition renamed (fileName : json) : json :=
  match fileName with
  | JStr s => JStr (replace_webp ".webm" s)
  | other => other
  end.

Definition rewritten_attribute (attribute : json) : json :=
  match attribute with
  | JObj fields =>
      JObj (map (fun field : string * json =>
                   match field with
                   | (name, JArr files) =>
                       if String.eqb name "files" then (name, JArr (map renamed files))
                       else field
                   | _ => field
                   end) fields)
  | other => other
  end.

Definition rewritten_meta (meta : json) : json :=
  match meta with
  | JObj fields =>
      JObj (map (fun field : string * json =>
                   if bool_decide (fst field ∈ targets)
                   then (fst field, rewritten_attribute (snd field))
                   else field) fields)
  | other => other
  end.

(** The property names of an object are distinct, as [JSON.parse] leaves
    them. *)
Definition unique_keys {A : Type} (fields : list (string * A)) : Prop :=
  NoDup (map fst fields).

(** The [files] array of an attribute, if it has one, holds strings. *)
Definition files_are_names (attribute : json) : Prop :=
  match attribute with
  | JObj fields =>
      unique_keys fields
      /\ forall files, Fs.entry "files" fields = Some (JArr files) ->
                       Forall (fun fileName => exists s, fileName = JStr s) files
  | _ => True
  end.

(** A value all of whose numbers are finite and not the negative zero:
    the numbers that the JSON round trip returns as they are. *)
Fixpoint plain (value : json) : bool :=
  match value with
  | JNum (Finite _ _) => true
  | JNum _ => false
  | JArr items => forallb plain items
  | JObj fields => forallb (fun field : string * json => plain (snd field)) fields
  | _ => true
  end.

(** A metadata object as the converter writes it. A number that is not
    finite is [null] once cloned. *)
Definition metadata (meta : json) : Prop :=
  match meta with
  | JNull => False
  | JNum n => finite n = true
  | JObj fields =>
      unique_keys fields
      /\ forall key attribute,
           key ∈ targets -> Fs.entry key fields = Some attribute ->
           files_are_names attribute
  | _ => True
  end.

Section Program.

(** [a.localeCompare(b)]: negative, zero or positive. *)
Variable localeCompare : string -> string -> Z.

(** [child_process.spawn(command, args)] run to its end: how the child ends
    and what it leaves on disk. *)
Variable spawn : path -> list arg -> node -> child_outcome * node.

(** One run of the fluent-ffmpeg command that [encodeWithFfmpeg] builds. *)
Variable ffmpeg_run : ffmpeg_job -> node -> result unit * node.

Variable JSON_parse : string -> option json.
Variable JSON_stringify : json -> string.

(** The order of [(a, b) => a.localeCompare(b)]: [a] may stand before [b]. *)
Definition locale_le (a b : string) : Prop := (localeCompare a b <= 0)%Z.

Definition locale_le_dec (a b : string) : Decision (locale_le a b) :=
  Z_le_dec (localeCompare a b) 0.

(** The same comparison on paths, which the program holds as strings. *)
Definition path_le (a b : path) : Prop :=
  locale_le (Path.to_string a) (Path.to_string b).

Definition path_le_dec (a b : path) : Decision (path_le a b) :=
  locale_le_dec (Path.to_string a) (Path.to_string b).

(** [names.sort((a, b) => a.localeCompare(b))] *)
Definition sort_names (names : list string) : list string :=
  @merge_sort string locale_le locale_le_dec names.

Definition sort_paths (paths : list path) : list path :=
  @merge_sort path path_le path_le_dec paths.

Definition listPlyFiles (inputDir : path) : M (list path) :=
  let* entries := readdir inputDir in
  ret (sort_paths
         (map (fun entry => Path.join inputDir (dirent_name entry))
              (List.filter (fun entry => isFile entry && has_ext ".ply" (dirent_name entry))
                           entries))).

(** The directories beside [baseDir]: no more of the candidates of
    [uniqueDir] than these can exist. *)
Definition siblings (baseDir : path) (n : node) : nat :=
  match Fs.resolve (removelast baseDir) n with
  | Some (Dir entries) => length entries
  | _ => 0
  end.

(** The loop of [uniqueDir]; [fuel] bounds the candidates tried. *)
Fixpoint uniqueDir_loop (fuel : nat) (baseDir candidate : path) (suffix : nat) : M path :=
  let* taken := pathExists candidate in
  if taken then
    match fuel with
    | O => throw (Error "uniqueDir: no candidate left")
    | S fuel' =>
        uniqueDir_loop fuel' baseDir
          (Path.append_text baseDir ("_" +:+ pretty suffix)) (suffix + 1)
    end
  else ret candidate.

Definition uniqueDir (baseDir : path) : M path :=
  fun w => uniqueDir_loop (S (siblings baseDir (fs w))) baseDir baseDir 1 w.

Definition runSplatTransform (execPath : path) (args : list string)
    (inputPath outputPath : path) : M unit :=
  let fullArgs := map ArgText args ++ [ArgPath inputPath; ArgPath outputPath] in
  fun w =>
    let '(outcome, n) := spawn execPath fullArgs (fs w) in
    let w' := emit (EvSplatTransform execPath fullArgs outcome) (set_fs n w) in
    match outcome with
    | ChildError e => (Err e, w')
    | ChildClose (Some 0%N) => (Ok tt, w')
    | ChildClose code =>
        (Err (Error ("splat-transform failed with exit code " +:+ code_text code)), w')
    end.

Fixpoint findExecutable_in (pathParts : list path) (name : string) (n : node)
  : option path :=
  match pathParts with
  | [] => None
  | part :: rest =>
      let candidate := Path.join part name in
      if existsSync candidate n then Some candidate
      else findExecutable_in rest name n
  end.

Definition findExecutable (pathParts : list path) (name : string) : M (option path) :=
  fun w => (Ok (findExecutable_in pathParts name (fs w)), w).

(** The recursion of [walkForWebp] below a directory whose entries have been
    read. *)
Fixpoint walk_entries (dir : path) (n : node) : list path :=
  match n with
  | Dir entries =>
      (fix go (entries : list (string * node)) : list path :=
         match entries with
         | [] => []
         | (name, child) :: rest =>
             let fullPath := Path.join dir name in
             match child with
             | Dir _ => walk_entries fullPath child ++ go rest
             | File _ =>
                 if has_ext ".webp" name then fullPath :: go rest else go rest
             | Special => go rest
             end
         end) entries
  | _ => []
  end.

Definition walkForWebp (dir : path) : M (list path) :=
  let* entries := readdir dir in
  ret (walk_entries dir (Dir entries)).

Definition listSequenceDirs (sequenceRoot : path) : M (list string) :=
  let* entries := readdir sequenceRoot in
  ret (map dirent_name (List.filter isDirectory entries)).

Definition listSogDirs (sogRoot : path) : M (list string) :=
  let* entries := readdir sogRoot in
  ret (map dirent_name (List.filter isDirectory entries)).

Definition listSequenceFrames (sequenceDir : path) : M (list string) :=
  let* entries := readdir sequenceDir in
  ret (sort_names
         (map dirent_name
              (List.filter (fun entry => isFile entry && has_ext ".webp" (dirent_name entry))
                           entries))).

(** One [dwebp] child of [convertSequenceToPng]. *)
Definition runDwebp (dwebpPath srcPath targetPath : path) : M unit :=
  fun w =>
    let '(outcome, n) :=
      spawn dwebpPath [ArgPath srcPath; ArgText "-o"; ArgPath targetPath] (fs w) in
    let w' := emit (EvDwebp dwebpPath srcPath targetPath outcome) (set_fs n w) in
    match outcome with
    | ChildError e => (Err e, w')
    | ChildClose (Some 0%N) => (Ok tt, w')
    | ChildClose code =>
        (Err (Error ("dwebp failed with exit code " +:+ code_text code)), w')
    end.

Definition convertSequenceToPng (sequenceDir pngDir dwebpPath : path) : M unit :=
  do ensureDir pngDir in
  let* frameFiles := listSequenceFrames sequenceDir in
  for_each frameFiles (fun fileName =>
    let srcPath := Path.join sequenceDir fileName in
    let targetPath := Path.join pngDir (replace_webp ".png" fileName) in
    runDwebp dwebpPath srcPath targetPath).

Definition encodeWithFfmpeg (job : ffmpeg_job) : M unit :=
  fun w =>
    let '(outcome, n) := ffmpeg_run job (fs w) in
    (outcome, emit (EvFfmpeg job outcome) (set_fs n w)).

(** The statements after the [try] run only when the [catch] block ends
    without throwing, so they are written inside the handler. *)
Definition encodeSequenceToWebm (sequenceDir outputVideoPath : path)
    (fps crf gop : Z) (dwebpPath : option path) : M unit :=
  let webpPattern := Path.join sequenceDir "frame_%05d.webp" in
  try_catch
    (encodeWithFfmpeg {| inputPattern := webpPattern;
                         outputVideoPath := outputVideoPath;
                         job_fps := fps; job_crf := crf; job_gop := gop |})
    (fun error =>
       match dwebpPath with
       | None => throw error
       | Some dwebp =>
           do console (WarnFallback sequenceDir) in
           let pngDir := Path.join sequenceDir "_png" in
           do convertSequenceToPng sequenceDir pngDir dwebp in
           let pngPattern := Path.join pngDir "frame_%05d.png" in
           encodeWithFfmpeg {| inputPattern := pngPattern;
                               outputVideoPath := outputVideoPath;
                               job_fps := fps; job_crf := crf; job_gop := gop |}
       end).

(** A value computed without the world, which may throw. *)
Definition lift {A : Type} (r : result A) : M A := fun w => (r, w).

Definition parse_json (raw : string) : M json :=
  match JSON_parse raw with
  | Some value => ret value
  | None => throw SyntaxError
  end.

(** *** [main] *)

(** Lines 238-245: the input directory is required, and must exist, unless
    [--videos-only] is set. *)
Definition checkInput (opts : options) : M unit :=
  if negb (videosOnly opts) then
    match input opts with
    | None => throw (Error "Input directory is required unless --videos-only is set")
    | Some inputDir =>
        let* found := pathExists inputDir in
        if found then ret tt
        else throw (Error ("Input directory not found: " +:+ Path.to_string inputDir))
    end
  else ret tt.

(** Lines 253-265: existing output subfolders are refused, or removed with
    [--overwrite]; [--videos-only] keeps them. *)
Definition prepareOutput (opts : options) (dirs : list path) : M unit :=
  if negb (videosOnly opts) && negb (overwrite opts) then
    for_each dirs (fun dir =>
      let* found := pathExists dir in
      if found then
        throw (Error ("Output subfolder already exists: " +:+ Path.to_string dir
                        +:+ " (use --overwrite to allow)"))
      else ret tt)
  else if negb (videosOnly opts) then
    for_each dirs (fun dir =>
      let* found := pathExists dir in
      if found then removeDir dir else ret tt)
  else ret tt.

(** Lines 273-279 *)
Definition converterArgs (opts : options) : list string :=
  splatArgs opts
    ++ match webpWidth opts with
       | Some width => ["--webp-width"; pretty width]
       | None => []
       end
    ++ match webpHeight opts with
       | Some height => ["--webp-height"; pretty height]
       | None => []
       end.

(** Lines 288-305: the body of the conversion loop. *)
Definition convertOne (opts : options) (sogRoot : path) (args : list string)
    (processed : list processed_item) (ply : path) : M (list processed_item) :=
  let baseName := Path.basename_ext ply (Path.extname ply) in
  let desiredDir := Path.join sogRoot baseName in
  let* outputSogDir := uniqueDir desiredDir in
  do ensureDir outputSogDir in
  let outputMetaPath := Path.join outputSogDir "meta.json" in
  do runSplatTransform (splatExec opts) args ply outputMetaPath in
  ret (processed ++ [{| plyPath := ply;
                        plyName := Path.basename ply;
                        sogDir := outputSogDir |}]).

(** Lines 282-306 *)
Definition convertAll (opts : options) (sogRoot : path) (args : list string)
  : M (list processed_item) :=
  match input opts with
  | None => throw TypeError
  | Some inputDir =>
      let* plyFiles := listPlyFiles inputDir in
      if (length plyFiles =? 0)%nat then
        throw (Error ("No .ply files found in " +:+ Path.to_string inputDir))
      else for_of plyFiles (convertOne opts sogRoot args) []
  end.

(** [path.basename(webpPath, path.extname(webpPath))] *)
Definition sequenceNameOf (webpPath : path) : string :=
  Path.basename_ext webpPath (Path.extname webpPath).

(** [frameCounters] and [splatFrames] *)
Record counters := {
  frameCounters : gmap string nat;
  splatFrames : gmap string nat
}.

(** Lines 316-335: the body of the inner loop, one image of one object. *)
Definition placeFrame (sequenceRoot : path) (item : processed_item)
    (st : counters) (webpPath : path) : M counters :=
  let sequenceName := sequenceNameOf webpPath in
  let sequenceDir := Path.join sequenceRoot sequenceName in
  do ensureDir sequenceDir in
  let currentIndex := default 0%nat (frameCounters st !! sequenceName) in
  let frameCounters' := <[sequenceName := (currentIndex + 1)%nat]> (frameCounters st) in
  let targetPath := Path.join sequenceDir (frameName currentIndex) in
  do copyFile (plyName item) webpPath targetPath in
  match splatFrames st !! plyName item with
  | None =>
      ret {| frameCounters := frameCounters';
             splatFrames := <[plyName item := currentIndex]> (splatFrames st) |}
  | Some expected =>
      if decide (expected = currentIndex) then
        ret {| frameCounters := frameCounters'; splatFrames := splatFrames st |}
      else
        do console (WarnMismatch (plyName item) currentIndex expected) in
        ret {| frameCounters := frameCounters'; splatFrames := splatFrames st |}
  end.

(** What one round of the inner loop does to the counters and adds to the
    trace when its two file operations succeed. *)
Definition place (sequenceRoot : path) (st : counters) (frame : string * path)
  : counters * list event :=
  let '(owner, webpPath) := frame in
  let sequenceName := sequenceNameOf webpPath in
  let currentIndex := default 0%nat (frameCounters st !! sequenceName) in
  let frameCounters' := <[sequenceName := (currentIndex + 1)%nat]> (frameCounters st) in
  let copy :=
    EvCopy owner webpPath
      (Path.join (Path.join sequenceRoot sequenceName) (frameName currentIndex)) in
  match splatFrames st !! owner with
  | None =>
      ({| frameCounters := frameCounters';
          splatFrames := <[owner := currentIndex]> (splatFrames st) |}, [copy])
  | Some expected =>
      if decide (expected = currentIndex) then
        ({| frameCounters := frameCounters'; splatFrames := splatFrames st |}, [copy])
      else
        ({| frameCounters := frameCounters'; splatFrames := splatFrames st |},
         [copy; EvConsole (WarnMismatch owner currentIndex expected)])
  end.

(** The same for a list of images with their objects, in order. *)
Fixpoint place_all (sequenceRoot : path) (st : counters) (frames : list (string * path))
  : counters * list event :=
  match frames with
  | [] => (st, [])
  | frame :: rest =>
      let '(st1, events1) := place sequenceRoot st frame in
      let '(st2, events2) := place_all sequenceRoot st1 rest in
      (st2, events1 ++ events2)
  end.

(** The sequence names of the frames copied for [owner], in trace order. *)
Definition contributions (owner : string) (events : list event) : list string :=
  omap (fun e =>
          match e with
          | EvCopy o webpPath _ =>
              if decide (o = owner)
              then Some (sequenceNameOf webpPath)
              else None
          | _ => None
          end) events.

(** Lines 313-337 *)
Definition buildSequences (sequenceRoot : path) (processed : list processed_item)
  : M counters :=
  for_of processed
    (fun st item =>
       let* webps := walkForWebp (sogDir item) in
       for_of webps (placeFrame sequenceRoot item) st)
    {| frameCounters := ∅; splatFrames := ∅ |}.

(** Lines 342-357: the body of the encode loop. *)
Definition encodeOne (opts : options) (sequenceRoot videoRoot : path)
    (dwebpPath : option path) (sequenceName : string) : M unit :=
  let sequenceDir := Path.join sequenceRoot sequenceName in
  let* frameFiles := listSequenceFrames sequenceDir in
  if (length frameFiles =? 0)%nat then ret tt
  else
    let outputVideoPath := Path.join videoRoot (sequenceName +:+ ".webm") in
    encodeSequenceToWebm sequenceDir outputVideoPath
      (fps opts) (crf opts) (gop opts) dwebpPath.

(** Lines 340-358 *)
Definition encodeAll (opts : options) (sequenceRoot videoRoot : path)
    (dwebpPath : option path) : M unit :=
  let* dirs := listSequenceDirs sequenceRoot in
  let sequenceNames := sort_names dirs in
  for_each sequenceNames (encodeOne opts sequenceRoot videoRoot dwebpPath).

(** Lines 363-370: the body of the manifest loop of a fresh conversion. *)
Definition describeItem (frames : gmap string nat) (splats : list splat)
    (item : processed_item) : M (list splat) :=
  let metaPath := Path.join (sogDir item) "meta.json" in
  let* metaRaw := readFile metaPath in
  let frameIndex := frames !! plyName item in
  let* parsed := parse_json metaRaw in
  let* rewritten := lift (mapMetaToWebm parsed) in
  ret (splats ++ [{| original := plyName item; frame := frameIndex; meta := rewritten |}]).

(** Lines 361-381 *)
Definition freshManifest (sequenceRoot videoRoot : path)
    (processed : list processed_item) (frames : gmap string nat) : M (list splat) :=
  let* splats := for_of processed (describeItem frames) [] in
  let manifestPath := Path.join videoRoot "manifest.json" in
  do writeFile manifestPath (JSON_stringify (manifest_json splats)) in
  do console (LogProcessed (length processed)) in
  do console (LogSequences sequenceRoot) in
  ret splats.

(** Lines 386-398: the loop over [sogDirs] from [index] on; [rest] holds
    [sogDirs[index]], [sogDirs[index + 1]], ... *)
Fixpoint rebuildFrom (sogRoot : path) (rest : list string) (index : nat)
    (splats : list splat) : M (list splat) :=
  match rest with
  | [] => ret splats
  | dirName :: rest' =>
      let metaPath := Path.join (Path.join sogRoot dirName) "meta.json" in
      let* found := pathExists metaPath in
      if negb found then rebuildFrom sogRoot rest' (index + 1) splats
      else
        let* metaRaw := readFile metaPath in
        let* parsed := parse_json metaRaw in
        let* rewritten := lift (mapMetaToWebm parsed) in
        rebuildFrom sogRoot rest' (index + 1)
          (splats ++ [{| original := dirName +:+ ".ply";
                         frame := Some index;
                         meta := rewritten |}])
  end.

(** The manifest entry of a rebuild for the directory [dirName] at position
    [index], when that directory holds a readable [meta.json]. *)
Definition rebuilt_entry (disk : node) (sogRoot : path) (index : nat) (dirName : string)
  : option splat :=
  match Fs.resolve (Path.join (Path.join sogRoot dirName) "meta.json") disk with
  | Some (File metaRaw) =>
      match JSON_parse metaRaw with
      | Some parsed =>
          match mapMetaToWebm parsed with
          | Ok rewritten =>
              Some {| original := dirName +:+ ".ply";
                      frame := Some index;
                      meta := rewritten |}
          | Err _ => None
          end
      | None => None
      end
  | _ => None
  end.

(** Every [meta.json] that exists under the directories [dirs] can be read,
    parsed and rewritten. *)
Definition readable (disk : node) (sogRoot : path) (dirs : list string) : Prop :=
  forall dirName found,
    dirName ∈ dirs ->
    Fs.resolve (Path.join (Path.join sogRoot dirName) "meta.json") disk = Some found ->
    exists metaRaw parsed rewritten,
      found = File metaRaw /\ JSON_parse metaRaw = Some parsed
      /\ mapMetaToWebm parsed = Ok rewritten.

(** Lines 383-406 *)
Definition rebuildManifest (sogRoot videoRoot : path) : M (list splat) :=
  let* found := pathExists sogRoot in
  let* splats :=
    if found then
      let* dirs := listSogDirs sogRoot in
      let sogDirs := sort_names dirs in
      rebuildFrom sogRoot sogDirs 0 []
    else ret [] in
  let manifestPath := Path.join videoRoot "manifest.json" in
  do writeFile manifestPath (JSON_stringify (manifest_json splats)) in
  ret splats.

(** [main]; the model returns the [splats] of the manifest it has written. *)
Definition main (opts : options) : M (list splat) :=
  let outputDir := output opts in
  do checkInput opts in
  do ensureDir outputDir in
  let sogRoot := Path.join outputDir "sog" in
  let sequenceRoot := Path.join outputDir "sequences" in
  let videoRoot := Path.join outputDir "videos" in
  do prepareOutput opts [sogRoot; sequenceRoot; videoRoot] in
  do ensureDir sogRoot in
  do ensureDir sequenceRoot in
  do ensureDir videoRoot in
  let* dwebpPath := findExecutable (env_PATH opts) "dwebp" in
  let args := converterArgs opts in
  let* processed :=
    if negb (videosOnly opts) then convertAll opts sogRoot args else ret [] in
  let* st :=
    if negb (videosOnly opts) then buildSequences sequenceRoot processed
    else ret {| frameCounters := ∅; splatFrames := ∅ |} in
  do encodeAll opts sequenceRoot videoRoot dwebpPath in
  let* splats :=
    if negb (videosOnly opts) then
      freshManifest sequenceRoot videoRoot processed (splatFrames st)
    else rebuildManifest sogRoot videoRoot in
  do console (LogVideos videoRoot) in
  ret splats.

(** A run from the command line on the file system [disk]. *)
Definition run (opts : options) (disk : node) : result (list splat) * world :=
  main opts {| fs := disk; trace := [] |}.

(** [main().catch(...)]: the exit status of the process. *)
Definition cli (opts : options) (disk : node) : nat * world :=
  match run opts disk with
  | (Ok _, w) => (0%nat, w)
  | (Err e, w) => (1%nat, emit (EvConsole (LogError (error_message e))) w)
  end.

End Program.

(** ** Objects by reference

    [mapMetaToWebm] once more, on JavaScript values as the engine holds
    them: arrays and objects live in cells of a heap and are passed by
    reference, so that assigning to a property of an object is seen through
    every reference to it. A location is an index into the heap; allocation
    adds a cell at the end. *)

Module Heap.

Inductive value :=
| Null
| Bool (b : bool)
| Num (n : number)
| Str (s : string)
| Ref (l : nat).

Inductive cell :=
| Arr (items : list value)
| Obj (fields : list (string * value)).

Abbreviation heap := (list cell).

(** [f] on every element, failing where [f] fails. *)
Fixpoint all {A B : Type} (f : A -> option B) (l : list A) : option (list B) :=
  match l with
  | [] => Some []
  | x :: rest =>
      match f x, all f rest with
      | Some y, Some ys => Some (y :: ys)
      | _, _ => None
      end
  end.

Definition on_field {A B : Type} (f : A -> option B) (field : string * A)
  : option (string * B) :=
  match f (snd field) with
  | Some y => Some (fst field, y)
  | None => None
  end.

(** The tree of a value: what [JSON.stringify] walks through. References
    are followed through the cells whose location [ok] accepts; [fuel] bounds
    the depth (a cyclic structure has no tree). With [descending], a cell may
    only refer to cells before it, so that no cell is met twice.
    [JSON.stringify] itself follows every reference. *)
Fixpoint read (descending : bool) (ok : nat -> bool) (fuel : nat) (h : heap) (v : value)
  : option json :=
  match v with
  | Null => Some JNull
  | Bool b => Some (JBool b)
  | Num n => Some (JNum n)
  | Str s => Some (JStr s)
  | Ref l =>
      match fuel with
      | O => None
      | S fuel' =>
          if ok l then
            let ok' := if descending then (fun x => ok x && (x <? l)%nat) else ok in
            match h !! l with
            | Some (Arr items) =>
                match all (read descending ok' fuel' h) items with
                | Some trees => Some (JArr trees)
                | None => None
                end
            | Some (Obj fields) =>
                match all (on_field (read descending ok' fuel' h)) fields with
                | Some trees => Some (JObj trees)
                | None => None
                end
            | None => None
            end
          else None
      end
  end.

Definition anywhere (l : nat) : bool := true.

Definition within (lo hi : nat) (l : nat) : bool := (lo <=? l)%nat && (l <? hi)%nat.

Definition from (lo : nat) (l : nat) : bool := (lo <=? l)%nat.

(** The cells of one field of the clone once its key has been handled: its
    own stretch, and the arrays made since. *)
Definition own_or_new (lo hi top : nat) (l : nat) : bool :=
  within lo hi l || (top <=? l)%nat.

Section Build.

Variable build : json -> heap -> value * heap.

Fixpoint build_all (items : list json) (h : heap) : list value * heap :=
  match items with
  | [] => ([], h)
  | item :: rest =>
      let '(v, h1) := build item h in
      let '(vs, h2) := build_all rest h1 in
      (v :: vs, h2)
  end.

Fixpoint build_fields (fields : list (string * json)) (h : heap)
  : list (string * value) * heap :=
  match fields with
  | [] => ([], h)
  | (name, item) :: rest =>
      let '(v, h1) := build item h in
      let '(vs, h2) := build_fields rest h1 in
      ((name, v) :: vs, h2)
  end.

End Build.

(** The value [JSON.parse] builds for a tree: fresh cells for its arrays and
    objects. *)
Fixpoint alloc (j : json) (h : heap) : value * heap :=
  match j with
  | JNull => (Null, h)
  | JBool b => (Bool b, h)
  | JNum n => (Num n, h)
  | JStr s => (Str s, h)
  | JArr items =>
      let '(vs, h1) := build_all alloc items h in
      (Ref (length h1), h1 ++ [Arr vs])
  | JObj fields =>
      let '(vs, h1) := build_fields alloc fields h in
      (Ref (length h1), h1 ++ [Obj vs])
  end.

(** [v[key]] for a key that is neither an index nor [length]: [None] is
    [undefined]; reading a property of [null] throws. *)
Definition get (h : heap) (v : value) (key : string) : result (option value) :=
  match v with
  | Null => Err TypeError
  | Ref l =>
      match h !! l with
      | Some (Obj fields) => Ok (Fs.entry key fields)
      | _ => Ok None
      end
  | _ => Ok None
  end.

(** [!v] is false. *)
Definition truthy (v : value) : bool :=
  match v with
  | Null => false
  | Bool b => b
  | Num (Finite mantissa _) => negb (mantissa =? 0)%Z
  | Num (Infinity _) => true
  | Num NegZero | Num NaN => false
  | Str s => negb (String.eqb s "")
  | Ref _ => true
  end.

(** The items of [v] when [Array.isArray(v)]. *)
Definition as_array (h : heap) (v : option value) : option (list value) :=
  match v with
  | Some (Ref l) =>
      match h !! l with
      | Some (Arr items) => Some items
      | _ => None
      end
  | _ => None
  end.

Definition rename_value (fileName : value) : result value :=
  match fileName with
  | Str s => Ok (Str (replace_webp ".webm" s))
  | _ => Err TypeError
  end.

(** The body of one round of the loop for [attribute = cloned[key]]:
    [files.map] makes a new array, and the assignment to
    [cloned[key].files] changes the cell of [cloned[key]]. *)
Definition rewrite_files (h : heap) (attribute : value) : result heap :=
  if truthy attribute then
    match get h attribute "files" with
    | Err e => Err e
    | Ok files =>
        match as_array h files with
        | None => Ok h
        | Some items =>
            match map_result rename_value items with
            | Err e => Err e
            | Ok names =>
                let fresh := length h in
                let h1 := h ++ [Arr names] in
                match attribute with
                | Ref l =>
                    match h1 !! l with
                    | Some (Obj fields) =>
                        Ok (<[l := Obj (Fs.set_entry "files" (Ref fresh) fields)]> h1)
                    | _ => Ok h1
                    end
                | _ => Ok h1
                end
            end
        end
    end
  else Ok h.

(** One round of the loop. *)
Definition rewrite_key (cloned : value) (h : heap) (key : string) : result heap :=
  match get h cloned key with
  | Err e => Err e
  | Ok None => Ok h
  | Ok (Some attribute) => rewrite_files h attribute
  end.

Fixpoint rewrite_keys (keys : list string) (cloned : value) (h : heap) : result heap :=
  match keys with
  | [] => Ok h
  | key :: rest =>
      match rewrite_key cloned h key with
      | Ok h' => rewrite_keys rest cloned h'
      | Err e => Err e
      end
  end.

(** [mapMetaToWebm(meta)]: the result and the heap it leaves. A [meta] that
    has no tree within [fuel] makes [JSON.stringify] throw; [JSON.parse]
    builds what was written in new cells. *)
Definition mapMetaToWebm (fuel : nat) (meta : value) (h : heap) : result (value * heap) :=
  match read false anywhere fuel h meta with
  | None => Err TypeError
  | Some tree =>
      let '(cloned, h1) := alloc (JSON_roundtrip tree) h in
      match rewrite_keys targets cloned h1 with
      | Ok h2 => Ok (cloned, h2)
      | Err e => Err e
      end
  end.

(** The fields of the clone, one after the other in the cells from [lo] to
    [hi], each with the tree of its value within its own stretch: the
    rewritten attribute once its key is among [done], else the attribute as
    cloned. *)
Inductive staged (done : list string) (fuel top : nat) (h : heap)
  : nat -> nat -> list (string * value) -> list (string * json) -> Prop :=
| staged_nil lo : staged done fuel top h lo lo [] []
| staged_cons lo mid hi name v j vs js :
    (lo <= mid)%nat ->
    (if bool_decide (name ∈ done)
     then read false (own_or_new lo mid top) fuel h v = Some (rewritten_attribute j)
     else read true (within lo mid) fuel h v = Some j) ->
    staged done fuel top h mid hi vs js ->
    staged done fuel top h lo hi ((name, v) :: vs) ((name, j) :: js).

(** The depth of a tree: the fuel that reading it takes. *)
Fixpoint depth (j : json) : nat :=
  match j with
  | JArr items => S (foldr (fun item d => Nat.max (depth item) d) 0%nat items)
  | JObj fields => S (foldr (fun field d => Nat.max (depth (snd field)) d) 0%nat fields)
  | _ => 0%nat
  end.

End Heap.

(** ** What can be said of a tree and of a trace *)

(** [leads n rel target]: following the names of [rel] from [n], each an
    entry of the directory reached so far, ends at [target]. *)
Inductive leads : node -> list string -> node -> Prop :=
| leads_here n : leads n [] n
| leads_down entries name child rest target :
    (name, child) ∈ entries ->
    leads child rest target ->
    leads (Dir entries) (name :: rest) target.

(** The targets of the frames copied into the directory [dir], in trace
    order. *)
Definition copies_into (dir : path) (events : list event) : list path :=
  omap (fun e =>
          match e with
          | EvCopy _ _ targetPath =>
              if decide (removelast targetPath = dir) then Some targetPath else None
          | _ => None
          end) events.

(** The converter runs of a trace, each with its arguments and how it
    ended. *)
Definition conversions (events : list event) : list (list arg * child_outcome) :=
  omap (fun e =>
          match e with
          | EvSplatTransform _ fullArgs outcome => Some (fullArgs, outcome)
          | _ => None
          end) events.

(** [in_stages stages events]: the events fall into consecutive stretches,
    one for each stage in order (a stretch may be empty), the events of a
    stretch all being of its stage. *)
Fixpoint in_stages (stages : list (event -> Prop)) (events : list event) : Prop :=
  match stages with
  | [] => events = []
  | stage :: rest =>
      exists now later, events = now ++ later /\ Forall stage now /\ in_stages rest later
  end.

(** ** A concrete host

    Stand-ins for the parameters, on which the model can be run: the order
    of code units for [localeCompare], a converter that writes [meta.json]
    and one image per attribute named in its input, an ffmpeg that always
    encodes (and one that cannot read WebP), a [dwebp] that writes its
    target. *)

Module Host.

Definition codeUnitCompare (a b : string) : Z :=
  match String.compare a b with
  | Lt => (-1)%Z
  | Eq => 0%Z
  | Gt => 1%Z
  end.

Definition or_same (n : node) (o : option node) : node :=
  match o with Some n' => n' | None => n end.

(** The converter fails on an input whose content is [corrupt]; otherwise it
    writes the metadata, [means.webp], and [shN.webp] when the input names
    [shN]. Any other program called with [src -o target] writes [target]. *)
Definition spawn (exec : path) (args : list arg) (n : node) : child_outcome * node :=
  match exec, rev args with
  | ["bin"; "splat-transform"], ArgPath out :: ArgPath inp :: _ =>
      match Fs.resolve inp n with
      | Some (File data) =>
          if String.eqb data "corrupt" then (ChildClose (Some 1%N), n)
          else
            let dir := removelast out in
            let n1 := or_same n (Fs.write out data n) in
            let n2 :=
              if Str.includes data "means"
              then or_same n1 (Fs.write (Path.join dir "means.webp") "M" n1)
              else n1 in
            let n3 :=
              if Str.includes data "shN"
              then or_same n2 (Fs.write (Path.join dir "shN.webp") "S" n2)
              else n2 in
            (ChildClose (Some 0%N), n3)
      | _ => (ChildClose (Some 2%N), n)
      end
  | _, [ArgPath target; ArgText "-o"; ArgPath src] =>
      (ChildClose (Some 0%N), or_same n (Fs.write target "png" n))
  | _, _ => (ChildError (Error "spawn ENOENT"), n)
  end.

(** A [dwebp] that cannot read the second frame. *)
Definition dwebp_fails (exec : path) (args : list arg) (n : node) : child_outcome * node :=
  match args with
  | ArgPath src :: _ =>
      if String.eqb (Path.basename src) "frame_00001.WEBP" then (ChildClose (Some 3%N), n)
      else spawn exec args n
  | _ => spawn exec args n
  end.

Definition ffmpeg (job : ffmpeg_job) (n : node) : result unit * node :=
  (Ok tt, or_same n (Fs.write (outputVideoPath job) "webm" n)).

(** An ffmpeg built without WebP support. *)
Definition ffmpeg_no_webp (job : ffmpeg_job) (n : node) : result unit * node :=
  if has_ext ".webp" (Path.basename (inputPattern job))
  then (Err (Error "ffmpeg exited with code 1"), n)
  else (Ok tt, or_same n (Fs.write (outputVideoPath job) "webm" n)).

Definition parse (raw : string) : option json :=
  if String.eqb raw "bad" then None
  else Some (JObj [("means", JObj [("files", JArr [JStr "means.webp"])])]).

Definition stringify (value : json) : string := "{}".

Definition opts (only overwriting : bool) : options := {|
  input := Some ["in"];
  output := ["out"];
  splatExec := ["bin"; "splat-transform"];
  splatArgs := [];
  webpWidth := None;
  webpHeight := None;
  crf := 18;
  gop := 30;
  fps := 30;
  overwrite := overwriting;
  videosOnly := only;
  env_PATH := [["bin"]]
|}.

(** Three objects, each with [means] and [shN]. *)
Definition disk_three : node :=
  Dir [("bin", Dir [("splat-transform", File "")]);
       ("in", Dir [("b.ply", File "means shN");
                   ("a.ply", File "means shN");
                   ("c.PLY", File "means shN");
                   ("notes.txt", File "")])].

(** Two objects with different attributes. *)
Definition disk_uneven : node :=
  Dir [("bin", Dir [("splat-transform", File "")]);
       ("in", Dir [("a.ply", File "means");
                   ("b.ply", File "means shN")])].

(** Two objects that share no attribute. *)
Definition disk_disjoint : node :=
  Dir [("bin", Dir [("splat-transform", File "")]);
       ("in", Dir [("a.ply", File "means");
                   ("b.ply", File "shN")])].

(** The second input cannot be converted. *)
Definition disk_corrupt : node :=
  Dir [("bin", Dir [("splat-transform", File "")]);
       ("in", Dir [("apple.ply", File "means");
                   ("bunny.ply", File "corrupt")])].

(** An output root left by an earlier run: [objectA] has no metadata. *)
Definition disk_rebuild : node :=
  Dir [("out", Dir [("sog", Dir [("objectB", Dir [("meta.json", File "{}")]);
                                 ("objectA", Dir [])])])].

(** An output root whose two objects both have metadata. *)
Definition disk_rebuild_full : node :=
  Dir [("out", Dir [("sog", Dir [("objectB", Dir [("meta.json", File "{}")]);
                                 ("objectA", Dir [("meta.json", File "{}")])])])].

(** A sequence directory with two frames, a stray text file, a directory
    whose name ends in [.webp], and fallback leftovers. *)
Definition disk_sequence : node :=
  Dir [("seq", Dir [("frame_00001.WEBP", File "1");
                    ("notes.txt", File "");
                    ("frame_00000.webp", File "0");
                    ("old.webp", Dir []);
                    ("_png", Dir [("frame_00000.png", File "png")])])].

(** A sequence directory without frames beside one with a frame. *)
Definition disk_empty_sequence : node :=
  Dir [("out", Dir [("sequences",
                     Dir [("means", Dir [("notes.txt", File "");
                                         ("old.webp", Dir [])]);
                          ("shN", Dir [("frame_00000.webp", File "S")])]);
                    ("videos", Dir [])])].

Definition run := run codeUnitCompare spawn ffmpeg parse stringify.

(** An input beside the output of an earlier run and a file of the user's. *)
Definition disk_previous : node :=
  Dir [("bin", Dir [("splat-transform", File "")]);
       ("in", Dir [("a.ply", File "means")]);
       ("out", Dir [("notes.txt", File "keep");
                    ("sequences", Dir [("old", Dir [("frame_00000.webp", File "x")])])])].

(** Two objects, the first of which yields no image. *)
Definition disk_bare : node :=
  Dir [("bin", Dir [("splat-transform", File "")]);
       ("in", Dir [("a.ply", File "plain");
                   ("b.ply", File "means")])].

(** An input directory without point clouds. *)
Definition disk_no_ply : node :=
  Dir [("in", Dir [("readme.txt", File ""); ("cloud.ply", Dir [])])].

(** The output of one conversion: images at two depths, and an entry that
    is neither a file nor a directory. *)
Definition disk_nested : node :=
  Dir [("sog", Dir [("obj", Dir [("meta.json", File "{}");
                                 ("means_l.webp", File "m");
                                 ("lod", Dir [("shN_centroids.WEBP", File "s");
                                              ("pipe", Special)])])])].

(** A heap with one metadata object, whose [means] and [extra] are the same
    object. *)
Definition meta_heap : Heap.heap :=
  [Heap.Arr [Heap.Str "means_l.webp"; Heap.Str "means_u.WEBP"; Heap.Str "notes.txt"];
   Heap.Obj [("files", Heap.Ref 0); ("codebook", Heap.Null)];
   Heap.Obj [("version", Heap.Num 2%Z); ("means", Heap.Ref 1); ("extra", Heap.Ref 1)]].

Definition meta_value : Heap.value := Heap.Ref 2.

Definition meta_tree : json :=
  let attribute :=
    JObj [("files", JArr [JStr "means_l.webp"; JStr "means_u.WEBP"; JStr "notes.txt"]);
          ("codebook", JNull)] in
  JObj [("version", JNum 2%Z); ("means", attribute); ("extra", attribute)].

(** The value of [{"means": {"files": ["means.webp"], "maxs": [1e999]},
    "offset": -0}] once parsed. *)
Definition overflow_heap : Heap.heap :=
  [Heap.Arr [Heap.Str "means.webp"];
   Heap.Arr [Heap.Num (Infinity false)];
   Heap.Obj [("files", Heap.Ref 0); ("maxs", Heap.Ref 1)];
   Heap.Obj [("means", Heap.Ref 2); ("offset", Heap.Num NegZero)]].

Definition overflow_value : Heap.value := Heap.Ref 3.

Definition overflow_tree : json :=
  JObj [("means", JObj [("files", JArr [JStr "means.webp"]);
                        ("maxs", JArr [JNum (Infinity false)])]);
        ("offset", JNum NegZero)].

End Host.
(** * Properties

    ** Strings *)

Lemma toLowerCase_app (a b : string) :
  Str.toLowerCase (a +:+ b) = Str.toLowerCase a +:+ Str.toLowerCase b.
Proof. induction a as [|c a IH]; simpl; [done | by rewrite IH]. Qed.

Lemma toLowerCase_length (s : string) :
  String.length (Str.toLowerCase s) = String.length s.
Proof. induction s as [|c s IH]; simpl; [done | by rewrite IH]. Qed.

Lemma toLowerCase_split (s a b : string) :
  Str.toLowerCase s = a +:+ b ->
  exists s1 s2, s = s1 +:+ s2 /\ Str.toLowerCase s1 = a /\ Str.toLowerCase s2 = b.
Proof.
  revert s. induction a as [|c a IH]; intros s H.
  - exists "", s. done.
  - destruct s as [|d s]; simpl in H; [done|].
    injection H as Hc Hs. destruct (IH _ Hs) as (s1 & s2 & -> & H1 & H2).
    exists (String d s1), s2. simpl. by rewrite Hc, H1.
Qed.

Lemma endsWith_unfold (s suffix : string) :
  Str.endsWith s suffix =
  if String.eqb s suffix then true
  else match s with
       | EmptyString => false
       | String _ rest => Str.endsWith rest suffix
       end.
Proof. by destruct s. Qed.

Lemma endsWith_spec (s suffix : string) :
  Str.endsWith s suffix = true <-> exists p, s = p +:+ suffix.
Proof.
  induction s as [|c s IH]; rewrite endsWith_unfold.
  - destruct (String.eqb_spec "" suffix) as [<-|Hne].
    + split; [intros _; by exists "" | done].
    + split; [done|]. intros [p Hp]. destruct p; simpl in Hp; [done | discriminate].
  - destruct (String.eqb_spec (String c s) suffix) as [<-|Hne].
    + split; [intros _; by exists "" | done].
    + rewrite IH. split.
      * intros [p ->]. by exists (String c p).
      * intros [p Hp]. destruct p as [|d p]; simpl in Hp; [done|].
        injection Hp as _ ->. by exists p.
Qed.

Lemma has_ext_spec (ext name : string) :
  has_ext ext name = true <->
  exists base e, name = base +:+ e /\ Str.toLowerCase e = ext.
Proof.
  unfold has_ext. rewrite endsWith_spec. split.
  - intros [p Hp]. destruct (toLowerCase_split _ _ _ Hp) as (s1 & s2 & -> & _ & H2).
    by exists s1, s2.
  - intros (base & e & -> & <-). exists (Str.toLowerCase base). apply toLowerCase_app.
Qed.

Lemma app_length_string (a b : string) :
  String.length (a +:+ b) = (String.length a + String.length b)%nat.
Proof. induction a as [|c a IH]; simpl; [done | by rewrite IH]. Qed.

Lemma replace_suffix_ci_unfold (ext to s : string) :
  Str.replace_suffix_ci ext to s =
  if String.eqb (Str.toLowerCase s) ext then to
  else match s with
       | EmptyString => EmptyString
       | String c rest => String c (Str.replace_suffix_ci ext to rest)
       end.
Proof. by destruct s. Qed.

Lemma replace_suffix_ci_hit (ext to base e : string) :
  Str.toLowerCase e = ext ->
  Str.replace_suffix_ci ext to (base +:+ e) = base +:+ to.
Proof.
  intros He. induction base as [|c base IH].
  - rewrite replace_suffix_ci_unfold. change ("" +:+ e) with e.
    by rewrite He, String.eqb_refl.
  - rewrite replace_suffix_ci_unfold.
    destruct (String.eqb_spec (Str.toLowerCase (String c base +:+ e)) ext) as [Heq|].
    + exfalso. apply (f_equal String.length) in Heq. subst ext.
      rewrite !toLowerCase_length, app_length_string in Heq. simpl in Heq. lia.
    + simpl. by rewrite IH.
Qed.

Lemma replace_suffix_ci_miss (ext to s : string) :
  has_ext ext s = false -> Str.replace_suffix_ci ext to s = s.
Proof.
  unfold has_ext. induction s as [|c s IH];
    rewrite endsWith_unfold, replace_suffix_ci_unfold.
  - destruct (String.eqb_spec (Str.toLowerCase "") ext); done.
  - destruct (String.eqb_spec (Str.toLowerCase (String c s)) ext); [done|].
    intros H. by rewrite IH.
Qed.

(** ** The order of the concrete host *)

Lemma codeUnit_le (a b : string) :
  locale_le Host.codeUnitCompare a b <-> String.le a b.
Proof.
  unfold locale_le, Host.codeUnitCompare, String.le, String.leb.
  destruct (a ?= b)%string; simpl; split; intros H; try done; lia.
Qed.

Lemma codeUnit_total (a b : string) :
  locale_le Host.codeUnitCompare a b \/ locale_le Host.codeUnitCompare b a.
Proof. rewrite !codeUnit_le. apply String.le_total. Qed.

Lemma codeUnit_trans (a b c : string) :
  locale_le Host.codeUnitCompare a b -> locale_le Host.codeUnitCompare b c ->
  locale_le Host.codeUnitCompare a c.
Proof. rewrite !codeUnit_le. intros H1 H2. by etrans. Qed.

(** ** The monad and the file system *)

Lemma bind_inv {A B : Type} (m : M A) (k : A -> M B) w r w' :
  bind m k w = (r, w') ->
  (exists a w1, m w = (Ok a, w1) /\ k a w1 = (r, w'))
  \/ (exists e, m w = (Err e, w') /\ r = Err e).
Proof.
  unfold bind. destruct (m w) as [[a|e] w1]; intros H.
  - left. eauto.
  - right. injection H as <- <-. eauto.
Qed.

Lemma bind_ok {A B : Type} (m : M A) (k : A -> M B) w a w1 :
  m w = (Ok a, w1) -> bind m k w = k a w1.
Proof. unfold bind. by intros ->. Qed.

Lemma bind_err {A B : Type} (m : M A) (k : A -> M B) w e w1 :
  m w = (Err e, w1) -> bind m k w = (Err e, w1).
Proof. unfold bind. by intros ->. Qed.

Lemma for_of_app {A S : Type} (xs ys : list A) (body : S -> A -> M S) (s : S) w :
  for_of (xs ++ ys) body s w = bind (for_of xs body s) (for_of ys body) w.
Proof.
  revert s w. induction xs as [|x xs IH]; intros s w; simpl.
  - reflexivity.
  - unfold bind. destruct (body s x w) as [[s'|e] w1]; [|reflexivity].
    rewrite IH. reflexivity.
Qed.

Lemma entry_set_entry {A : Type} (name : string) (x : A) entries :
  Fs.entry name (Fs.set_entry name x entries) = Some x.
Proof.
  induction entries as [|[n y] rest IH]; simpl.
  - by rewrite String.eqb_refl.
  - destruct (String.eqb_spec n name) as [->|Hne]; simpl.
    + by rewrite String.eqb_refl.
    + destruct (String.eqb_spec n name); [done|]. apply IH.
Qed.

Lemma entry_elem_of {A : Type} (name : string) (x : A) entries :
  Fs.entry name entries = Some x -> (name, x) ∈ entries.
Proof.
  induction entries as [|[n y] rest IH]; simpl; [done|].
  destruct (String.eqb_spec n name) as [->|Hne].
  - intros [= ->]. apply list_elem_of_here.
  - intros H. apply list_elem_of_further. auto.
Qed.

Lemma elem_of_entry {A : Type} (name : string) (x : A) entries :
  (name, x) ∈ entries -> is_Some (Fs.entry name entries).
Proof.
  induction entries as [|[n y] rest IH]; simpl.
  - intros H. by apply not_elem_of_nil in H.
  - intros H. destruct (String.eqb_spec n name) as [->|Hne]; [eauto|].
    apply elem_of_cons in H as [[= -> ->]|H]; [done | auto].
Qed.

(** Creating a directory inside [p] leaves the other entries of [p] as
    they are. *)
Lemma mkdir_p_child (p : path) (name : string) (n : node) entries :
  Fs.resolve p n = Some (Dir entries) ->
  (forall child, Fs.entry name entries = Some child -> isDirectory (name, child) = true) ->
  exists n' sub,
    Fs.mkdir_p (Path.join p name) n = Some n'
    /\ Fs.resolve p n' = Some (Dir (Fs.set_entry name (Dir sub) entries)).
Proof.
  unfold Path.join. revert n. induction p as [|a p IH]; intros n Hres Hdir.
  - simpl in Hres. injection Hres as ->. simpl.
    destruct (Fs.entry name entries) as [child|] eqn:He.
    + specialize (Hdir child eq_refl). destruct child as [|sub|]; try done.
      simpl. eexists _, sub. split; done.
    + simpl. eexists _, []. split; done.
  - simpl in Hres. destruct n as [|es|]; try done.
    destruct (Fs.entry a es) as [c|] eqn:Ha; [|done].
    destruct (IH c Hres Hdir) as (c' & sub & Hmk & Hres').
    simpl. rewrite Ha, Hmk. eexists _, sub. split; [done|].
    simpl. by rewrite entry_set_entry.
Qed.

(** ** What a computation adds to the trace *)

Section Emits.

Variable P : event -> Prop.

Lemma emits_silent {A : Type} (m : M A) :
  (forall w r w', m w = (r, w') -> trace w' = trace w) -> emits P m.
Proof.
  intros H w r w' Hrun. exists []. rewrite app_nil_r. split; [eauto | constructor].
Qed.

Lemma emits_one {A : Type} (m : M A) :
  (forall w r w', m w = (r, w') ->
     trace w' = trace w \/ exists e, trace w' = trace w ++ [e] /\ P e) ->
  emits P m.
Proof.
  intros H w r w' Hrun. destruct (H _ _ _ Hrun) as [Heq|(e & Heq & He)].
  - exists []. rewrite app_nil_r. split; [done | constructor].
  - exists [e]. split; [done|]. by constructor.
Qed.

Lemma emits_ret {A : Type} (a : A) : emits P (ret a).
Proof. apply emits_silent. intros w r w' [= _ <-]. done. Qed.

Lemma emits_throw {A : Type} (e : error) : emits P (@throw A e).
Proof. apply emits_silent. intros w r w' [= _ <-]. done. Qed.

Lemma emits_lift {A : Type} (x : result A) : emits P (lift x).
Proof. apply emits_silent. intros w r w' [= _ <-]. done. Qed.

Lemma emits_bind {A B : Type} (m : M A) (k : A -> M B) :
  emits P m -> (forall a, emits P (k a)) -> emits P (bind m k).
Proof.
  intros Hm Hk w r w' Hrun.
  apply bind_inv in Hrun as [(a & w1 & H1 & H2)|(e & H1 & _)].
  - destruct (Hm _ _ _ H1) as (n1 & E1 & F1).
    destruct (Hk a _ _ _ H2) as (n2 & E2 & F2).
    exists (n1 ++ n2). rewrite E2, E1, app_assoc. split; [done|].
    by apply Forall_app.
  - eauto.
Qed.

Lemma emits_try_catch {A : Type} (body : M A) (handler : error -> M A) :
  emits P body -> (forall e, emits P (handler e)) -> emits P (try_catch body handler).
Proof.
  intros Hb Hh w r w' Hrun. unfold try_catch in Hrun.
  destruct (body w) as [[a|e] w1] eqn:H1.
  - injection Hrun as <- <-. eauto.
  - destruct (Hb _ _ _ H1) as (n1 & E1 & F1).
    destruct (Hh e _ _ _ Hrun) as (n2 & E2 & F2).
    exists (n1 ++ n2). rewrite E2, E1, app_assoc. split; [done|].
    by apply Forall_app.
Qed.

Lemma emits_for_of {A S : Type} (xs : list A) (body : S -> A -> M S) (s : S) :
  (forall s x, emits P (body s x)) -> emits P (for_of xs body s).
Proof.
  intros Hbody. revert s. induction xs as [|x xs IH]; intros s; simpl.
  - apply emits_ret.
  - apply emits_bind; auto.
Qed.

Lemma emits_for_each {A : Type} (xs : list A) (body : A -> M unit) :
  (forall x, emits P (body x)) -> emits P (for_each xs body).
Proof. intros H. apply emits_for_of. auto. Qed.

Lemma emits_pathExists (p : path) : emits P (pathExists p).
Proof.
  apply emits_silent. intros w r w'. unfold pathExists.
  destruct (Fs.resolve p (fs w)); by intros [= _ <-].
Qed.

Lemma emits_ensureDir (p : path) : emits P (ensureDir p).
Proof.
  apply emits_silent. intros w r w'. unfold ensureDir.
  destruct (Fs.mkdir_p p (fs w)); by intros [= _ <-].
Qed.

Lemma emits_removeDir (p : path) : emits P (removeDir p).
Proof. apply emits_silent. intros w r w'. unfold removeDir. by intros [= _ <-]. Qed.

Lemma emits_readdir (p : path) : emits P (readdir p).
Proof.
  apply emits_silent. intros w r w'. unfold readdir.
  destruct (Fs.resolve p (fs w)) as [[| |]|]; by intros [= _ <-].
Qed.

Lemma emits_readFile (p : path) : emits P (readFile p).
Proof.
  apply emits_silent. intros w r w'. unfold readFile.
  destruct (Fs.resolve p (fs w)) as [[| |]|]; by intros [= _ <-].
Qed.

Lemma emits_writeFile (p : path) (data : string) : emits P (writeFile p data).
Proof.
  apply emits_silent. intros w r w'. unfold writeFile.
  destruct (Fs.write p data (fs w)); by intros [= _ <-].
Qed.

Lemma emits_findExecutable (parts : list path) (name : string) :
  emits P (findExecutable parts name).
Proof. apply emits_silent. intros w r w'. unfold findExecutable. by intros [= _ <-]. Qed.

Lemma emits_copyFile (owner : string) (src dst : path) :
  P (EvCopy owner src dst) -> emits P (copyFile owner src dst).
Proof.
  intros HP. apply emits_one. intros w r w'. unfold copyFile.
  destruct (Fs.resolve src (fs w)) as [[data| |]|]; try (intros [= _ <-]; by left).
  destruct (Fs.write dst data (fs w)); intros [= _ <-]; [right | by left].
  eexists. split; [done | exact HP].
Qed.

Lemma emits_console (m : message) : P (EvConsole m) -> emits P (console m).
Proof.
  intros HP. apply emits_one. intros w r w' [= _ <-]. right. eexists. split; [done | exact HP].
Qed.

Lemma emits_uniqueDir_loop (fuel : nat) (baseDir candidate : path) (suffix : nat) :
  emits P (uniqueDir_loop fuel baseDir candidate suffix).
Proof.
  revert candidate suffix. induction fuel as [|fuel IH]; intros candidate suffix; simpl.
  - apply emits_bind; [apply emits_pathExists|].
    intros [|]; [apply emits_throw | apply emits_ret].
  - apply emits_bind; [apply emits_pathExists|].
    intros [|]; [apply IH | apply emits_ret].
Qed.

Lemma emits_uniqueDir (baseDir : path) : emits P (uniqueDir baseDir).
Proof. intros w r w' Hrun. unfold uniqueDir in Hrun. by eapply emits_uniqueDir_loop. Qed.

Section Tools.

Variable localeCompare : string -> string -> Z.
Variable spawn : path -> list arg -> node -> child_outcome * node.
Variable ffmpeg_run : ffmpeg_job -> node -> result unit * node.
Variable JSON_parse : string -> option json.

Lemma emits_parse_json (raw : string) : emits P (parse_json JSON_parse raw).
Proof. unfold parse_json. destruct (JSON_parse raw); [apply emits_ret | apply emits_throw]. Qed.

Lemma emits_runSplatTransform execPath args inputPath outputPath :
  (forall fullArgs outcome, P (EvSplatTransform execPath fullArgs outcome)) ->
  emits P (runSplatTransform spawn execPath args inputPath outputPath).
Proof.
  intros HP. apply emits_one. intros w r w'. unfold runSplatTransform.
  destruct (spawn _ _ _) as [outcome n]. intros Hrun. right.
  exists (EvSplatTransform execPath
            (map ArgText args ++ [ArgPath inputPath; ArgPath outputPath]) outcome).
  split; [|apply HP].
  destruct outcome as [e|[[|code]|]]; by injection Hrun as _ <-.
Qed.

Lemma emits_runDwebp dwebpPath srcPath targetPath :
  (forall outcome, P (EvDwebp dwebpPath srcPath targetPath outcome)) ->
  emits P (runDwebp spawn dwebpPath srcPath targetPath).
Proof.
  intros HP. apply emits_one. intros w r w'. unfold runDwebp.
  destruct (spawn _ _ _) as [outcome n]. intros Hrun. right.
  exists (EvDwebp dwebpPath srcPath targetPath outcome).
  split; [|apply HP].
  destruct outcome as [e|[[|code]|]]; by injection Hrun as _ <-.
Qed.

Lemma emits_encodeWithFfmpeg job :
  (forall outcome, P (EvFfmpeg job outcome)) ->
  emits P (encodeWithFfmpeg ffmpeg_run job).
Proof.
  intros HP. apply emits_one. intros w r w'. unfold encodeWithFfmpeg.
  destruct (ffmpeg_run _ _) as [outcome n]. intros [= _ <-]. right.
  eexists. split; [done | apply HP].
Qed.

Lemma emits_listSequenceFrames dir : emits P (listSequenceFrames localeCompare dir).
Proof.
  unfold listSequenceFrames. apply emits_bind; [apply emits_readdir|].
  intros. apply emits_ret.
Qed.

Lemma emits_listSequenceDirs dir : emits P (listSequenceDirs dir).
Proof.
  unfold listSequenceDirs. apply emits_bind; [apply emits_readdir|].
  intros. apply emits_ret.
Qed.

Lemma emits_listSogDirs dir : emits P (listSogDirs dir).
Proof.
  unfold listSogDirs. apply emits_bind; [apply emits_readdir|].
  intros. apply emits_ret.
Qed.

Lemma emits_listPlyFiles dir : emits P (listPlyFiles localeCompare dir).
Proof.
  unfold listPlyFiles. apply emits_bind; [apply emits_readdir|].
  intros. apply emits_ret.
Qed.

Lemma emits_walkForWebp dir : emits P (walkForWebp dir).
Proof.
  unfold walkForWebp. apply emits_bind; [apply emits_readdir|].
  intros. apply emits_ret.
Qed.

Lemma emits_convertSequenceToPng sequenceDir pngDir dwebpPath :
  (forall src dst outcome, P (EvDwebp dwebpPath src dst outcome)) ->
  emits P (convertSequenceToPng localeCompare spawn sequenceDir pngDir dwebpPath).
Proof.
  intros HP. unfold convertSequenceToPng.
  apply emits_bind; [apply emits_ensureDir|]. intros _.
  apply emits_bind; [apply emits_listSequenceFrames|]. intros frames.
  apply emits_for_each. intros fileName. apply emits_runDwebp. auto.
Qed.

Lemma emits_encodeSequenceToWebm sequenceDir outputVideoPath fps crf gop dwebpPath :
  (forall job outcome, P (EvFfmpeg job outcome)) ->
  (forall dwebp src dst outcome, P (EvDwebp dwebp src dst outcome)) ->
  P (EvConsole (WarnFallback sequenceDir)) ->
  emits P (encodeSequenceToWebm localeCompare spawn ffmpeg_run sequenceDir
             outputVideoPath fps crf gop dwebpPath).
Proof.
  intros HF HD HW. unfold encodeSequenceToWebm.
  apply emits_try_catch; [by apply emits_encodeWithFfmpeg|].
  intros e. destruct dwebpPath as [dwebp|]; [|apply emits_throw].
  apply emits_bind; [by apply emits_console|]. intros _.
  apply emits_bind; [by apply emits_convertSequenceToPng|]. intros _.
  by apply emits_encodeWithFfmpeg.
Qed.

End Tools.

End Emits.

(** ** The stages of [main] and the trace *)

Lemma emits_weaken {A : Type} (P Q : event -> Prop) (m : M A) :
  (forall e, P e -> Q e) -> emits P m -> emits Q m.
Proof.
  intros HPQ Hm w r w' Hrun. destruct (Hm _ _ _ Hrun) as (new & Hnew & Hall).
  exists new. split; [done|]. eapply Forall_impl; eauto.
Qed.

Lemma emits_nothing {A : Type} (m : M A) w r w' :
  emits (fun _ => False) m -> m w = (r, w') -> trace w' = trace w.
Proof.
  intros Hm Hrun. destruct (Hm _ _ _ Hrun) as (new & Hnew & Hall).
  destruct new; [by rewrite app_nil_r in Hnew | by inversion Hall].
Qed.

Section Stages.

Variable localeCompare : string -> string -> Z.
Variable spawn : path -> list arg -> node -> child_outcome * node.
Variable ffmpeg_run : ffmpeg_job -> node -> result unit * node.
Variable JSON_parse : string -> option json.
Variable JSON_stringify : json -> string.

Variable P : event -> Prop.

Lemma emits_checkInput opts : emits P (checkInput opts).
Proof.
  unfold checkInput. destruct (negb _); [|apply emits_ret].
  destruct (input opts); [|apply emits_throw].
  apply emits_bind; [apply emits_pathExists|].
  intros [|]; [apply emits_ret | apply emits_throw].
Qed.

Lemma emits_prepareOutput opts dirs : emits P (prepareOutput opts dirs).
Proof.
  unfold prepareOutput. destruct (_ && _).
  - apply emits_for_each. intros dir. apply emits_bind; [apply emits_pathExists|].
    intros [|]; [apply emits_throw | apply emits_ret].
  - destruct (negb _); [|apply emits_ret].
    apply emits_for_each. intros dir. apply emits_bind; [apply emits_pathExists|].
    intros [|]; [apply emits_removeDir | apply emits_ret].
Qed.

Lemma emits_convertOne opts sogRoot args processed ply :
  (forall exec fullArgs outcome, P (EvSplatTransform exec fullArgs outcome)) ->
  emits P (convertOne spawn opts sogRoot args processed ply).
Proof.
  intros HP. unfold convertOne.
  apply emits_bind; [apply emits_uniqueDir|]. intros dir.
  apply emits_bind; [apply emits_ensureDir|]. intros _.
  apply emits_bind; [by apply emits_runSplatTransform|]. intros _.
  apply emits_ret.
Qed.

Lemma emits_convertAll opts sogRoot args :
  (forall exec fullArgs outcome, P (EvSplatTransform exec fullArgs outcome)) ->
  emits P (convertAll localeCompare spawn opts sogRoot args).
Proof.
  intros HP. unfold convertAll. destruct (input opts); [|apply emits_throw].
  apply emits_bind; [apply emits_listPlyFiles|]. intros plyFiles.
  destruct (_ =? _)%nat; [apply emits_throw|].
  apply emits_for_of. intros. by apply emits_convertOne.
Qed.

Lemma emits_encodeOne opts sequenceRoot videoRoot dwebpPath sequenceName :
  (forall e, is_encode e -> P e) ->
  emits P (encodeOne localeCompare spawn ffmpeg_run opts sequenceRoot videoRoot
             dwebpPath sequenceName).
Proof.
  intros HP. unfold encodeOne.
  apply emits_bind; [apply emits_listSequenceFrames|]. intros frames.
  destruct (_ =? _)%nat; [apply emits_ret|].
  apply emits_encodeSequenceToWebm; intros; by apply HP.
Qed.

Lemma emits_encodeAll opts sequenceRoot videoRoot dwebpPath :
  (forall e, is_encode e -> P e) ->
  emits P (encodeAll localeCompare spawn ffmpeg_run opts sequenceRoot videoRoot dwebpPath).
Proof.
  intros HP. unfold encodeAll.
  apply emits_bind; [apply emits_listSequenceDirs|]. intros dirs.
  apply emits_for_each. intros name. by apply emits_encodeOne.
Qed.

Lemma emits_describeItem frames splats item :
  emits P (describeItem JSON_parse frames splats item).
Proof.
  unfold describeItem.
  apply emits_bind; [apply emits_readFile|]. intros raw.
  apply emits_bind; [apply emits_parse_json|]. intros parsed.
  apply emits_bind; [apply emits_lift|]. intros rewritten.
  apply emits_ret.
Qed.

Lemma emits_freshManifest sequenceRoot videoRoot processed frames :
  (forall e, is_report e -> P e) ->
  emits P (freshManifest JSON_parse JSON_stringify sequenceRoot videoRoot processed frames).
Proof.
  intros HP. unfold freshManifest.
  apply emits_bind; [apply emits_for_of; intros; apply emits_describeItem|]. intros splats.
  apply emits_bind; [apply emits_writeFile|]. intros _.
  apply emits_bind; [by apply emits_console, HP|]. intros _.
  apply emits_bind; [by apply emits_console, HP|]. intros _.
  apply emits_ret.
Qed.

Lemma emits_rebuildFrom sogRoot rest :
  forall index splats, emits P (rebuildFrom JSON_parse sogRoot rest index splats).
Proof.
  induction rest as [|dirName rest IH]; intros index splats; simpl.
  - apply emits_ret.
  - apply emits_bind; [apply emits_pathExists|]. intros [|]; simpl; [|apply IH].
    apply emits_bind; [apply emits_readFile|]. intros raw.
    apply emits_bind; [apply emits_parse_json|]. intros parsed.
    apply emits_bind; [apply emits_lift|]. intros rewritten.
    apply IH.
Qed.

Lemma emits_rebuildManifest sogRoot videoRoot :
  emits P (rebuildManifest localeCompare JSON_parse JSON_stringify sogRoot videoRoot).
Proof.
  unfold rebuildManifest.
  apply emits_bind; [apply emits_pathExists|]. intros found.
  apply emits_bind.
  { destruct found; [|apply emits_ret].
    apply emits_bind; [apply emits_listSogDirs|]. intros dirs. apply emits_rebuildFrom. }
  intros splats. apply emits_bind; [apply emits_writeFile|]. intros _. apply emits_ret.
Qed.

End Stages.

(** ** The frames of a sequence directory *)

Lemma filter_files_set_dir (Q : string -> bool) (name : string) (sub : list (string * node))
    (entries : list dirent) :
  (forall child, Fs.entry name entries = Some child -> isDirectory (name, child) = true) ->
  List.filter (fun entry => isFile entry && Q (dirent_name entry))
    (Fs.set_entry name (Dir sub) entries)
  = List.filter (fun entry => isFile entry && Q (dirent_name entry)) entries.
Proof.
  induction entries as [|[n y] rest IH]; intros Hdir; simpl.
  - done.
  - simpl in Hdir. destruct (String.eqb_spec n name) as [->|Hne].
    + specialize (Hdir y eq_refl). destruct y; try done.
    + simpl. rewrite IH; done.
Qed.

Lemma listSequenceFrames_run localeCompare (sequenceDir : path) w entries :
  Fs.resolve sequenceDir (fs w) = Some (Dir entries) ->
  listSequenceFrames localeCompare sequenceDir w
  = (Ok (sort_names localeCompare
           (map dirent_name
              (List.filter (fun entry => isFile entry && has_ext ".webp" (dirent_name entry))
                           entries))), w).
Proof.
  intros H. unfold listSequenceFrames, readdir, bind, ret. by rewrite H.
Qed.

Section SequenceFrames.

Variable localeCompare : string -> string -> Z.
Variable spawn : path -> list arg -> node -> child_outcome * node.
Variable ffmpeg_run : ffmpeg_job -> node -> result unit * node.

Hypothesis localeCompare_total :
  forall a b, locale_le localeCompare a b \/ locale_le localeCompare b a.
Hypothesis localeCompare_trans :
  forall a b c,
    locale_le localeCompare a b -> locale_le localeCompare b c ->
    locale_le localeCompare a c.

(** C10. The frame list of a sequence directory is exactly the names of
    its regular files that end in [.webp] whatever the case, sorted by
    [localeCompare]. The same list decides the zero-frame skip of the encode
    loop and feeds the transcode of the fallback, which reads it after it has
    created its [_png] side directory; a [_png] directory among the entries,
    whatever it holds, does not change the list. *)
Theorem listSequenceFrames_exact (sequenceDir : path) (w : world) (entries : list dirent) :
  Fs.resolve sequenceDir (fs w) = Some (Dir entries) ->
  exists frames,
    listSequenceFrames localeCompare sequenceDir w = (Ok frames, w)
    /\ frames ≡ₚ
         map dirent_name
           (List.filter (fun entry => isFile entry && has_ext ".webp" (dirent_name entry))
                        entries)
    /\ StronglySorted (locale_le localeCompare) frames
    /\ (forall name,
          name ∈ frames <->
          exists data base ext,
            (name, File data) ∈ entries /\ name = base +:+ ext
            /\ Str.toLowerCase ext = ".webp")
    /\ (forall opts sequenceRoot videoRoot dwebpPath sequenceName,
          sequenceDir = Path.join sequenceRoot sequenceName ->
          encodeOne localeCompare spawn ffmpeg_run opts sequenceRoot videoRoot
            dwebpPath sequenceName w
          = if (length frames =? 0)%nat then (Ok tt, w)
            else encodeSequenceToWebm localeCompare spawn ffmpeg_run sequenceDir
                   (Path.join videoRoot (sequenceName +:+ ".webm"))
                   (fps opts) (crf opts) (gop opts) dwebpPath w)
    /\ ((forall child, Fs.entry "_png" entries = Some child ->
                       isDirectory ("_png", child) = true) ->
        (forall leftovers w',
            Fs.resolve sequenceDir (fs w')
            = Some (Dir (Fs.set_entry "_png" (Dir leftovers) entries)) ->
            listSequenceFrames localeCompare sequenceDir w' = (Ok frames, w'))
        /\ (forall dwebpPath,
              exists n,
                Fs.mkdir_p (Path.join sequenceDir "_png") (fs w) = Some n
                /\ convertSequenceToPng localeCompare spawn sequenceDir
                     (Path.join sequenceDir "_png") dwebpPath w
                   = for_each frames
                       (fun fileName =>
                          runDwebp spawn dwebpPath (Path.join sequenceDir fileName)
                            (Path.join (Path.join sequenceDir "_png")
                                       (replace_webp ".png" fileName)))
                       (set_fs n w))).
Proof.
  intros Hres. eexists. split; [by apply listSequenceFrames_run|].
  split; [apply merge_sort_Permutation|].
  split.
  { apply StronglySorted_merge_sort.
    - intros a b c. apply localeCompare_trans.
    - intros a b. apply localeCompare_total. }
  split.
  { intros name. unfold sort_names. rewrite merge_sort_Permutation.
    rewrite list_elem_of_fmap. split.
    - intros ([n x] & -> & Hin). apply list_elem_of_In, filter_In in Hin as [Hin Hok].
      apply andb_true_iff in Hok as [Hfile Hext]. simpl in *.
      destruct x as [data| |]; try done.
      apply has_ext_spec in Hext as (base & ext & -> & Hlow).
      exists data, base, ext. by rewrite list_elem_of_In.
    - intros (data & base & ext & Hin & -> & Hlow).
      exists (base +:+ ext, File data). split; [done|].
      apply list_elem_of_In, filter_In. split; [by apply list_elem_of_In|].
      simpl. apply has_ext_spec. eauto. }
  split.
  { intros opts sequenceRoot videoRoot dwebpPath sequenceName ->.
    unfold encodeOne.
    rewrite (bind_ok _ _ _ _ _ (listSequenceFrames_run _ _ _ _ Hres)).
    by destruct (length _ =? 0)%nat. }
  intros Hdir. split.
  - intros leftovers w' Hres'.
    rewrite (listSequenceFrames_run _ _ _ _ Hres'). by rewrite filter_files_set_dir.
  - intros dwebpPath.
    destruct (mkdir_p_child _ "_png" _ _ Hres Hdir) as (n & sub & Hmk & Hres').
    exists n. split; [done|].
    unfold convertSequenceToPng.
    assert (ensureDir (Path.join sequenceDir "_png") w = (Ok tt, set_fs n w)) as Hens.
    { unfold ensureDir. by rewrite Hmk. }
    rewrite (bind_ok _ _ _ _ _ Hens).
    erewrite bind_ok; [|by apply (listSequenceFrames_run _ _ (set_fs n w))].
    by rewrite filter_files_set_dir.
Qed.

End SequenceFrames.

Lemma listSequenceFrames_exact_witness :
  exists frames,
    listSequenceFrames Host.codeUnitCompare ["seq"]
      {| fs := Host.disk_sequence; trace := [] |}
    = (Ok frames, {| fs := Host.disk_sequence; trace := [] |})
    /\ frames = ["frame_00000.webp"; "frame_00001.WEBP"].
Proof.
  destruct (listSequenceFrames_exact Host.codeUnitCompare Host.spawn Host.ffmpeg
              codeUnit_total codeUnit_trans ["seq"]
              {| fs := Host.disk_sequence; trace := [] |} _ eq_refl)
    as (frames & Hrun & _).
  exists frames. split; [exact Hrun|].
  vm_compute in Hrun. by injection Hrun as <-.
Defined.

(** ** The source catalog: [listPlyFiles] and [uniqueDir] *)

Lemma resolve_app (p q : path) (n : node) :
  Fs.resolve (p ++ q) n
  = match Fs.resolve p n with
    | Some m => Fs.resolve q m
    | None => None
    end.
Proof.
  revert n. induction p as [|a p IH]; intros n; simpl; [done|].
  destruct n as [|es|]; try done.
  destruct (Fs.entry a es); [apply IH | done].
Qed.

Lemma entry_name_elem_of {A : Type} (name : string) (entries : list (string * A)) :
  is_Some (Fs.entry name entries) -> name ∈ map fst entries.
Proof.
  intros [x Hx]. apply entry_elem_of in Hx.
  apply list_elem_of_fmap. by exists (name, x).
Qed.

Lemma append_text_split (p : path) (text : string) :
  Path.append_text p text = removelast p ++ [Path.basename p +:+ text].
Proof. by destruct p. Qed.

(** A candidate of [uniqueDir] that exists is an entry of the directory
    that holds [baseDir]. *)
Lemma candidate_taken (baseDir : path) (text : string) (n : node) :
  is_Some (Fs.resolve (Path.append_text baseDir text) n) ->
  exists entries,
    Fs.resolve (removelast baseDir) n = Some (Dir entries)
    /\ Path.basename baseDir +:+ text ∈ map fst entries.
Proof.
  rewrite append_text_split, resolve_app.
  destruct (Fs.resolve (removelast baseDir) n) as [[|entries|]|]; simpl;
    try by intros [? ?].
  intros H. exists entries. split; [done|].
  apply entry_name_elem_of.
  destruct (Fs.entry _ entries); [eauto | by destruct H].
Qed.

(** Of the candidates numbered 1 to one more than the number of entries
    beside [baseDir], one does not exist. *)
Lemma candidate_free (baseDir : path) (n : node) :
  exists k,
    (1 <= k < 1 + S (siblings baseDir n))%nat
    /\ Fs.resolve (Path.append_text baseDir ("_" +:+ pretty k)) n = None.
Proof.
  set (count := siblings baseDir n).
  set (name := fun k : nat => Path.basename baseDir +:+ ("_" +:+ pretty k)).
  destruct (decide (Exists
              (fun k => Fs.resolve (Path.append_text baseDir ("_" +:+ pretty k)) n = None)
              (seq 1 (S count)))) as [Hex|Hall].
  - apply Exists_exists in Hex as (k & Hin & Hfree).
    apply elem_of_seq in Hin. exists k. split; [lia | done].
  - exfalso. apply not_Exists_Forall in Hall; [|intros k; apply _].
    assert (forall k, k ∈ seq 1 (S count) ->
              is_Some (Fs.resolve (Path.append_text baseDir ("_" +:+ pretty k)) n)) as Htaken.
    { intros k Hk. rewrite Forall_forall in Hall. specialize (Hall k Hk). simpl in Hall.
      destruct (Fs.resolve _ n); [eauto | done]. }
    assert (exists entries, Fs.resolve (removelast baseDir) n = Some (Dir entries)) as [entries He].
    { destruct (candidate_taken baseDir _ n (Htaken 1%nat ltac:(simpl; left))) as (es & ? & _).
      eauto. }
    assert (count = length entries) as Hcount.
    { unfold count, siblings. by rewrite He. }
    assert (name <$> seq 1 (S count) ⊆+ map fst entries) as Hsub.
    { apply NoDup_submseteq.
      - apply NoDup_fmap_2; [|apply NoDup_seq].
        intros a b Hab. unfold name in Hab.
        apply (inj (String.app _)) in Hab. apply (inj (String.app _)) in Hab.
        by apply (inj pretty) in Hab.
      - intros x Hx. apply list_elem_of_fmap in Hx as (k & -> & Hk).
        destruct (candidate_taken baseDir _ n (Htaken k Hk)) as (es & Hes & Hin).
        rewrite He in Hes. by injection Hes as <-. }
    apply submseteq_length in Hsub.
    rewrite length_fmap, length_seq, length_map in Hsub. lia.
Qed.

Section UniqueDir.

Variable baseDir : path.
Variable w : world.

(** The loop stops at the first candidate that does not exist, provided one
    lies within its fuel. *)
Lemma uniqueDir_loop_spec (fuel : nat) :
  forall (candidate : path) (suffix : nat),
    (Fs.resolve candidate (fs w) = None
     \/ exists k, (suffix <= k < suffix + fuel)%nat
          /\ Fs.resolve (Path.append_text baseDir ("_" +:+ pretty k)) (fs w) = None) ->
    exists chosen,
      uniqueDir_loop fuel baseDir candidate suffix w = (Ok chosen, w)
      /\ Fs.resolve chosen (fs w) = None
      /\ (chosen = candidate
          \/ is_Some (Fs.resolve candidate (fs w))
             /\ exists k,
                 (suffix <= k)%nat
                 /\ chosen = Path.append_text baseDir ("_" +:+ pretty k)
                 /\ forall j, (suffix <= j < k)%nat ->
                      is_Some (Fs.resolve
                                 (Path.append_text baseDir ("_" +:+ pretty j)) (fs w))).
Proof.
  induction fuel as [|fuel IH]; intros candidate suffix Hfree.
  - destruct Hfree as [Hnone|(k & Hk & _)]; [|lia].
    exists candidate. simpl. unfold bind, pathExists. rewrite Hnone. auto.
  - destruct (Fs.resolve candidate (fs w)) as [m|] eqn:Hcand.
    + destruct Hfree as [?|(k & Hk & Hkfree)]; [done|].
      destruct (IH (Path.append_text baseDir ("_" +:+ pretty suffix)) (suffix + 1)%nat)
        as (chosen & Hrun & Hnone & Hwhich).
      { destruct (decide (k = suffix)) as [->|Hne]; [by left|].
        right. exists k. split; [lia | done]. }
      exists chosen. split.
      { simpl. unfold bind at 1. unfold pathExists. rewrite Hcand. exact Hrun. }
      split; [done|]. right. split; [eauto|].
      destruct Hwhich as [->|(Htaken & k' & Hk' & -> & Hbelow)].
      * exists suffix. split; [lia|]. split; [done|]. intros j Hj. lia.
      * exists k'. split; [lia|]. split; [done|]. intros j Hj.
        destruct (decide (j = suffix)) as [->|Hne]; [done|]. apply Hbelow. lia.
    + exists candidate. simpl. unfold bind, pathExists. rewrite Hcand. auto.
Qed.

End UniqueDir.

Section Catalog.

Variable localeCompare : string -> string -> Z.

Hypothesis localeCompare_total :
  forall a b, locale_le localeCompare a b \/ locale_le localeCompare b a.
Hypothesis localeCompare_trans :
  forall a b c,
    locale_le localeCompare a b -> locale_le localeCompare b c ->
    locale_le localeCompare a c.

(** C9. [listPlyFiles] returns the paths of the regular files of the input
    directory whose names end in [.ply] (whatever the case), sorted by
    [localeCompare] of the paths. [uniqueDir] never fails: it returns
    [baseDir] when that does not exist, and otherwise [baseDir_k] for the
    least [k >= 1] for which that does not exist; the path it returns does
    not exist. *)
Theorem catalog_sorted_and_uniqueDir_fresh (w : world) :
  (forall inputDir entries,
      Fs.resolve inputDir (fs w) = Some (Dir entries) ->
      exists plyFiles,
        listPlyFiles localeCompare inputDir w = (Ok plyFiles, w)
        /\ plyFiles ≡ₚ
             map (fun entry => Path.join inputDir (dirent_name entry))
               (List.filter (fun entry => isFile entry && has_ext ".ply" (dirent_name entry))
                            entries)
        /\ StronglySorted (path_le localeCompare) plyFiles)
  /\ (forall baseDir,
        exists chosen,
          uniqueDir baseDir w = (Ok chosen, w)
          /\ Fs.resolve chosen (fs w) = None
          /\ (Fs.resolve baseDir (fs w) = None /\ chosen = baseDir
              \/ is_Some (Fs.resolve baseDir (fs w))
                 /\ exists k,
                     (1 <= k)%nat
                     /\ chosen = Path.append_text baseDir ("_" +:+ pretty k)
                     /\ forall j, (1 <= j < k)%nat ->
                          is_Some (Fs.resolve
                                     (Path.append_text baseDir ("_" +:+ pretty j))
                                     (fs w)))).
Proof.
  split.
  - intros inputDir entries Hres. eexists. split.
    { unfold listPlyFiles, readdir, bind, ret. by rewrite Hres. }
    split; [apply merge_sort_Permutation|].
    apply StronglySorted_merge_sort.
    + intros a b c. apply localeCompare_trans.
    + intros a b. apply localeCompare_total.
  - intros baseDir.
    destruct (uniqueDir_loop_spec baseDir w (S (siblings baseDir (fs w))) baseDir 1)
      as (chosen & Hrun & Hnone & Hwhich).
    { right. apply candidate_free. }
    exists chosen. split; [exact Hrun|]. split; [done|].
    destruct Hwhich as [->|[Htaken Hk]]; [by left | by right].
Qed.

End Catalog.

Lemma catalog_sorted_and_uniqueDir_fresh_witness :
  (exists plyFiles,
      listPlyFiles Host.codeUnitCompare ["in"] {| fs := Host.disk_three; trace := [] |}
      = (Ok plyFiles, {| fs := Host.disk_three; trace := [] |})
      /\ plyFiles = [["in"; "a.ply"]; ["in"; "b.ply"]; ["in"; "c.PLY"]])
  /\ (exists chosen,
        uniqueDir ["out"; "sog"; "objectA"] {| fs := Host.disk_rebuild; trace := [] |}
        = (Ok chosen, {| fs := Host.disk_rebuild; trace := [] |})
        /\ chosen = ["out"; "sog"; "objectA_1"]).
Proof.
  split.
  - destruct (catalog_sorted_and_uniqueDir_fresh Host.codeUnitCompare
                codeUnit_total codeUnit_trans {| fs := Host.disk_three; trace := [] |})
      as [Hlist _].
    destruct (Hlist ["in"] _ eq_refl) as (plyFiles & Hrun & _).
    exists plyFiles. split; [exact Hrun|].
    vm_compute in Hrun. by injection Hrun as <-.
  - destruct (catalog_sorted_and_uniqueDir_fresh Host.codeUnitCompare
                codeUnit_total codeUnit_trans {| fs := Host.disk_rebuild; trace := [] |})
      as [_ Huniq].
    destruct (Huniq ["out"; "sog"; "objectA"]) as (chosen & Hrun & _).
    exists chosen. split; [exact Hrun|].
    vm_compute in Hrun. by injection Hrun as <-.
Defined.

(** ** The encode orchestrator *)

Section Encode.

Variable localeCompare : string -> string -> Z.
Variable spawn : path -> list arg -> node -> child_outcome * node.
Variable ffmpeg_run : ffmpeg_job -> node -> result unit * node.

(** C3. [encodeSequenceToWebm] starts with one ffmpeg run on the pattern of
    the whole WebP sequence. When that run succeeds nothing else happens.
    When it fails and no [dwebp] was found, the function fails with the very
    error of that run and has done nothing else. Anything that happens after
    the first run (the fallback warning comes first) happens only after
    the first run has failed and with a [dwebp] at hand, and is the fallback:
    warning, transcode to [_png], second ffmpeg run on the PNG pattern. *)
Theorem encodeSequenceToWebm_fallback_only_after_failure
    (sequenceDir outputVideoPath : path) (fps crf gop : Z)
    (dwebpPath : option path) (w : world) :
  let primary := {| inputPattern := Path.join sequenceDir "frame_%05d.webp";
                    outputVideoPath := outputVideoPath;
                    job_fps := fps; job_crf := crf; job_gop := gop |} in
  let outcome := fst (ffmpeg_run primary (fs w)) in
  let w1 := emit (EvFfmpeg primary outcome) (set_fs (snd (ffmpeg_run primary (fs w))) w) in
  exists r w' later,
    encodeSequenceToWebm localeCompare spawn ffmpeg_run sequenceDir outputVideoPath
      fps crf gop dwebpPath w = (r, w')
    /\ trace w' = trace w ++ EvFfmpeg primary outcome :: later
    /\ (outcome = Ok tt -> r = Ok tt /\ w' = w1)
    /\ (forall error, outcome = Err error -> dwebpPath = None -> r = Err error /\ w' = w1)
    /\ (later <> [] ->
        exists error dwebp tail,
          outcome = Err error /\ dwebpPath = Some dwebp
          /\ later = EvConsole (WarnFallback sequenceDir) :: tail)
    /\ (forall error dwebp,
          outcome = Err error -> dwebpPath = Some dwebp ->
          (r, w') =
          (do console (WarnFallback sequenceDir) in
           do convertSequenceToPng localeCompare spawn sequenceDir
                (Path.join sequenceDir "_png") dwebp in
           encodeWithFfmpeg ffmpeg_run
             {| inputPattern := Path.join (Path.join sequenceDir "_png") "frame_%05d.png";
                outputVideoPath := outputVideoPath;
                job_fps := fps; job_crf := crf; job_gop := gop |}) w1).
Proof.
  intros primary outcome w1.
  unfold encodeSequenceToWebm, try_catch. fold primary.
  unfold encodeWithFfmpeg at 1. subst outcome w1.
  destruct (ffmpeg_run primary (fs w)) as [[[]|error] n] eqn:Hrun; simpl.
  - eexists _, _, []. split; [done|]. split; [done|].
    split; [done|]. split; [by intros error [=]|].
    split; [done|]. by intros error dwebp [=].
  - destruct dwebpPath as [dwebp|].
    + set (w1 := emit _ _).
      set (fallback := bind _ _).
      destruct (fallback w1) as [r w'] eqn:Hfb.
      assert (exists tail, trace w' = trace w1 ++ EvConsole (WarnFallback sequenceDir) :: tail)
        as [tail Htail].
      { subst fallback. unfold bind at 1 in Hfb. simpl in Hfb.
        match type of Hfb with
        | ?m ?w0 = _ =>
            assert (emits (fun _ => True) m) as Hem
        end.
        { apply emits_bind; [by apply emits_convertSequenceToPng|].
          intros _. by apply emits_encodeWithFfmpeg. }
        destruct (Hem _ _ _ Hfb) as (new & Hnew & _).
        exists new. rewrite Hnew. simpl. by rewrite <- app_assoc. }
      exists r, w', (EvConsole (WarnFallback sequenceDir) :: tail).
      split; [done|]. split.
      { rewrite Htail. subst w1. simpl. by rewrite <- app_assoc. }
      split; [done|]. split; [by intros error' _ [=]|].
      split; [intros _; by eexists _, _, _|].
      intros error' dwebp' _ [= <-]. done.
    + eexists _, _, []. split; [done|]. split; [done|].
      split; [done|]. split; [by intros error' [= <-] _|].
      split; [done|]. by intros error' dwebp' _ [=].
Qed.

(** C8. When the encode loop comes to a sequence directory that holds no
    regular file ending in [.webp], that round of the loop does nothing: it
    succeeds and leaves the world as it found it (no program is run, no file
    is written), so the loop as a whole runs as it would without that
    directory in its list, and so does all that follows it. *)
Theorem encodeOne_skips_empty_sequence (opts : options) (sequenceRoot videoRoot : path)
    (dwebpPath : option path) (before rest : list string) (sequenceName : string)
    (w w1 : world) (entries : list dirent) :
  for_each before (encodeOne localeCompare spawn ffmpeg_run opts sequenceRoot videoRoot
                     dwebpPath) w = (Ok tt, w1) ->
  Fs.resolve (Path.join sequenceRoot sequenceName) (fs w1) = Some (Dir entries) ->
  List.filter (fun entry => isFile entry && has_ext ".webp" (dirent_name entry)) entries = [] ->
  encodeOne localeCompare spawn ffmpeg_run opts sequenceRoot videoRoot dwebpPath
    sequenceName w1 = (Ok tt, w1)
  /\ for_each (before ++ sequenceName :: rest)
       (encodeOne localeCompare spawn ffmpeg_run opts sequenceRoot videoRoot dwebpPath) w
     = for_each (before ++ rest)
         (encodeOne localeCompare spawn ffmpeg_run opts sequenceRoot videoRoot dwebpPath) w.
Proof.
  intros Hbefore Hres Hempty.
  assert (encodeOne localeCompare spawn ffmpeg_run opts sequenceRoot videoRoot dwebpPath
            sequenceName w1 = (Ok tt, w1)) as Hskip.
  { unfold encodeOne.
    rewrite (bind_ok _ _ _ _ _ (listSequenceFrames_run _ _ _ _ Hres)).
    by rewrite Hempty. }
  split; [exact Hskip|].
  unfold for_each. rewrite !for_of_app.
  rewrite !(bind_ok _ _ _ _ _ Hbefore). simpl.
  by rewrite (bind_ok _ _ _ _ _ Hskip).
Qed.

End Encode.

Lemma encodeOne_skips_empty_sequence_witness :
  encodeOne Host.codeUnitCompare Host.spawn Host.ffmpeg (Host.opts true false)
    ["out"; "sequences"] ["out"; "videos"] None "means"
    {| fs := Host.disk_empty_sequence; trace := [] |}
  = (Ok tt, {| fs := Host.disk_empty_sequence; trace := [] |})
  /\ for_each ["means"; "shN"]
       (encodeOne Host.codeUnitCompare Host.spawn Host.ffmpeg (Host.opts true false)
          ["out"; "sequences"] ["out"; "videos"] None)
       {| fs := Host.disk_empty_sequence; trace := [] |}
     = for_each ["shN"]
         (encodeOne Host.codeUnitCompare Host.spawn Host.ffmpeg (Host.opts true false)
            ["out"; "sequences"] ["out"; "videos"] None)
         {| fs := Host.disk_empty_sequence; trace := [] |}.
Proof.
  exact (encodeOne_skips_empty_sequence Host.codeUnitCompare Host.spawn Host.ffmpeg
           (Host.opts true false) ["out"; "sequences"] ["out"; "videos"] None
           [] ["shN"] "means"
           {| fs := Host.disk_empty_sequence; trace := [] |}
           {| fs := Host.disk_empty_sequence; trace := [] |}
           [("notes.txt", File ""); ("old.webp", Dir [])]
           eq_refl eq_refl eq_refl).
Defined.

(** The fallback on the concrete host whose ffmpeg cannot read WebP: the
    first run fails, the frames are transcoded in order, the second run
    encodes the PNG sequence. *)
Lemma encodeSequenceToWebm_fallback_example :
  exists w',
    encodeSequenceToWebm Host.codeUnitCompare Host.spawn Host.ffmpeg_no_webp
      ["out"; "sequences"; "shN"] ["out"; "videos"; "shN.webm"] 30 18 30
      (Some ["bin"; "dwebp"]) {| fs := Host.disk_empty_sequence; trace := [] |}
    = (Ok tt, w')
    /\ trace w'
       = [EvFfmpeg {| inputPattern := ["out"; "sequences"; "shN"; "frame_%05d.webp"];
                      outputVideoPath := ["out"; "videos"; "shN.webm"];
                      job_fps := 30; job_crf := 18; job_gop := 30 |}
            (Err (Error "ffmpeg exited with code 1"));
          EvConsole (WarnFallback ["out"; "sequences"; "shN"]);
          EvDwebp ["bin"; "dwebp"] ["out"; "sequences"; "shN"; "frame_00000.webp"]
            ["out"; "sequences"; "shN"; "_png"; "frame_00000.png"]
            (ChildClose (Some 0%N));
          EvFfmpeg {| inputPattern := ["out"; "sequences"; "shN"; "_png"; "frame_%05d.png"];
                      outputVideoPath := ["out"; "videos"; "shN.webm"];
                      job_fps := 30; job_crf := 18; job_gop := 30 |}
            (Ok tt)].
Proof. eexists. split; vm_compute; reflexivity. Qed.

(** ** The sequence builder *)

Arguments place : simpl never.

Lemma place_all_app sequenceRoot st (xs ys : list (string * path)) :
  place_all sequenceRoot st (xs ++ ys)
  = let '(st1, events1) := place_all sequenceRoot st xs in
    let '(st2, events2) := place_all sequenceRoot st1 ys in
    (st2, events1 ++ events2).
Proof.
  revert st. induction xs as [|x xs IH]; intros st; simpl.
  - by destruct (place_all sequenceRoot st ys).
  - destruct (place sequenceRoot st x) as [st1 e1].
    rewrite IH. destruct (place_all sequenceRoot st1 xs) as [st2 e2].
    destruct (place_all sequenceRoot st2 ys) as [st3 e3]. by rewrite app_assoc.
Qed.

Section Build.

Variable sequenceRoot : path.

(** A round of the inner loop that succeeds does what [place] says. *)
Lemma placeFrame_place (item : processed_item) (st st' : counters) (webpPath : path)
    (w w' : world) :
  placeFrame sequenceRoot item st webpPath w = (Ok st', w') ->
  st' = fst (place sequenceRoot st (plyName item, webpPath))
  /\ trace w' = trace w ++ snd (place sequenceRoot st (plyName item, webpPath)).
Proof.
  unfold placeFrame, place. intros Hrun.
  apply bind_inv in Hrun as [([] & w1 & Hens & Hrun)|(e & _ & [=])].
  apply bind_inv in Hrun as [([] & w2 & Hcopy & Hrun)|(e & _ & [=])].
  assert (trace w1 = trace w) as Ht1.
  { unfold ensureDir in Hens. destruct (Fs.mkdir_p _ _); by simplify_eq. }
  assert (trace w2 = trace w ++
            [EvCopy (plyName item) webpPath
               (Path.join (Path.join sequenceRoot (sequenceNameOf webpPath))
                  (frameName
                     (default 0%nat (frameCounters st !! sequenceNameOf webpPath))))])
    as Ht2.
  { unfold copyFile in Hcopy. destruct (Fs.resolve webpPath _) as [[data| |]|]; try done.
    destruct (Fs.write _ _ _); [|done]. simplify_eq. simpl. by rewrite Ht1. }
  destruct (splatFrames st !! plyName item) as [expected|].
  - destruct (decide (expected = _)).
    + unfold ret in Hrun. by simplify_eq.
    + apply bind_inv in Hrun as [([] & w3 & Hwarn & Hrun)|(e & _ & [=])].
      unfold console, ret in *. simplify_eq. simpl.
      rewrite Ht2, <- app_assoc. done.
  - unfold ret in Hrun. by simplify_eq.
Qed.

Lemma placeFrames_place_all (item : processed_item) (webps : list path) :
  forall (st st' : counters) (w w' : world),
    for_of webps (placeFrame sequenceRoot item) st w = (Ok st', w') ->
    st' = fst (place_all sequenceRoot st (map (fun p => (plyName item, p)) webps))
    /\ trace w' = trace w
                  ++ snd (place_all sequenceRoot st (map (fun p => (plyName item, p)) webps)).
Proof.
  induction webps as [|p webps IH]; intros st st' w w' Hrun; simpl in *.
  - injection Hrun as <- <-. by rewrite app_nil_r.
  - apply bind_inv in Hrun as [(st1 & w1 & H1 & Hrun)|(e & _ & [=])].
    apply placeFrame_place in H1 as [-> Ht1].
    apply IH in Hrun as [-> Ht2].
    destruct (place sequenceRoot st (plyName item, p)) as [st1 e1]. simpl in *.
    destruct (place_all sequenceRoot st1 _) as [st2 e2]. simpl in *.
    split; [done|]. by rewrite Ht2, Ht1, app_assoc.
Qed.

(** The outer loop: the images placed are those of each object in turn. *)
Lemma buildLoop_place_all (processed : list processed_item) :
  forall (st st' : counters) (w w' : world),
    for_of processed
      (fun st item =>
         let* webps := walkForWebp (sogDir item) in
         for_of webps (placeFrame sequenceRoot item) st) st w = (Ok st', w') ->
    exists blocks : list (list path),
      length blocks = length processed
      /\ let frames :=
           concat (zip_with (fun item block => map (fun p => (plyName item, p)) block)
                            processed blocks) in
         st' = fst (place_all sequenceRoot st frames)
         /\ trace w' = trace w ++ snd (place_all sequenceRoot st frames).
Proof.
  induction processed as [|item processed IH]; intros st st' w w' Hrun; simpl in *.
  - injection Hrun as <- <-. exists []. simpl. by rewrite app_nil_r.
  - apply bind_inv in Hrun as [(st1 & w1 & H1 & Hrun)|(e & _ & [=])].
    apply bind_inv in H1 as [(webps & w0 & Hwalk & H1)|(e & _ & [=])].
    assert (trace w0 = trace w) as Ht0.
    { destruct (emits_walkForWebp (fun _ => False) _ _ _ _ Hwalk) as (new & Hnew & Hall).
      destruct new; [by rewrite app_nil_r in Hnew | by inversion Hall]. }
    apply placeFrames_place_all in H1 as [-> Ht1].
    apply IH in Hrun as (blocks & Hlen & -> & Ht2).
    exists (webps :: blocks). split; [simpl; by rewrite Hlen|].
    simpl. rewrite place_all_app.
    destruct (place_all sequenceRoot st _) as [st1 e1]. simpl in *.
    destruct (place_all sequenceRoot st1 _) as [st2 e2]. simpl in *.
    split; [done|]. by rewrite Ht2, Ht1, Ht0, app_assoc.
Qed.

End Build.

(** ** A fresh conversion, stage by stage *)

Section FreshRun.

Variable localeCompare : string -> string -> Z.
Variable spawn : path -> list arg -> node -> child_outcome * node.
Variable ffmpeg_run : ffmpeg_job -> node -> result unit * node.
Variable JSON_parse : string -> option json.
Variable JSON_stringify : json -> string.

(** The manifest loop of a fresh conversion: one entry per processed item,
    in order, with the frame that [splatFrames] holds for it. *)
Lemma describeItems_entries (frames : gmap string nat) (processed : list processed_item) :
  forall (acc splats : list splat) (w w' : world),
    for_of processed (describeItem JSON_parse frames) acc w = (Ok splats, w') ->
    exists new,
      splats = acc ++ new
      /\ Forall2 (fun item s => original s = plyName item
                                /\ frame s = frames !! plyName item) processed new.
Proof.
  induction processed as [|item processed IH]; intros acc splats w w' Hrun; simpl in Hrun.
  - unfold ret in Hrun. simplify_eq. exists []. by rewrite app_nil_r.
  - apply bind_inv in Hrun as [(acc1 & w1 & H1 & Hrun)|(e & _ & [=])].
    unfold describeItem in H1.
    apply bind_inv in H1 as [(raw & w2 & _ & H1)|(e & _ & [=])].
    apply bind_inv in H1 as [(parsed & w3 & _ & H1)|(e & _ & [=])].
    apply bind_inv in H1 as [(rewritten & w4 & _ & H1)|(e & _ & [=])].
    unfold ret in H1. simplify_eq.
    apply IH in Hrun as (new & -> & Hall).
    eexists (_ :: new). rewrite <- app_assoc. split; [done|].
    constructor; [done | exact Hall].
Qed.

(** A fresh conversion that completes: its trace is the converter runs,
    then what [place_all] says for the images of each processed object in
    turn, then the encode stage and the closing lines; its manifest has one
    entry per processed object. *)
Lemma run_fresh_stages (opts : options) (disk : node) (splats : list splat) (w' : world) :
  videosOnly opts = false ->
  run localeCompare spawn ffmpeg_run JSON_parse JSON_stringify opts disk = (Ok splats, w') ->
  exists (processed : list processed_item) (blocks : list (list path))
         (converted later : list event),
    Forall is_convert converted
    /\ length blocks = length processed
    /\ let built :=
         place_all (Path.join (output opts) "sequences")
           {| frameCounters := ∅; splatFrames := ∅ |}
           (concat (zip_with (fun item block => map (fun p => (plyName item, p)) block)
                             processed blocks)) in
       trace w' = converted ++ snd built ++ later
       /\ Forall (fun e => is_encode e \/ is_report e) later
       /\ Forall2 (fun item s =>
                     original s = plyName item
                     /\ frame s = splatFrames (fst built) !! plyName item)
                  processed splats.
Proof.
  intros Hfresh Hrun. unfold run, main in Hrun. rewrite Hfresh in Hrun. simpl in Hrun.
  apply bind_inv in Hrun as [([] & w1 & H1 & Hrun)|(e & _ & [=])].
  apply (emits_nothing _ _ _ _ (emits_checkInput _ _)) in H1.
  apply bind_inv in Hrun as [([] & w2 & H2 & Hrun)|(e & _ & [=])].
  apply (emits_nothing _ _ _ _ (emits_ensureDir _ _)) in H2.
  apply bind_inv in Hrun as [([] & w3 & H3 & Hrun)|(e & _ & [=])].
  apply (emits_nothing _ _ _ _ (emits_prepareOutput _ _ _)) in H3.
  apply bind_inv in Hrun as [([] & w4 & H4 & Hrun)|(e & _ & [=])].
  apply (emits_nothing _ _ _ _ (emits_ensureDir _ _)) in H4.
  apply bind_inv in Hrun as [([] & w5 & H5 & Hrun)|(e & _ & [=])].
  apply (emits_nothing _ _ _ _ (emits_ensureDir _ _)) in H5.
  apply bind_inv in Hrun as [([] & w6 & H6 & Hrun)|(e & _ & [=])].
  apply (emits_nothing _ _ _ _ (emits_ensureDir _ _)) in H6.
  apply bind_inv in Hrun as [(dwebpPath & w7 & H7 & Hrun)|(e & _ & [=])].
  apply (emits_nothing _ _ _ _ (emits_findExecutable _ _ _)) in H7.
  apply bind_inv in Hrun as [(processed & w8 & H8 & Hrun)|(e & _ & [=])].
  apply (emits_convertAll localeCompare spawn is_convert) in H8
    as (converted & Hconv & Hall); [|done].
  apply bind_inv in Hrun as [(st & w9 & H9 & Hrun)|(e & _ & [=])].
  apply buildLoop_place_all in H9 as (blocks & Hlen & Hst & Hbuilt).
  apply bind_inv in Hrun as [([] & w10 & H10 & Hrun)|(e & _ & [=])].
  apply (emits_encodeAll localeCompare spawn ffmpeg_run
           (fun e => is_encode e \/ is_report e)) in H10
    as (encoded & Henc & Hencall); [|by left].
  apply bind_inv in Hrun as [(splats' & w11 & H11 & Hrun)|(e & _ & [=])].
  pose proof H11 as Hentries.
  apply (emits_freshManifest JSON_parse JSON_stringify
           (fun e => is_encode e \/ is_report e)) in H11
    as (reported & Hrep & Hrepall); [|by right].
  unfold freshManifest in Hentries.
  apply bind_inv in Hentries as [(splats0 & w12 & Hdesc & Hentries)|(e & _ & [=])].
  apply describeItems_entries in Hdesc as (new & Hnew & Hforall).
  apply bind_inv in Hentries as [([] & w13 & _ & Hentries)|(e & _ & [=])].
  apply bind_inv in Hentries as [([] & w14 & _ & Hentries)|(e & _ & [=])].
  apply bind_inv in Hentries as [([] & w15 & _ & Hentries)|(e & _ & [=])].
  unfold ret in Hentries.
  apply bind_inv in Hrun as [([] & w16 & H16 & Hrun)|(e & _ & [=])].
  unfold console, ret in *. simplify_eq. simpl in *.
  exists processed, blocks, converted,
    (encoded ++ reported ++ [EvConsole (LogVideos (Path.join (output opts) "videos"))]).
  split; [done|]. split; [done|]. split.
  { rewrite Hrep, Henc, Hbuilt, Hconv, H7, H6, H5, H4, H3, H2, H1. simpl.
    by rewrite <- !app_assoc. }
  split; [|done].
  apply Forall_app. split; [done|]. apply Forall_app. split; [done|].
  constructor; [by right | constructor].
Qed.

End FreshRun.

(** ** Frame indices *)

Section Indices.

Variable sequenceRoot : path.

(** The file a frame of index [index] is copied to. *)
Local Abbreviation target index webpPath :=
  (Path.join (Path.join sequenceRoot (sequenceNameOf webpPath)) (frameName index)).

(** The cases of one round of the inner loop. *)
Lemma place_cases (st : counters) (owner : string) (webpPath : path) :
  let index := default 0%nat (frameCounters st !! sequenceNameOf webpPath) in
  let copy := EvCopy owner webpPath (target index webpPath) in
  exists st' events,
    place sequenceRoot st (owner, webpPath) = (st', events)
    /\ frameCounters st'
       = <[sequenceNameOf webpPath := (index + 1)%nat]> (frameCounters st)
    /\ (splatFrames st !! owner = None
        /\ splatFrames st' = <[owner := index]> (splatFrames st) /\ events = [copy]
        \/ splatFrames st !! owner = Some index
           /\ splatFrames st' = splatFrames st /\ events = [copy]
        \/ exists expected,
             splatFrames st !! owner = Some expected /\ expected <> index
             /\ splatFrames st' = splatFrames st
             /\ events = [copy; EvConsole (WarnMismatch owner index expected)]).
Proof.
  intros index copy. unfold place. fold index. fold copy.
  destruct (splatFrames st !! owner) as [expected|] eqn:Hsf.
  - destruct (decide (expected = index)) as [->|Hne].
    + eexists _, _. split; [done|]. split; [done|]. right. left. done.
    + eexists _, _. split; [done|]. split; [done|]. right. right. by exists expected.
  - eexists _, _. split; [done|]. split; [done|]. left. done.
Qed.

(** An index recorded for an object is never replaced. *)
Lemma place_keeps (st st' : counters) (frame : string * path) (events : list event)
    (owner : string) (expected : nat) :
  place sequenceRoot st frame = (st', events) ->
  splatFrames st !! owner = Some expected ->
  splatFrames st' !! owner = Some expected.
Proof.
  destruct frame as [o p]. intros Hplace Hsf.
  destruct (place_cases st o p) as (st1 & e1 & Heq & _ & Hcases).
  rewrite Hplace in Heq. injection Heq as <- <-.
  destruct Hcases as [(Hnone & -> & _)|[(_ & -> & _)|(x & _ & _ & -> & _)]]; try done.
  rewrite lookup_insert_ne; [done|]. intros ->. congruence.
Qed.

Lemma place_all_keeps (frames : list (string * path)) :
  forall (st st' : counters) (events : list event) (owner : string) (expected : nat),
    place_all sequenceRoot st frames = (st', events) ->
    splatFrames st !! owner = Some expected ->
    splatFrames st' !! owner = Some expected.
Proof.
  induction frames as [|frame frames IH]; intros st st' events owner expected Hall Hsf;
    simpl in Hall.
  - by simplify_eq.
  - destruct (place sequenceRoot st frame) as [st1 e1] eqn:H1.
    destruct (place_all sequenceRoot st1 frames) as [st2 e2] eqn:H2.
    injection Hall as <- <-. eapply IH; [done|]. by eapply place_keeps.
Qed.

(** Every frame is copied to the file its index names, and its index is the
    one recorded for its object unless a warning says otherwise. *)
Lemma place_all_consistent (frames : list (string * path)) :
  forall (st st' : counters) (events : list event),
    place_all sequenceRoot st frames = (st', events) ->
    Forall is_build events
    /\ forall owner src dst,
         EvCopy owner src dst ∈ events ->
         owner ∈ map fst frames
         /\ exists index expected,
              dst = target index src
              /\ splatFrames st' !! owner = Some expected
              /\ (index = expected
                  \/ EvConsole (WarnMismatch owner index expected) ∈ events).
Proof.
  induction frames as [|[o p] frames IH]; intros st st' events Hall; simpl in Hall.
  - simplify_eq. split; [constructor|]. intros owner src dst Hin.
    by apply not_elem_of_nil in Hin.
  - destruct (place sequenceRoot st (o, p)) as [st1 e1] eqn:H1.
    destruct (place_all sequenceRoot st1 frames) as [st2 e2] eqn:H2.
    injection Hall as <- <-.
    destruct (IH _ _ _ H2) as [Hbuild Hcopies].
    destruct (place_cases st o p) as (st1' & e1' & Heq & _ & Hcases).
    rewrite H1 in Heq. injection Heq as <- <-.
    set (index := default 0%nat (frameCounters st !! sequenceNameOf p)) in *.
    assert (Forall is_build e1
            /\ forall owner src dst,
                 EvCopy owner src dst ∈ e1 ->
                 owner = o /\ src = p /\ dst = target index p
                 /\ exists expected,
                      splatFrames st1 !! o = Some expected
                      /\ (index = expected
                          \/ EvConsole (WarnMismatch o index expected) ∈ e1)) as [Hb1 Hc1].
    { destruct Hcases as [(Hnone & Hsf & ->)|[(Hsome & Hsf & ->)|(x & Hsome & Hne & Hsf & ->)]].
      - split; [by repeat constructor|]. intros owner src dst Hin.
        apply list_elem_of_singleton in Hin. simplify_eq.
        repeat split; try done. exists index. rewrite Hsf, lookup_insert_eq. auto.
      - split; [by repeat constructor|]. intros owner src dst Hin.
        apply list_elem_of_singleton in Hin. simplify_eq.
        repeat split; try done. exists index. rewrite Hsf. auto.
      - split; [by repeat constructor|]. intros owner src dst Hin.
        apply elem_of_cons in Hin as [Hin|Hin]; [|by apply list_elem_of_singleton in Hin].
        simplify_eq. repeat split; try done. exists x. rewrite Hsf. split; [done|].
        right. apply list_elem_of_further, list_elem_of_here. }
    split; [by apply Forall_app|].
    intros owner src dst Hin. apply elem_of_app in Hin as [Hin|Hin].
    + destruct (Hc1 _ _ _ Hin) as (-> & -> & -> & expected & Hsf & Hwhich).
      split; [simpl; apply list_elem_of_here|].
      exists index, expected. split; [done|].
      split; [by eapply place_all_keeps|].
      destruct Hwhich as [?|Hw]; [by left | right]. apply elem_of_app. by left.
    + destruct (Hcopies _ _ _ Hin) as (Howner & idx & expected & -> & Hsf & Hwhich).
      split; [simpl; by apply list_elem_of_further|].
      exists idx, expected. split; [done|]. split; [done|].
      destruct Hwhich as [?|Hw]; [by left | right]. apply elem_of_app. by right.
Qed.

(** The index recorded for an object is that of the first frame copied for
    it. *)
Lemma place_all_first (frames : list (string * path)) :
  forall (st st' : counters) (events : list event) (owner : string),
    place_all sequenceRoot st frames = (st', events) ->
    splatFrames st !! owner = None ->
    match splatFrames st' !! owner with
    | None => Forall (fun e => forall src dst, e <> EvCopy owner src dst) events
    | Some expected =>
        exists pre src post,
          events = pre ++ EvCopy owner src (target expected src) :: post
          /\ Forall (fun e => forall src' dst', e <> EvCopy owner src' dst') pre
    end.
Proof.
  induction frames as [|[o p] frames IH]; intros st st' events owner Hall Hnone;
    simpl in Hall.
  - simplify_eq. rewrite Hnone. constructor.
  - destruct (place sequenceRoot st (o, p)) as [st1 e1] eqn:H1.
    destruct (place_all sequenceRoot st1 frames) as [st2 e2] eqn:H2.
    injection Hall as <- <-.
    destruct (place_cases st o p) as (st1' & e1' & Heq & _ & Hcases).
    rewrite H1 in Heq. injection Heq as <- <-.
    set (index := default 0%nat (frameCounters st !! sequenceNameOf p)) in *.
    destruct (decide (o = owner)) as [->|Hne].
    + destruct Hcases as [(_ & Hsf & ->)|[(Hsome & _)|(x & Hsome & _)]]; try congruence.
      assert (splatFrames st2 !! owner = Some index) as ->.
      { eapply place_all_keeps; [done|]. by rewrite Hsf, lookup_insert_eq. }
      exists [], p, e2. split; [done | constructor].
    + assert (splatFrames st1 !! owner = None
              /\ Forall (fun e => forall src dst, e <> EvCopy owner src dst) e1) as [Hn1 Hf1].
      { destruct Hcases as [(_ & -> & ->)|[(_ & -> & ->)|(x & _ & _ & -> & ->)]].
        - rewrite lookup_insert_ne; [|done]. split; [done|].
          repeat constructor. congruence.
        - split; [done|]. repeat constructor. congruence.
        - split; [done|]. repeat constructor; congruence. }
      specialize (IH _ _ _ _ H2 Hn1).
      destruct (splatFrames st2 !! owner) as [expected|].
      * destruct IH as (pre & src & post & -> & Hpre).
        exists (e1 ++ pre), src, post. rewrite <- app_assoc. split; [done|].
        by apply Forall_app.
      * by apply Forall_app.
Qed.

(** One object whose images are one per sequence, all sequences standing at
    [k]: every image gets index [k], without a warning. *)
Lemma place_block (owner : string) (k : nat) (todo : list path) :
  forall (st st' : counters) (events : list event),
    NoDup (map sequenceNameOf todo) ->
    (forall src, src ∈ todo ->
                 default 0%nat (frameCounters st !! sequenceNameOf src) = k) ->
    (splatFrames st !! owner = None \/ splatFrames st !! owner = Some k) ->
    place_all sequenceRoot st (map (fun p => (owner, p)) todo) = (st', events) ->
    events = map (fun src => EvCopy owner src (target k src)) todo
    /\ (forall a, frameCounters st' !! a
                  = if decide (a ∈ map sequenceNameOf todo) then Some (k + 1)%nat
                    else frameCounters st !! a)
    /\ splatFrames st'
       = match todo with [] => splatFrames st | _ => <[owner := k]> (splatFrames st) end.
Proof.
  induction todo as [|src todo IH]; intros st st' events Hnd Hk Hsf Hall; simpl in Hall.
  - simplify_eq. split; [done|]. split; [|done]. intros a.
    destruct (decide _) as [Hin|]; [|done]. by apply not_elem_of_nil in Hin.
  - destruct (place sequenceRoot st (owner, src)) as [st1 e1] eqn:H1.
    destruct (place_all sequenceRoot st1 _) as [st2 e2] eqn:H2.
    injection Hall as <- <-.
    destruct (place_cases st owner src) as (st1' & e1' & Heq & Hfc & Hcases).
    rewrite H1 in Heq. injection Heq as <- <-.
    rewrite (Hk src) in Hfc, Hcases by apply list_elem_of_here.
    simpl in Hnd. apply NoDup_cons in Hnd as [Hnotin Hnd].
    assert (splatFrames st1 !! owner = Some k
            /\ <[owner := k]> (splatFrames st1) = <[owner := k]> (splatFrames st)
            /\ splatFrames st1 = <[owner := k]> (splatFrames st)
            /\ e1 = [EvCopy owner src (target k src)]) as (Hsf1 & Hins & Hsf1' & ->).
    { destruct Hcases as [(_ & -> & ->)|[(Hsome & -> & ->)|(x & Hsome & Hne & _)]].
      - rewrite lookup_insert_eq, insert_insert_eq. done.
      - rewrite insert_id by done. done.
      - destruct Hsf; congruence. }
    destruct (IH st1 st2 e2 Hnd) as (-> & Hfc2 & Hsf2); [| by right | done |].
    { intros src' Hin. rewrite Hfc, lookup_insert_ne.
      - apply Hk. by apply list_elem_of_further.
      - intros Heq. apply Hnotin. rewrite Heq. apply list_elem_of_fmap. eauto. }
    split; [done|]. split.
    + intros a. rewrite Hfc2. simpl.
      destruct (decide (a ∈ map sequenceNameOf todo)) as [Hin|Hnin].
      * rewrite decide_True; [done|]. by apply list_elem_of_further.
      * rewrite Hfc. destruct (decide (a = sequenceNameOf src)) as [->|Hne].
        -- rewrite lookup_insert_eq, decide_True; [done|]. apply list_elem_of_here.
        -- rewrite lookup_insert_ne by done. rewrite decide_False; [done|].
           intros Hin. apply elem_of_cons in Hin as [?|?]; done.
    + rewrite Hsf2. destruct todo; [done | exact Hins].
Qed.

(** Objects with distinct names, each contributing one image to each
    attribute of [attrs]: the object at position [j] gets index [k + j] for
    all of its images, when every sequence stands at [k]. *)
Lemma place_all_blocks (attrs : list string) :
  attrs <> [] -> NoDup attrs ->
  forall (names : list string) (blocks : list (list path)) (k : nat)
         (st st' : counters) (events : list event),
    NoDup names ->
    length blocks = length names ->
    Forall (fun block => map sequenceNameOf block ≡ₚ attrs) blocks ->
    (forall a, a ∈ attrs -> default 0%nat (frameCounters st !! a) = k) ->
    (forall name, name ∈ names -> splatFrames st !! name = None) ->
    place_all sequenceRoot st
      (concat (zip_with (fun name block => map (fun p => (name, p)) block) names blocks))
    = (st', events) ->
    forall j name,
      names !! j = Some name ->
      splatFrames st' !! name = Some (k + j)%nat
      /\ forall src dst, EvCopy name src dst ∈ events -> dst = target (k + j)%nat src.
Proof.
  intros Hne Hnd names.
  induction names as [|n0 names IH]; intros blocks k st st' events Hnames Hlen Hperm Hk Hsf Hall
                                            j name Hj.
  - done.
  - destruct blocks as [|b0 blocks]; [done|]. simpl in Hlen, Hall.
    apply Forall_cons in Hperm as [Hp0 Hperm].
    apply NoDup_cons in Hnames as [Hn0 Hnames].
    rewrite place_all_app in Hall.
    destruct (place_all sequenceRoot st (map (fun p => (n0, p)) b0)) as [st1 e1] eqn:H1.
    destruct (place_all sequenceRoot st1 _) as [st2 e2] eqn:H2.
    injection Hall as <- <-.
    destruct (place_block n0 k b0 st st1 e1) as (-> & Hfc1 & Hsf1); [| | | done |].
    { rewrite Hp0. done. }
    { intros src Hin. apply Hk. rewrite <- Hp0. apply list_elem_of_fmap. eauto. }
    { left. apply Hsf. apply list_elem_of_here. }
    assert (b0 <> []) as Hb0.
    { intros ->. simpl in Hp0. apply Permutation_nil_l in Hp0. done. }
    assert (splatFrames st1 = <[n0 := k]> (splatFrames st)) as Hsf1'.
    { rewrite Hsf1. by destruct b0. }
    assert (forall j name,
              names !! j = Some name ->
              splatFrames st2 !! name = Some (k + 1 + j)%nat
              /\ forall src dst, EvCopy name src dst ∈ e2 -> dst = target (k + 1 + j)%nat src)
      as Hrest.
    { eapply (IH blocks (k + 1)%nat st1 st2 e2); try done.
      - lia.
      - intros a Ha. rewrite Hfc1, decide_True; [done|]. by rewrite Hp0.
      - intros name' Hin. rewrite Hsf1', lookup_insert_ne.
        + apply Hsf. by apply list_elem_of_further.
        + intros ->. done. }
    destruct (place_all_consistent _ _ _ _ H2) as [_ Hown].
    destruct j as [|j]; simpl in Hj.
    + simplify_eq. rewrite Nat.add_0_r. split.
      * eapply place_all_keeps; [done|]. by rewrite Hsf1', lookup_insert_eq.
      * intros src dst Hin. apply elem_of_app in Hin as [Hin|Hin].
        -- apply list_elem_of_fmap in Hin as (src' & Heq & _). by simplify_eq.
        -- exfalso. destruct (Hown _ _ _ Hin) as [Hin' _].
           apply Hn0. clear -Hin'. revert blocks Hin'.
           induction names as [|n names IHn]; intros [|b blocks] Hin'; simpl in *;
             try by apply not_elem_of_nil in Hin'.
           rewrite map_app in Hin'. apply elem_of_app in Hin' as [Hin'|Hin'].
           ++ apply list_elem_of_fmap in Hin' as ([x y] & -> & Hin').
              apply list_elem_of_fmap in Hin' as (? & [= -> ->] & _). apply list_elem_of_here.
           ++ apply list_elem_of_further. eauto.
    + destruct (Hrest j name Hj) as [Hsfj Hcj].
      replace (k + S j)%nat with (k + 1 + j)%nat by lia. split; [done|].
      intros src dst Hin. apply elem_of_app in Hin as [Hin|Hin]; [|eauto].
      exfalso. apply list_elem_of_fmap in Hin as (src' & Heq & _). simplify_eq.
      apply Hn0. by eapply list_elem_of_lookup_2.
Qed.

End Indices.

(** ** The manifest of a fresh conversion *)

Lemma contributions_app (owner : string) (xs ys : list event) :
  contributions owner (xs ++ ys) = contributions owner xs ++ contributions owner ys.
Proof. unfold contributions. apply omap_app. Qed.

Lemma contributions_no_copy (owner : string) (events : list event) :
  Forall (fun e => forall o src dst, e <> EvCopy o src dst) events ->
  contributions owner events = [].
Proof.
  induction 1 as [|e events He _ IH]; [done|]. simpl.
  unfold contributions in *. simpl. rewrite IH.
  destruct e; try done. by destruct (He owner0 webpPath targetPath).
Qed.

Lemma convert_no_copy (events : list event) :
  Forall is_convert events ->
  Forall (fun e => forall o src dst, e <> EvCopy o src dst) events.
Proof. intros H. eapply Forall_impl; [exact H|]. intros e He o src dst ->. done. Qed.

Lemma later_no_copy (events : list event) :
  Forall (fun e => is_encode e \/ is_report e) events ->
  Forall (fun e => forall o src dst, e <> EvCopy o src dst) events.
Proof.
  intros H. eapply Forall_impl; [exact H|]. intros e He o src dst ->. by destruct He.
Qed.

Lemma no_copy_not_elem (events : list event) (o : string) (src dst : path) :
  Forall (fun e => forall o src dst, e <> EvCopy o src dst) events ->
  EvCopy o src dst ∉ events.
Proof. intros Hall Hin. rewrite Forall_forall in Hall. by eapply Hall. Qed.

Section Contributions.

Variable sequenceRoot : path.

Lemma contributions_block (owner name : string) (block : list path) :
  forall st,
    contributions owner (snd (place_all sequenceRoot st (map (fun p => (name, p)) block)))
    = if decide (name = owner) then map sequenceNameOf block else [].
Proof.
  induction block as [|p block IH]; intros st; simpl.
  - by destruct (decide _).
  - destruct (place_cases sequenceRoot st name p) as (st1 & e1 & Heq & _ & Hcases).
    rewrite Heq. specialize (IH st1).
    destruct (place_all sequenceRoot st1 _) as [st2 e2]. simpl in *.
    rewrite contributions_app, IH.
    assert (contributions owner e1
            = if decide (name = owner) then [sequenceNameOf p] else []) as ->.
    { destruct Hcases as [(_ & _ & ->)|[(_ & _ & ->)|(x & _ & _ & _ & ->)]];
        unfold contributions; simpl; by destruct (decide _). }
    by destruct (decide _).
Qed.

Lemma contributions_blocks (names : list string) :
  forall (blocks : list (list path)) (st : counters),
    length blocks = length names ->
    NoDup names ->
    forall owner,
      contributions owner
        (snd (place_all sequenceRoot st
                (concat (zip_with (fun name block => map (fun p => (name, p)) block)
                                  names blocks))))
      = match list_find (fun name => name = owner) names with
        | Some (j, _) => map sequenceNameOf (default [] (blocks !! j))
        | None => []
        end.
Proof.
  induction names as [|n0 names IH]; intros blocks st Hlen Hnd owner.
  - done.
  - destruct blocks as [|b0 blocks]; [done|]. simpl in Hlen.
    apply NoDup_cons in Hnd as [Hn0 Hnd]. cbn [zip_with concat].
    rewrite place_all_app.
    pose proof (contributions_block owner n0 b0 st) as Hb.
    destruct (place_all sequenceRoot st (map _ b0)) as [st1 e1].
    specialize (IH blocks st1 ltac:(lia) Hnd owner).
    destruct (place_all sequenceRoot st1 _) as [st2 e2]. simpl in *.
    rewrite contributions_app, Hb, IH. clear Hb IH.
    destruct (decide (n0 = owner)) as [->|Hne].
    + simpl.
      destruct (list_find _ names) as [[j x]|] eqn:Hfind; simpl.
      * apply list_find_Some in Hfind as (Hj & -> & _).
        exfalso. apply Hn0. by eapply list_elem_of_lookup_2.
      * by rewrite app_nil_r.
    + simpl.
      destruct (list_find _ names) as [[j x]|]; done.
Qed.

End Contributions.

Section Manifest.

Variable localeCompare : string -> string -> Z.
Variable spawn : path -> list arg -> node -> child_outcome * node.
Variable ffmpeg_run : ffmpeg_job -> node -> result unit * node.
Variable JSON_parse : string -> option json.
Variable JSON_stringify : json -> string.

Local Abbreviation run' := (run localeCompare spawn ffmpeg_run JSON_parse JSON_stringify).

(** Every frame file of a fresh conversion that completes, against the
    manifest entry of its object. *)
Lemma fresh_run_copies (opts : options) (disk : node) (splats : list splat) (w' : world) :
  videosOnly opts = false ->
  run' opts disk = (Ok splats, w') ->
  forall s src dst,
    s ∈ splats ->
    EvCopy (original s) src dst ∈ trace w' ->
    exists index expected,
      dst = Path.join (Path.join (Path.join (output opts) "sequences") (sequenceNameOf src))
                      (frameName index)
      /\ frame s = Some expected
      /\ (index = expected
          \/ EvConsole (WarnMismatch (original s) index expected) ∈ trace w').
Proof.
  intros Hfresh Hrun s src dst Hs Hcopy.
  destruct (run_fresh_stages _ _ _ _ _ _ _ _ _ Hfresh Hrun)
    as (processed & blocks & converted & later & Hconv & Hlen & Htrace & Hlater & Hsplats).
  simpl in Htrace, Hsplats.
  set (built := place_all _ _ _) in *.
  destruct built as [st events] eqn:Hbuilt. simpl in *.
  rewrite Htrace in Hcopy.
  apply elem_of_app in Hcopy as [Hcopy|Hcopy];
    [by apply (no_copy_not_elem _ _ _ _ (convert_no_copy _ Hconv)) in Hcopy|].
  apply elem_of_app in Hcopy as [Hcopy|Hcopy];
    [|by apply (no_copy_not_elem _ _ _ _ (later_no_copy _ Hlater)) in Hcopy].
  destruct (place_all_consistent _ _ _ _ _ Hbuilt) as [_ Hcons].
  destruct (Hcons _ _ _ Hcopy) as (_ & index & expected & -> & Hsf & Hwhich).
  exists index, expected. split; [done|]. split.
  - apply list_elem_of_lookup in Hs as [k Hk].
    destruct (Forall2_lookup_r _ _ _ _ _ Hsplats Hk) as (item & _ & Horig & Hframe).
    by rewrite Hframe, <- Horig.
  - destruct Hwhich as [?|Hw]; [by left | right].
    rewrite Htrace. apply elem_of_app. right. apply elem_of_app. by left.
Qed.

(** C1 (amended). In a fresh conversion that completes, every frame file
    copied for an object is named [frame_NNNNN.webp] after the index its
    sequence stood at; that index is the frame of the object's manifest
    entry, unless the run has logged a frame index mismatch for the object
    with exactly these two indices. *)
Theorem manifest_frame_matches_frame_files_or_warns
    (opts : options) (disk : node) (splats : list splat) (w' : world)
    (s : splat) (src dst : path) :
  videosOnly opts = false ->
  run' opts disk = (Ok splats, w') ->
  s ∈ splats ->
  EvCopy (original s) src dst ∈ trace w' ->
  exists index expected,
    dst = Path.join (Path.join (Path.join (output opts) "sequences") (sequenceNameOf src))
                    (frameName index)
    /\ frame s = Some expected
    /\ (index = expected
        \/ EvConsole (WarnMismatch (original s) index expected) ∈ trace w').
Proof. intros Hfresh Hrun Hs Hcopy. by eapply fresh_run_copies. Qed.

(** C7. A round of the sequence builder that finds another index recorded
    for its object fails only if one of its two file operations fails; when
    they succeed it logs the mismatch and goes on with the recorded index
    untouched. In a fresh conversion that completes, the frame of a manifest
    entry is the index of the first frame file copied for its object, and
    every later frame file of that object has that index or is reported in a
    mismatch warning. *)
Theorem mismatch_warns_and_keeps_first_index :
  (forall sequenceRoot item st webpPath w expected,
      let sequenceDir := Path.join sequenceRoot (sequenceNameOf webpPath) in
      let index := default 0%nat (frameCounters st !! sequenceNameOf webpPath) in
      splatFrames st !! plyName item = Some expected ->
      expected <> index ->
      (forall w1 w2,
          ensureDir sequenceDir w = (Ok tt, w1) ->
          copyFile (plyName item) webpPath (Path.join sequenceDir (frameName index)) w1
          = (Ok tt, w2) ->
          placeFrame sequenceRoot item st webpPath w
          = (Ok {| frameCounters :=
                     <[sequenceNameOf webpPath := (index + 1)%nat]> (frameCounters st);
                   splatFrames := splatFrames st |},
             emit (EvConsole (WarnMismatch (plyName item) index expected)) w2))
      /\ (forall e w',
            placeFrame sequenceRoot item st webpPath w = (Err e, w') ->
            ensureDir sequenceDir w = (Err e, w')
            \/ exists w1,
                 ensureDir sequenceDir w = (Ok tt, w1)
                 /\ copyFile (plyName item) webpPath
                      (Path.join sequenceDir (frameName index)) w1 = (Err e, w')))
  /\ (forall opts disk splats w' s expected,
        videosOnly opts = false ->
        run' opts disk = (Ok splats, w') ->
        s ∈ splats ->
        frame s = Some expected ->
        exists pre src post,
          trace w'
          = pre ++ EvCopy (original s) src
                     (Path.join (Path.join (Path.join (output opts) "sequences")
                                           (sequenceNameOf src))
                                (frameName expected)) :: post
          /\ Forall (fun e => forall src' dst', e <> EvCopy (original s) src' dst') pre
          /\ forall src' dst',
               EvCopy (original s) src' dst' ∈ post ->
               exists index,
                 dst' = Path.join (Path.join (Path.join (output opts) "sequences")
                                             (sequenceNameOf src'))
                                  (frameName index)
                 /\ (index = expected
                     \/ EvConsole (WarnMismatch (original s) index expected) ∈ trace w')).
Proof.
  split.
  - intros sequenceRoot item st webpPath w expected sequenceDir index Hsf Hne. split.
    + intros w1 w2 Hens Hcopy. unfold placeFrame. fold sequenceDir. fold index.
      rewrite (bind_ok _ _ _ _ _ Hens), (bind_ok _ _ _ _ _ Hcopy), Hsf.
      rewrite decide_False by done. reflexivity.
    + intros e w' Hrun. unfold placeFrame in Hrun. fold sequenceDir in Hrun. fold index in Hrun.
      apply bind_inv in Hrun as [([] & w1 & Hens & Hrun)|(e' & Hens & [= <-])]; [|by left].
      right. exists w1. split; [done|].
      apply bind_inv in Hrun as [([] & w2 & Hcopy & Hrun)|(e' & Hcopy & [= <-])]; [|done].
      rewrite Hsf, decide_False in Hrun by done.
      apply bind_inv in Hrun as [([] & w3 & _ & [=])|(e' & [=] & _)].
  - intros opts disk splats w' s expected Hfresh Hrun Hs Hframe.
    destruct (run_fresh_stages _ _ _ _ _ _ _ _ _ Hfresh Hrun)
      as (processed & blocks & converted & later & Hconv & Hlen & Htrace & Hlater & Hsplats).
    simpl in Htrace, Hsplats.
    set (built := place_all _ _ _) in *.
    destruct built as [st events] eqn:Hbuilt. simpl in *.
    assert (splatFrames st !! original s = Some expected) as Hsf.
    { apply list_elem_of_lookup in Hs as [k Hk].
      destruct (Forall2_lookup_r _ _ _ _ _ Hsplats Hk) as (item & _ & Horig & Hfr).
      by rewrite Horig, <- Hfr. }
    pose proof (place_all_first _ _ _ _ _ (original s) Hbuilt (lookup_empty _)) as Hfirst.
    simpl in Hfirst. rewrite Hsf in Hfirst.
    destruct Hfirst as (pre & src & post & -> & Hpre).
    exists (converted ++ pre), src, (post ++ later). split.
    { rewrite Htrace, <- !app_assoc. done. }
    split.
    { apply Forall_app. split; [|done].
      eapply Forall_impl; [exact (convert_no_copy _ Hconv)|]. simpl. eauto. }
    intros src' dst' Hin.
    destruct (fresh_run_copies _ _ _ _ Hfresh Hrun s src' dst' Hs) as (index & x & -> & Hx & Hw).
    { rewrite Htrace. apply elem_of_app. right. rewrite <- app_assoc.
      apply elem_of_app. right. by apply list_elem_of_further. }
    exists index. split; [done|]. congruence.
Qed.

(** C2 (amended). In a fresh conversion that completes, if the objects have
    distinct names and every object has contributed exactly one frame to each
    attribute of one non-empty set, then the manifest entries carry the frames
    0, 1, 2, ... in catalog order, and every frame file of the object at
    position [k] is named after [k]. *)
Theorem frame_indices_contiguous_when_attributes_agree
    (opts : options) (disk : node) (splats : list splat) (w' : world)
    (attrs : list string) :
  videosOnly opts = false ->
  run' opts disk = (Ok splats, w') ->
  NoDup (map original splats) ->
  attrs <> [] ->
  NoDup attrs ->
  (forall s, s ∈ splats -> contributions (original s) (trace w') ≡ₚ attrs) ->
  forall k s,
    splats !! k = Some s ->
    frame s = Some k
    /\ forall src dst,
         EvCopy (original s) src dst ∈ trace w' ->
         dst = Path.join (Path.join (Path.join (output opts) "sequences")
                                    (sequenceNameOf src))
                         (frameName k).
Proof.
  intros Hfresh Hrun Hnames Hne Hattrs Hperm k s Hk.
  destruct (run_fresh_stages _ _ _ _ _ _ _ _ _ Hfresh Hrun)
    as (processed & blocks & converted & later & Hconv & Hlen & Htrace & Hlater & Hsplats).
  simpl in Htrace, Hsplats.
  assert (map original splats = map plyName processed) as Horiginals.
  { clear -Hsplats. induction Hsplats as [|item s0 ? ? [Ho _]]; simpl; [done|]. congruence. }
  rewrite Horiginals in Hnames.
  assert (zip_with (fun item block => map (fun p => (plyName item, p)) block) processed blocks
          = zip_with (fun name block => map (fun p => (name, p)) block)
              (map plyName processed) blocks) as Hzip.
  { by rewrite zip_with_fmap_l. }
  rewrite Hzip in Htrace, Hsplats.
  set (sequenceRoot := Path.join (output opts) "sequences") in *.
  set (frames := concat _) in *.
  destruct (place_all sequenceRoot {| frameCounters := ∅; splatFrames := ∅ |} frames)
    as [st events] eqn:Hbuilt.
  simpl in *.
  assert (forall owner,
            contributions owner (trace w') = contributions owner events) as Hcontrib.
  { intros owner. rewrite Htrace, !contributions_app.
    rewrite (contributions_no_copy _ _ (convert_no_copy _ Hconv)).
    rewrite (contributions_no_copy _ _ (later_no_copy _ Hlater)).
    by rewrite app_nil_r. }
  assert (Forall (fun block => map sequenceNameOf block ≡ₚ attrs) blocks) as Hblocks.
  { apply Forall_lookup. intros j block Hj.
    assert (is_Some (processed !! j)) as [item Hitem].
    { apply lookup_lt_is_Some. rewrite <- Hlen. by eapply lookup_lt_Some. }
    destruct (Forall2_lookup_l _ _ _ _ _ Hsplats Hitem) as (sj & Hsj & Horig & _).
    rewrite <- (Hperm sj) by (by eapply list_elem_of_lookup_2).
    rewrite Hcontrib.
    pose proof (contributions_blocks sequenceRoot (map plyName processed) blocks
                  {| frameCounters := ∅; splatFrames := ∅ |}
                  ltac:(by rewrite length_map) Hnames (original sj)) as Hc.
    fold frames in Hc. rewrite Hbuilt in Hc. simpl in Hc. rewrite Hc.
    assert (list_find (fun name => name = original sj) (map plyName processed)
            = Some (j, original sj)) as ->.
    { apply list_find_Some. split; [by rewrite list_lookup_fmap, Hitem, Horig|].
      split; [done|]. intros i y Hi Hlt ->.
      assert (i = j); [|lia].
      eapply NoDup_lookup; [exact Hnames | exact Hi |].
      by rewrite list_lookup_fmap, Hitem, Horig. }
    by rewrite Hj. }
  destruct (Forall2_lookup_r _ _ _ _ _ Hsplats Hk) as (item & Hitem & Horig & Hframe).
  assert (length blocks = length (map plyName processed)) as Hlen'
    by (by rewrite length_map).
  destruct (place_all_blocks sequenceRoot attrs Hne Hattrs (map plyName processed) blocks
              0%nat {| frameCounters := ∅; splatFrames := ∅ |} st events
              Hnames Hlen' Hblocks) with (j := k) (name := original s)
    as [Hsf Hcopies]; try done.
  { by rewrite list_lookup_fmap, Hitem, Horig. }
  split.
  - by rewrite Hframe, <- Horig, Hsf.
  - intros src dst Hin. rewrite Htrace in Hin.
    apply elem_of_app in Hin as [Hin|Hin];
      [by apply (no_copy_not_elem _ _ _ _ (convert_no_copy _ Hconv)) in Hin|].
    apply elem_of_app in Hin as [Hin|Hin];
      [|by apply (no_copy_not_elem _ _ _ _ (later_no_copy _ Hlater)) in Hin].
    by apply Hcopies.
Qed.

End Manifest.

(** ** Fresh conversions on the concrete host *)

(** C1 as stated fails: the second of two objects has [means] and [shN], the
    first only [means]. Its manifest frame is 1, after its [means] image; its
    [shN] image is the first of that sequence and is copied to
    [frame_00000.webp]. *)
Lemma manifest_frame_differs_from_frame_file :
  ~ (forall splats w' s src dst,
       Host.run (Host.opts false false) Host.disk_uneven = (Ok splats, w') ->
       s ∈ splats ->
       EvCopy (original s) src dst ∈ trace w' ->
       exists index,
         frame s = Some index
         /\ dst = Path.join (Path.join ["out"; "sequences"] (sequenceNameOf src))
                            (frameName index)).
Proof.
  intros H.
  destruct (Host.run (Host.opts false false) Host.disk_uneven) as [r w'] eqn:Hrun.
  vm_compute in Hrun. injection Hrun as <- <-.
  epose proof (H _ _ _ ["out"; "sog"; "b"; "shN.webp"]
                 ["out"; "sequences"; "shN"; "frame_00000.webp"] eq_refl) as H'.
  edestruct H' as (index & Hframe & Hdst).
  - eapply (list_elem_of_lookup_2 _ 1%nat). reflexivity.
  - simpl. repeat first [apply list_elem_of_here | apply list_elem_of_further].
  - simpl in Hframe. injection Hframe as <-. vm_compute in Hdst. discriminate.
Qed.

Lemma manifest_frame_matches_frame_files_or_warns_witness :
  exists splats w' s index expected,
    Host.run (Host.opts false false) Host.disk_uneven = (Ok splats, w')
    /\ splats !! 1%nat = Some s
    /\ ["out"; "sequences"; "shN"; "frame_00000.webp"]
       = Path.join (Path.join (Path.join ["out"] "sequences")
                              (sequenceNameOf ["out"; "sog"; "b"; "shN.webp"]))
                   (frameName index)
    /\ frame s = Some expected
    /\ (index = expected
        \/ EvConsole (WarnMismatch (original s) index expected) ∈ trace w').
Proof.
  destruct (Host.run (Host.opts false false) Host.disk_uneven) as [r w'] eqn:Hrun.
  pose proof Hrun as Hval. vm_compute in Hval. injection Hval as <- <-.
  eexists _, _, _.
  epose proof (manifest_frame_matches_frame_files_or_warns
                 Host.codeUnitCompare Host.spawn Host.ffmpeg Host.parse Host.stringify
                 (Host.opts false false) Host.disk_uneven _ _ _
                 ["out"; "sog"; "b"; "shN.webp"]
                 ["out"; "sequences"; "shN"; "frame_00000.webp"] eq_refl Hrun) as H'.
  edestruct H' as (index & expected & Hdst & Hframe & Hwhich).
  - eapply (list_elem_of_lookup_2 _ 1%nat). reflexivity.
  - simpl. repeat first [apply list_elem_of_here | apply list_elem_of_further].
  - exists index, expected. split; [reflexivity|]. split; [reflexivity|].
    split; [exact Hdst|]. split; [exact Hframe | exact Hwhich].
Defined.

(** C2 as stated fails: two objects that share no attribute both get
    frame 0. *)
Lemma frame_indices_repeat_without_shared_attribute :
  ~ (forall splats w',
       Host.run (Host.opts false false) Host.disk_disjoint = (Ok splats, w') ->
       forall k s, splats !! k = Some s -> frame s = Some k).
Proof.
  intros H.
  destruct (Host.run (Host.opts false false) Host.disk_disjoint) as [r w'] eqn:Hrun.
  vm_compute in Hrun. injection Hrun as <- <-.
  specialize (H _ _ eq_refl 1%nat _ eq_refl). simpl in H. discriminate.
Qed.

Lemma frame_indices_contiguous_when_attributes_agree_witness :
  exists splats w',
    Host.run (Host.opts false false) Host.disk_three = (Ok splats, w')
    /\ length splats = 3%nat
    /\ forall k s, splats !! k = Some s -> frame s = Some k.
Proof.
  destruct (Host.run (Host.opts false false) Host.disk_three) as [r w'] eqn:Hrun.
  pose proof Hrun as Hval. vm_compute in Hval. injection Hval as <- <-.
  eexists _, _. split; [reflexivity|]. split; [reflexivity|].
  intros k s Hk.
  pose proof (frame_indices_contiguous_when_attributes_agree
                Host.codeUnitCompare Host.spawn Host.ffmpeg Host.parse Host.stringify
                (Host.opts false false) Host.disk_three _ _ ["means"; "shN"]
                eq_refl Hrun) as H.
  simpl in H.
  assert (NoDup ["a.ply"; "b.ply"; "c.PLY"]) as Hnames by compute_done.
  assert (["means"; "shN"] <> []) as Hattrs by discriminate.
  assert (NoDup ["means"; "shN"]) as Hnodup by compute_done.
  refine (proj1 (H Hnames Hattrs Hnodup _ k s Hk)).
  intros s' Hs'.
  repeat (apply elem_of_cons in Hs' as [->|Hs']).
  - vm_compute. reflexivity.
  - vm_compute. reflexivity.
  - vm_compute. reflexivity.
  - apply not_elem_of_nil in Hs'. destruct Hs'.
Defined.

Lemma mismatch_warns_and_keeps_first_index_witness :
  exists splats w',
    Host.run (Host.opts false false) Host.disk_uneven = (Ok splats, w')
    /\ EvConsole (WarnMismatch "b.ply" 0 1) ∈ trace w'
    /\ exists pre src post,
         trace w'
         = pre ++ EvCopy "b.ply" src
                    (Path.join (Path.join (Path.join ["out"] "sequences")
                                          (sequenceNameOf src))
                               (frameName 1)) :: post
         /\ Forall (fun e => forall src' dst', e <> EvCopy "b.ply" src' dst') pre.
Proof.
  destruct (Host.run (Host.opts false false) Host.disk_uneven) as [r w'] eqn:Hrun.
  pose proof Hrun as Hval. vm_compute in Hval. injection Hval as <- <-.
  destruct (mismatch_warns_and_keeps_first_index
              Host.codeUnitCompare Host.spawn Host.ffmpeg Host.parse Host.stringify)
    as [_ Hfirst].
  epose proof (Hfirst (Host.opts false false) Host.disk_uneven _ _ _ 1%nat eq_refl Hrun)
    as H'.
  edestruct H' as (pre & src & post & Htrace & Hpre & _).
  - eapply (list_elem_of_lookup_2 _ 1%nat). reflexivity.
  - reflexivity.
  - eexists _, _. split; [reflexivity|]. split.
    + simpl. repeat first [apply list_elem_of_here | apply list_elem_of_further].
    + exists pre, src, post. split; [exact Htrace | exact Hpre].
Defined.

(** ** A converter run that fails *)

Section Stops.

Lemma stops_of_emits {A : Type} (m : M A) :
  emits harmless m -> stops_at_failed_conversion m.
Proof.
  intros Hm w r w' Hrun. destruct (Hm _ _ _ Hrun) as (new & Hnew & Hall).
  exists new. split; [done|]. by left.
Qed.

Lemma stops_bind {A B : Type} (m : M A) (k : A -> M B) :
  stops_at_failed_conversion m ->
  (forall a, stops_at_failed_conversion (k a)) ->
  stops_at_failed_conversion (bind m k).
Proof.
  intros Hm Hk w r w' Hrun.
  apply bind_inv in Hrun as [(a & w1 & H1 & H2)|(e & H1 & ->)].
  - destruct (Hm _ _ _ H1) as (n1 & E1 & [F1|(pre & x & y & o & e & _ & _ & _ & [=])]).
    destruct (Hk a _ _ _ H2) as (n2 & E2 & [F2|(pre & x & y & o & e & -> & Hpre & He & ->)]).
    + exists (n1 ++ n2). rewrite E2, E1, app_assoc. split; [done|]. left.
      by apply Forall_app.
    + exists (n1 ++ pre ++ [EvSplatTransform x y o]).
      rewrite E2, E1, app_assoc. split; [by rewrite <- !app_assoc|]. right.
      exists (n1 ++ pre), x, y, o, e. rewrite <- app_assoc. split; [done|].
      split; [by apply Forall_app | done].
  - destruct (Hm _ _ _ H1) as (n1 & E1 & Hcases). exists n1. split; [done|].
    destruct Hcases as [?|(pre & x & y & o & e' & ? & ? & ? & [= <-])]; [by left|].
    right. by exists pre, x, y, o, e.
Qed.

Lemma stops_for_of {A S : Type} (xs : list A) (body : S -> A -> M S) (s : S) :
  (forall s x, stops_at_failed_conversion (body s x)) ->
  stops_at_failed_conversion (for_of xs body s).
Proof.
  intros Hbody. revert s. induction xs as [|x xs IH]; intros s; simpl.
  - apply stops_of_emits, emits_ret.
  - apply stops_bind; auto.
Qed.

Variable localeCompare : string -> string -> Z.
Variable spawn : path -> list arg -> node -> child_outcome * node.
Variable ffmpeg_run : ffmpeg_job -> node -> result unit * node.
Variable JSON_parse : string -> option json.
Variable JSON_stringify : json -> string.

Lemma stops_runSplatTransform execPath args inputPath outputPath :
  stops_at_failed_conversion (runSplatTransform spawn execPath args inputPath outputPath).
Proof.
  intros w r w'. unfold runSplatTransform.
  destruct (spawn _ _ _) as [outcome n]. intros Hrun.
  exists [EvSplatTransform execPath
            (map ArgText args ++ [ArgPath inputPath; ArgPath outputPath]) outcome].
  destruct outcome as [e|[[|code]|]]; injection Hrun as <- <-; (split; [done|]).
  - right. by eexists [], _, _, _, _.
  - left. by repeat constructor.
  - right. by eexists [], _, _, _, _.
  - right. by eexists [], _, _, _, _.
Qed.

Lemma emits_placeFrame (P : event -> Prop) sequenceRoot item st webpPath :
  (forall e, is_build e -> P e) ->
  emits P (placeFrame sequenceRoot item st webpPath).
Proof.
  intros HP. unfold placeFrame.
  apply emits_bind; [apply emits_ensureDir|]. intros _.
  apply emits_bind; [by apply emits_copyFile, HP|]. intros _.
  destruct (splatFrames st !! plyName item) as [expected|]; [|apply emits_ret].
  destruct (decide _); [apply emits_ret|].
  apply emits_bind; [by apply emits_console, HP|]. intros _. apply emits_ret.
Qed.

Lemma emits_buildSequences (P : event -> Prop) sequenceRoot processed :
  (forall e, is_build e -> P e) ->
  emits P (buildSequences sequenceRoot processed).
Proof.
  intros HP. unfold buildSequences. apply emits_for_of. intros st item.
  apply emits_bind; [apply emits_walkForWebp|]. intros webps.
  apply emits_for_of. intros st' webp. by apply emits_placeFrame.
Qed.

Lemma stops_convertAll opts sogRoot args :
  stops_at_failed_conversion (convertAll localeCompare spawn opts sogRoot args).
Proof.
  unfold convertAll. destruct (input opts); [|apply stops_of_emits, emits_throw].
  apply stops_bind; [apply stops_of_emits, emits_listPlyFiles|]. intros plyFiles.
  destruct (_ =? _)%nat; [apply stops_of_emits, emits_throw|].
  apply stops_for_of. intros processed ply. unfold convertOne.
  apply stops_bind; [apply stops_of_emits, emits_uniqueDir|]. intros dir.
  apply stops_bind; [apply stops_of_emits, emits_ensureDir|]. intros _.
  apply stops_bind; [apply stops_runSplatTransform|]. intros _.
  apply stops_of_emits, emits_ret.
Qed.

Lemma stops_main opts :
  stops_at_failed_conversion
    (main localeCompare spawn ffmpeg_run JSON_parse JSON_stringify opts).
Proof.
  unfold main.
  apply stops_bind; [apply stops_of_emits, emits_checkInput|]. intros _.
  apply stops_bind; [apply stops_of_emits, emits_ensureDir|]. intros _.
  apply stops_bind; [apply stops_of_emits, emits_prepareOutput|]. intros _.
  apply stops_bind; [apply stops_of_emits, emits_ensureDir|]. intros _.
  apply stops_bind; [apply stops_of_emits, emits_ensureDir|]. intros _.
  apply stops_bind; [apply stops_of_emits, emits_ensureDir|]. intros _.
  apply stops_bind; [apply stops_of_emits, emits_findExecutable|]. intros dwebpPath.
  apply stops_bind.
  { destruct (negb _); [apply stops_convertAll | apply stops_of_emits, emits_ret]. }
  intros processed. apply stops_bind.
  { apply stops_of_emits. destruct (negb _); [|apply emits_ret].
    apply emits_buildSequences. by intros []. }
  intros st. apply stops_bind.
  { apply stops_of_emits, emits_encodeAll. by intros []. }
  intros _. apply stops_bind.
  { apply stops_of_emits. destruct (negb _).
    - apply emits_freshManifest. by intros [].
    - apply emits_rebuildManifest. }
  intros splats. apply stops_bind; [by apply stops_of_emits, emits_console|].
  intros _. apply stops_of_emits, emits_ret.
Qed.

(** C6 (amended). When a converter run of [main] ends with an exit code
    other than 0, the whole run fails, that converter run is the last thing
    it has done, and the error is [splat-transform failed with exit code]
    followed by the code: the process prints that message and exits with
    status 1. The message names the code and not the object. *)
Theorem converter_failure_aborts_with_exit_code
    (opts : options) (disk : node) (r : result (list splat)) (w' : world)
    (execPath : path) (fullArgs : list arg) (code : option N) :
  run localeCompare spawn ffmpeg_run JSON_parse JSON_stringify opts disk = (r, w') ->
  EvSplatTransform execPath fullArgs (ChildClose code) ∈ trace w' ->
  code <> Some 0%N ->
  let message := "splat-transform failed with exit code " +:+ code_text code in
  r = Err (Error message)
  /\ (exists pre,
        trace w' = pre ++ [EvSplatTransform execPath fullArgs (ChildClose code)]
        /\ Forall harmless pre)
  /\ cli localeCompare spawn ffmpeg_run JSON_parse JSON_stringify opts disk
     = (1%nat, emit (EvConsole (LogError message)) w').
Proof.
  intros Hrun Hin Hcode message.
  assert (converter_error (ChildClose code) = Some (Error message)) as Herr.
  { destruct code as [[|p]|]; done. }
  unfold run in Hrun.
  destruct (stops_main opts _ _ _ Hrun) as (new & Hnew & Hcases). simpl in Hnew.
  rewrite Hnew in Hin.
  assert (r = Err (Error message)
          /\ exists pre,
               new = pre ++ [EvSplatTransform execPath fullArgs (ChildClose code)]
               /\ Forall harmless pre) as [-> Hlast].
  { destruct Hcases as [Hall|(pre & x & y & o & e & -> & Hpre & He & ->)].
    - rewrite Forall_forall in Hall. specialize (Hall _ Hin).
      change (converter_error (ChildClose code) = None) in Hall. congruence.
    - apply elem_of_app in Hin as [Hin|Hin].
      + rewrite Forall_forall in Hpre. specialize (Hpre _ Hin).
        change (converter_error (ChildClose code) = None) in Hpre. congruence.
      + apply list_elem_of_singleton in Hin. simplify_eq. split; [|eauto]. congruence. }
  split; [done|]. split.
  - destruct Hlast as (pre & -> & Hpre). exists pre. by rewrite Hnew.
  - unfold cli, run. by rewrite Hrun.
Qed.

End Stops.

(** C6 as stated fails: converting [bunny.ply] ends with exit code 1, and
    the error the run fails with does not contain [bunny]. *)
Lemma converter_error_omits_identifier :
  ~ (forall r w',
       Host.run (Host.opts false false) Host.disk_corrupt = (r, w') ->
       exists e, r = Err e /\ Str.includes (error_message e) "bunny" = true).
Proof.
  intros H.
  destruct (Host.run (Host.opts false false) Host.disk_corrupt) as [r w'] eqn:Hrun.
  vm_compute in Hrun. injection Hrun as <- <-.
  destruct (H _ _ eq_refl) as (e & [= <-] & Hincl). vm_compute in Hincl. discriminate.
Qed.

Lemma converter_failure_aborts_with_exit_code_witness :
  exists w',
    Host.run (Host.opts false false) Host.disk_corrupt
    = (Err (Error ("splat-transform failed with exit code " +:+ code_text (Some 1%N))), w')
    /\ EvSplatTransform ["bin"; "splat-transform"]
         [ArgPath ["in"; "bunny.ply"]; ArgPath ["out"; "sog"; "bunny"; "meta.json"]]
         (ChildClose (Some 1%N)) ∈ trace w'.
Proof.
  destruct (Host.run (Host.opts false false) Host.disk_corrupt) as [r w'] eqn:Hrun.
  assert (EvSplatTransform ["bin"; "splat-transform"]
            [ArgPath ["in"; "bunny.ply"]; ArgPath ["out"; "sog"; "bunny"; "meta.json"]]
            (ChildClose (Some 1%N)) ∈ trace w') as Hin.
  { pose proof Hrun as Hval. vm_compute in Hval. injection Hval as _ <-. simpl.
    repeat first [apply list_elem_of_here | apply list_elem_of_further]. }
  destruct (converter_failure_aborts_with_exit_code
              Host.codeUnitCompare Host.spawn Host.ffmpeg Host.parse Host.stringify
              (Host.opts false false) Host.disk_corrupt r w' _ _ _ Hrun Hin
              ltac:(discriminate)) as (-> & _ & _).
  exists w'. split; [reflexivity | exact Hin].
Defined.

(** ** The manifest of a rebuild *)

Section Rebuild.

Variable localeCompare : string -> string -> Z.
Variable spawn : path -> list arg -> node -> child_outcome * node.
Variable ffmpeg_run : ffmpeg_job -> node -> result unit * node.
Variable JSON_parse : string -> option json.
Variable JSON_stringify : json -> string.

Hypothesis localeCompare_total :
  forall a b, locale_le localeCompare a b \/ locale_le localeCompare b a.
Hypothesis localeCompare_trans :
  forall a b c,
    locale_le localeCompare a b -> locale_le localeCompare b c ->
    locale_le localeCompare a c.

Variable sogRoot : path.
Variable w : world.

Local Abbreviation metaPathOf dirName :=
  (Path.join (Path.join sogRoot dirName) "meta.json").

Local Abbreviation readable dirs := (readable JSON_parse (fs w) sogRoot dirs).

Lemma rebuildFrom_entries (rest : list string) :
  forall (index : nat) (acc : list splat),
    readable rest ->
    rebuildFrom JSON_parse sogRoot rest index acc w
    = (Ok (acc ++ omap id (imap (fun i dirName =>
                                   rebuilt_entry JSON_parse (fs w) sogRoot (index + i) dirName)
                                rest)), w).
Proof.
  induction rest as [|dirName rest IH]; intros index acc Hread.
  - simpl. by rewrite app_nil_r.
  - assert (readable rest) as Hrest.
    { intros d found Hd. apply Hread. by apply list_elem_of_further. }
    cbn [rebuildFrom imap omap]. unfold compose.
    rewrite Nat.add_0_r.
    erewrite (imap_ext _ (fun i d => rebuilt_entry JSON_parse (fs w) sogRoot (index + 1 + i) d));
      [|intros i d _; f_equal; lia].
    unfold bind at 1. unfold pathExists, rebuilt_entry at 1.
    destruct (Fs.resolve (metaPathOf dirName) (fs w)) as [found|] eqn:Hres.
    + destruct (Hread dirName found) as (raw & parsed & rewritten & -> & Hparse & Hmap);
        [apply list_elem_of_here | done |].
      simpl. unfold bind at 1. unfold readFile. rewrite Hres.
      unfold bind at 1. unfold parse_json. rewrite Hparse. unfold ret at 1.
      unfold bind at 1. unfold lift. rewrite Hmap.
      rewrite IH by done. simpl. by rewrite <- app_assoc.
    + simpl. by rewrite IH.
Qed.

(** The entries [omap] keeps, for a function that yields an entry exactly
    for the names [has] accepts. *)
Lemma kept_entries (has : string -> bool) (dirs : list string) :
  forall (f : nat -> string -> option splat) (index : nat),
    (forall i dirName,
        dirs !! i = Some dirName ->
        if has dirName
        then exists s, f i dirName = Some s
                       /\ original s = dirName +:+ ".ply" /\ frame s = Some (index + i)%nat
        else f i dirName = None) ->
    map original (omap id (imap f dirs))
    = map (fun dirName => dirName +:+ ".ply") (List.filter has dirs)
    /\ forall s,
         s ∈ omap id (imap f dirs) ->
         exists i dirName,
           dirs !! i = Some dirName /\ has dirName = true
           /\ original s = dirName +:+ ".ply" /\ frame s = Some (index + i)%nat.
Proof.
  induction dirs as [|d dirs IH]; intros f index Hf.
  - split; [done|]. intros s Hs. by apply not_elem_of_nil in Hs.
  - destruct (IH (fun i => f (S i)) (index + 1)%nat) as (Horig & Hin).
    { intros i dirName Hi. specialize (Hf (S i) dirName Hi).
      replace (index + 1 + i)%nat with (index + S i)%nat by lia. exact Hf. }
    pose proof (Hf 0%nat d eq_refl) as H0. simpl.
    destruct (has d) eqn:Hhas.
    + destruct H0 as (s0 & Hs0 & Ho & Hfr). rewrite Hs0. simpl.
      split; [f_equal; [exact Ho | exact Horig]|].
      intros s Hs. apply elem_of_cons in Hs as [->|Hs].
      * exists 0%nat, d. done.
      * destruct (Hin s Hs) as (i & dirName & Hi & Hh & Hso & Hsf).
        exists (S i), dirName. split; [done|]. split; [done|]. split; [done|].
        rewrite Hsf. f_equal. lia.
    + rewrite H0. simpl. split; [exact Horig|].
      intros s Hs. destruct (Hin s Hs) as (i & dirName & Hi & Hh & Hso & Hsf).
      exists (S i), dirName. split; [done|]. split; [done|]. split; [done|].
      rewrite Hsf. f_equal. lia.
Qed.

(** C4 (amended). The manifest of a rebuild is written from the object
    directories under the sog root, sorted by [localeCompare]: it has one
    entry for each directory that holds a [meta.json], in that order, and
    none for a directory without one. The frame of an entry is the position
    of its directory among all the directories, so it is never null; a sog
    root of two directories that both hold a [meta.json] yields two entries
    with frames 0 and 1. *)
Theorem rebuildManifest_lists_objects_with_metadata (videoRoot : path)
    (entries : list dirent) :
  Fs.resolve sogRoot (fs w) = Some (Dir entries) ->
  let sogDirs := sort_names localeCompare (map dirent_name (List.filter isDirectory entries)) in
  let has_meta := fun dirName => existsSync (metaPathOf dirName) (fs w) in
  readable sogDirs ->
  exists splats,
    rebuildManifest localeCompare JSON_parse JSON_stringify sogRoot videoRoot w
    = (do writeFile (Path.join videoRoot "manifest.json")
            (JSON_stringify (manifest_json splats)) in
       ret splats) w
    /\ sogDirs ≡ₚ map dirent_name (List.filter isDirectory entries)
    /\ StronglySorted (locale_le localeCompare) sogDirs
    /\ map original splats
       = map (fun dirName => dirName +:+ ".ply") (List.filter has_meta sogDirs)
    /\ (forall s,
          s ∈ splats ->
          exists index dirName,
            sogDirs !! index = Some dirName /\ has_meta dirName = true
            /\ original s = dirName +:+ ".ply" /\ frame s = Some index)
    /\ (forall a b,
          sogDirs = [a; b] -> has_meta a = true -> has_meta b = true ->
          map frame splats = [Some 0; Some 1]%nat).
Proof.
  intros Hres sogDirs has_meta Hread.
  set (splats := omap id (imap (rebuilt_entry JSON_parse (fs w) sogRoot) sogDirs)).
  exists splats.
  assert (forall i dirName,
             sogDirs !! i = Some dirName ->
             if has_meta dirName
             then exists s, rebuilt_entry JSON_parse (fs w) sogRoot i dirName = Some s
                            /\ original s = dirName +:+ ".ply"
                            /\ frame s = Some (0 + i)%nat
             else rebuilt_entry JSON_parse (fs w) sogRoot i dirName = None) as Hf.
  { intros i dirName Hi. unfold has_meta, existsSync, rebuilt_entry.
    destruct (Fs.resolve (metaPathOf dirName) (fs w)) as [found|] eqn:Hfound; [|done].
    destruct (Hread dirName found) as (raw & parsed & rewritten & -> & Hparse & Hmap);
      [by eapply list_elem_of_lookup_2 | done |].
    rewrite Hparse, Hmap. eexists. split; [done|]. done. }
  destruct (kept_entries has_meta sogDirs _ 0%nat Hf) as (Horig & Hin).
  split.
  { unfold rebuildManifest. unfold bind at 1. unfold pathExists. rewrite Hres.
    unfold bind at 1. unfold bind at 1. unfold listSogDirs, readdir, bind at 1.
    rewrite Hres. unfold ret at 1. fold sogDirs.
    rewrite rebuildFrom_entries by done. simpl. reflexivity. }
  split; [apply merge_sort_Permutation|].
  split.
  { apply StronglySorted_merge_sort.
    - intros a b c. apply localeCompare_trans.
    - intros a b. apply localeCompare_total. }
  split; [exact Horig|]. split.
  - intros s Hs. destruct (Hin s Hs) as (i & dirName & ? & ? & ? & ?). eauto 10.
  - intros a b Hab Ha Hb. subst splats. rewrite Hab in Hf |- *.
    pose proof (Hf 0%nat a eq_refl) as H0. pose proof (Hf 1%nat b eq_refl) as H1.
    rewrite Ha in H0. rewrite Hb in H1.
    destruct H0 as (s0 & Hs0 & _ & Hf0). destruct H1 as (s1 & Hs1 & _ & Hf1).
    simpl. rewrite Hs0, Hs1. simpl. by rewrite Hf0, Hf1.
Qed.

End Rebuild.

(** C4 as stated fails: of two object directories the first has no
    [meta.json]; the manifest has no entry for it, and a single entry, with
    frame 1, for the other. *)
Lemma rebuild_omits_object_without_metadata :
  ~ (forall splats w',
       Host.run (Host.opts true false) Host.disk_rebuild = (Ok splats, w') ->
       map original splats = ["objectA.ply"; "objectB.ply"]
       /\ map frame splats = [None; Some 1%nat]).
Proof.
  intros H.
  destruct (Host.run (Host.opts true false) Host.disk_rebuild) as [r w'] eqn:Hrun.
  vm_compute in Hrun. injection Hrun as <- <-.
  destruct (H _ _ eq_refl) as [Horig _]. discriminate.
Qed.

Lemma rebuildManifest_lists_objects_with_metadata_witness :
  exists splats,
    rebuildManifest Host.codeUnitCompare Host.parse Host.stringify
      ["out"; "sog"] ["out"; "videos"] {| fs := Host.disk_rebuild_full; trace := [] |}
    = (do writeFile ["out"; "videos"; "manifest.json"]
            (Host.stringify (manifest_json splats)) in
       ret splats) {| fs := Host.disk_rebuild_full; trace := [] |}
    /\ map original splats = ["objectA.ply"; "objectB.ply"]
    /\ map frame splats = [Some 0; Some 1]%nat.
Proof.
  destruct (rebuildManifest_lists_objects_with_metadata
              Host.codeUnitCompare Host.parse Host.stringify codeUnit_total codeUnit_trans
              ["out"; "sog"] {| fs := Host.disk_rebuild_full; trace := [] |}
              ["out"; "videos"] _ eq_refl)
    as (splats & Hrun & _ & _ & Horig & _ & Htwo).
  - intros dirName found Hin Hfound. vm_compute in Hin.
    repeat (apply elem_of_cons in Hin as [->|Hin]);
      try (by apply not_elem_of_nil in Hin);
      vm_compute in Hfound; injection Hfound as <-; by eexists _, _, _.
  - exists splats. split; [exact Hrun|]. split; [exact Horig|].
    by apply (Htwo "objectA" "objectB").
Defined.

(** ** The metadata rewrite *)

Lemma entry_None_names {A : Type} (name : string) (entries : list (string * A)) :
  Fs.entry name entries = None <-> name ∉ map fst entries.
Proof.
  induction entries as [|[n x] rest IH]; simpl.
  - split; [intros _ H; by apply not_elem_of_nil in H | done].
  - destruct (String.eqb_spec n name) as [->|Hne].
    + split; [done|]. intros H. exfalso. apply H, list_elem_of_here.
    + rewrite IH. split.
      * intros H Hin. apply elem_of_cons in Hin as [?|?]; [congruence | done].
      * intros H Hin. apply H. by apply list_elem_of_further.
Qed.

(** Replacing the value of a name that occurs once is a [map]. *)
Lemma set_entry_unique {A : Type} (name : string) (x : A) (entries : list (string * A)) :
  unique_keys entries ->
  is_Some (Fs.entry name entries) ->
  Fs.set_entry name x entries
  = map (fun field => if String.eqb (fst field) name then (fst field, x) else field) entries.
Proof.
  unfold unique_keys. induction entries as [|[n y] rest IH]; simpl; intros Hnd Hsome.
  - by destruct Hsome.
  - apply NoDup_cons in Hnd as [Hn Hnd].
    destruct (String.eqb_spec n name) as [->|Hne].
    + f_equal. symmetry. rewrite <- (map_id rest) at 2. apply map_ext_in.
      intros [k v] Hin. simpl. destruct (String.eqb_spec k name) as [->|]; [|done].
      exfalso. apply Hn. apply list_elem_of_fmap. exists (name, v).
      split; [done | by apply list_elem_of_In].
    + f_equal. by apply IH.
Qed.

Lemma map_result_renamed (files : list json) :
  Forall (fun fileName => exists s, fileName = JStr s) files ->
  map_result rename_file files = Ok (map renamed files).
Proof.
  induction 1 as [|fileName files [s ->] _ IH]; simpl; [done|]. by rewrite IH.
Qed.

(** With distinct names, an entry of the list is the entry of its name. *)
Lemma unique_entry {A : Type} (name : string) (x : A) (entries : list (string * A)) :
  unique_keys entries -> (name, x) ∈ entries -> Fs.entry name entries = Some x.
Proof.
  unfold unique_keys. induction entries as [|[n y] rest IH]; simpl; intros Hnd Hin.
  - by apply not_elem_of_nil in Hin.
  - apply NoDup_cons in Hnd as [Hn Hnd].
    apply elem_of_cons in Hin as [[= <- <-]|Hin].
    + by rewrite String.eqb_refl.
    + destruct (String.eqb_spec n name) as [->|Hne]; [|auto].
      exfalso. apply Hn, list_elem_of_fmap. by exists (name, x).
Qed.

Lemma map_same {A : Type} (f : A -> A) (l : list A) :
  (forall x, x ∈ l -> f x = x) -> map f l = l.
Proof.
  intros H. rewrite <- (map_id l) at 2. apply map_ext_in.
  intros x Hx. apply H. by apply list_elem_of_In.
Qed.

Lemma rewritten_attribute_files (fields : list (string * json)) (files : list json) :
  unique_keys fields ->
  Fs.entry "files" fields = Some (JArr files) ->
  rewritten_attribute (JObj fields)
  = JObj (Fs.set_entry "files" (JArr (map renamed files)) fields).
Proof.
  intros Hkeys Hfiles. simpl. f_equal.
  rewrite set_entry_unique by eauto. apply map_ext_in.
  intros [k v] Hin. apply list_elem_of_In in Hin. simpl.
  destruct (String.eqb_spec k "files") as [->|Hne].
  - rewrite (unique_entry _ _ _ Hkeys Hin) in Hfiles. injection Hfiles as ->.
    done.
  - by destruct v.
Qed.

Lemma rewritten_attribute_other (attribute : json) :
  match attribute with
  | JObj fields =>
      unique_keys fields
      /\ forall files, Fs.entry "files" fields <> Some (JArr files)
  | _ => True
  end ->
  rewritten_attribute attribute = attribute.
Proof.
  destruct attribute as [| | | | |fields]; try done. intros [Hkeys Hnone].
  simpl. f_equal. apply map_same. intros [k v] Hin.
  destruct v as [| | | |files|]; try done.
  destruct (String.eqb_spec k "files") as [->|]; [|done].
  exfalso. apply (Hnone files). by apply unique_entry.
Qed.

(** One round of the loop, on an object whose keys are distinct. *)
Lemma rewrite_key_unique (cloned : list (string * json)) (key : string) :
  unique_keys cloned ->
  (forall attribute, Fs.entry key cloned = Some attribute -> files_are_names attribute) ->
  rewrite_key cloned key
  = Ok (map (fun field : string * json =>
               if String.eqb (fst field) key
               then (fst field, rewritten_attribute (snd field))
               else field) cloned).
Proof.
  intros Hkeys Hnames. unfold rewrite_key.
  destruct (Fs.entry key cloned) as [attribute|] eqn:Hentry.
  - specialize (Hnames _ eq_refl).
    assert (rewritten_attribute attribute = attribute ->
            cloned = map (fun field : string * json =>
                            if String.eqb (fst field) key
                            then (fst field, rewritten_attribute (snd field))
                            else field) cloned) as Hsame.
    { intros Hid. symmetry. apply map_same. intros [k v] Hin. simpl.
      destruct (String.eqb_spec k key) as [->|]; [|done].
      rewrite (unique_entry _ _ _ Hkeys Hin) in Hentry. injection Hentry as ->.
      by rewrite Hid. }
    destruct attribute as [| | | | |fields];
      try (f_equal; apply Hsame; by apply rewritten_attribute_other).
    destruct Hnames as [Hfkeys Hfiles].
    destruct (Fs.entry "files" fields) as [found|] eqn:Hf.
    + destruct found as [| | | |files|];
        try (f_equal; apply Hsame; apply rewritten_attribute_other;
             split; [done|]; by rewrite Hf).
      rewrite (map_result_renamed files) by auto.
      f_equal. rewrite set_entry_unique by eauto.
      apply map_ext_in. intros [k v] Hin. apply list_elem_of_In in Hin. simpl.
      destruct (String.eqb_spec k key) as [->|]; [|done]. f_equal.
      rewrite (unique_entry _ _ _ Hkeys Hin) in Hentry. injection Hentry as ->.
      symmetry. by apply rewritten_attribute_files.
    + f_equal. apply Hsame. apply rewritten_attribute_other.
      split; [done|]. by rewrite Hf.
  - f_equal. symmetry. apply map_same. intros [k v] Hin. simpl.
    destruct (String.eqb_spec k key) as [->|]; [|done].
    by rewrite (unique_entry _ _ _ Hkeys Hin) in Hentry.
Qed.

Lemma entry_map_other (g : json -> json) (key name : string)
    (fields : list (string * json)) :
  name <> key ->
  Fs.entry name
    (map (fun field : string * json =>
            if String.eqb (fst field) key then (fst field, g (snd field)) else field)
         fields)
  = Fs.entry name fields.
Proof.
  intros Hne. induction fields as [|[k v] rest IH]; simpl; [done|].
  destruct (String.eqb_spec k key) as [->|]; simpl.
  - destruct (String.eqb_spec key name); [congruence | exact IH].
  - destruct (String.eqb_spec k name); [done | exact IH].
Qed.

(** The whole loop, over keys that are distinct. *)
Lemma rewrite_keys_unique (keys : list string) :
  NoDup keys ->
  forall cloned : list (string * json),
    unique_keys cloned ->
    (forall key attribute,
        key ∈ keys -> Fs.entry key cloned = Some attribute -> files_are_names attribute) ->
    rewrite_keys keys cloned
    = Ok (map (fun field : string * json =>
                 if bool_decide (fst field ∈ keys)
                 then (fst field, rewritten_attribute (snd field))
                 else field) cloned).
Proof.
  induction 1 as [|key keys Hkey Hnd IH]; intros cloned Hkeys Hnames; cbn [rewrite_keys].
  - f_equal. symmetry. apply map_same. intros [k v] _. cbn [fst snd].
    rewrite bool_decide_eq_false_2; [done|]. apply not_elem_of_nil.
  - rewrite rewrite_key_unique; [|done|].
    2:{ intros attribute. apply Hnames, list_elem_of_here. }
    rewrite IH.
    + f_equal. rewrite map_map. apply map_ext. intros [k v]. cbn [fst snd].
      destruct (String.eqb_spec k key) as [->|Hne]; cbn [fst snd].
      * rewrite bool_decide_eq_false_2 by done.
        rewrite bool_decide_eq_true_2; [done|]. apply list_elem_of_here.
      * destruct (decide (k ∈ keys)) as [Hin|Hnin].
        -- rewrite !bool_decide_eq_true_2; [done | by apply list_elem_of_further | done].
        -- rewrite !bool_decide_eq_false_2; [done | | done].
           intros Hin. apply elem_of_cons in Hin as [?|?]; done.
    + unfold unique_keys in *. rewrite map_map.
      erewrite map_ext; [exact Hkeys|]. intros [k v]. simpl.
      by destruct (String.eqb k key).
    + intros k attribute Hk Hentry. rewrite entry_map_other in Hentry.
      * eapply Hnames; [by apply list_elem_of_further | done].
      * intros ->. done.
Qed.

Lemma json_ind' (P : json -> Prop) :
  P JNull -> (forall b, P (JBool b)) -> (forall n, P (JNum n)) -> (forall s, P (JStr s)) ->
  (forall items, Forall P items -> P (JArr items)) ->
  (forall fields, Forall (fun field => P (snd field)) fields -> P (JObj fields)) ->
  forall j, P j.
Proof.
  intros Hnull Hbool Hnum Hstr Harr Hobj.
  fix IH 1. intros [| b | n | s | items | fields].
  - exact Hnull.
  - apply Hbool.
  - apply Hnum.
  - apply Hstr.
  - apply Harr. induction items as [|item items IHitems]; constructor.
    + apply IH.
    + exact IHitems.
  - apply Hobj. induction fields as [|[name item] fields IHfields]; constructor.
    + apply IH.
    + exact IHfields.
Qed.

(** The entry of a name after a change of the values that keeps the names. *)
Lemma entry_map_values {A : Type} (h : string * A -> string * A) (name : string)
    (entries : list (string * A)) :
  (forall field, fst (h field) = fst field) ->
  Fs.entry name (map h entries)
  = option_map (fun v => snd (h (name, v))) (Fs.entry name entries).
Proof.
  intros Hfst. induction entries as [|[n v] rest IH]; simpl; [done|].
  specialize (Hfst (n, v)) as Hn. destruct (h (n, v)) as [n' v'] eqn:Hh.
  simpl in Hn. subst n'. destruct (String.eqb_spec n name) as [->|]; [|done].
  simpl. by rewrite Hh.
Qed.

(** *** The JSON round trip *)

Lemma roundtrip_entry (key : string) (fields : list (string * json)) :
  Fs.entry key (map (fun field : string * json => (fst field, JSON_roundtrip (snd field)))
                    fields)
  = option_map JSON_roundtrip (Fs.entry key fields).
Proof. by rewrite entry_map_values. Qed.

Lemma roundtrip_object (value : json) (fields' : list (string * json)) :
  JSON_roundtrip value = JObj fields' ->
  exists fields,
    value = JObj fields
    /\ fields' = map (fun field : string * json => (fst field, JSON_roundtrip (snd field)))
                     fields.
Proof.
  destruct value as [| |[| | |]| | |fields]; try done. intros [= <-]. by exists fields.
Qed.

Lemma roundtrip_array (value : json) (items' : list json) :
  JSON_roundtrip value = JArr items' ->
  exists items, value = JArr items /\ items' = map JSON_roundtrip items.
Proof.
  destruct value as [| |[| | |]| |items|]; try done. intros [= <-]. by exists items.
Qed.

Lemma roundtrip_string (value : json) (s : string) :
  JSON_roundtrip value = JStr s <-> value = JStr s.
Proof. destruct value as [| |[| | |]| | |]; try done. Qed.

Lemma files_are_names_roundtrip (attribute : json) :
  files_are_names attribute -> files_are_names (JSON_roundtrip attribute).
Proof.
  destruct attribute as [| |[| | |]| | |fields]; try done. intros [Hkeys Hnames].
  cbn [JSON_roundtrip files_are_names]. split.
  - unfold unique_keys in *. by rewrite map_map.
  - intros files'. rewrite roundtrip_entry.
    destruct (Fs.entry "files" fields) as [found|]; [|done]. intros [= Hfound].
    apply roundtrip_array in Hfound as (files & -> & ->).
    apply Forall_fmap. eapply Forall_impl; [by apply Hnames|].
    by intros fileName [s ->]; exists s.
Qed.

(** Metadata stays metadata when cloned. *)
Lemma metadata_roundtrip (meta : json) : metadata meta -> metadata (JSON_roundtrip meta).
Proof.
  destruct meta as [| |[| | |]| | |fields]; try done. intros [Hkeys Hnames].
  cbn [JSON_roundtrip metadata]. split.
  - unfold unique_keys in *. by rewrite map_map.
  - intros key attribute' Hkey. rewrite roundtrip_entry.
    destruct (Fs.entry key fields) as [attribute|] eqn:Hentry; [|done]. intros [= <-].
    apply files_are_names_roundtrip. by eapply Hnames.
Qed.

(** What the round trip returns has plain numbers only, and a value with
    plain numbers only is returned as it is. *)
Lemma plain_roundtrip (value : json) : plain (JSON_roundtrip value) = true.
Proof.
  induction value as [| |[| | |]| |items IH|fields IH] using json_ind'; try done.
  - cbn [JSON_roundtrip plain]. apply forallb_forall. intros item' Hin.
    apply in_map_iff in Hin as (item & <- & Hin).
    rewrite Forall_forall in IH. by apply IH, list_elem_of_In.
  - cbn [JSON_roundtrip plain]. apply forallb_forall. intros field' Hin.
    apply in_map_iff in Hin as (field & <- & Hin).
    rewrite Forall_forall in IH. by apply IH, list_elem_of_In.
Qed.

Lemma roundtrip_plain (value : json) : plain value = true -> JSON_roundtrip value = value.
Proof.
  induction value as [| |[| | |]| |items IH|fields IH] using json_ind'; try done.
  - cbn [JSON_roundtrip plain]. intros Hplain. f_equal. apply map_same.
    intros item Hin. rewrite Forall_forall in IH. apply IH; [done|].
    rewrite forallb_forall in Hplain. by apply Hplain, list_elem_of_In.
  - cbn [JSON_roundtrip plain]. intros Hplain. f_equal. apply map_same.
    intros [name item] Hin. rewrite Forall_forall in IH. cbn [fst snd]. f_equal.
    apply (IH (name, item)); [done|].
    rewrite forallb_forall in Hplain. by apply (Hplain (name, item)), list_elem_of_In.
Qed.

(** On metadata, [mapMetaToWebm] computes the rewrite of the specification
    on the clone. *)
Lemma mapMetaToWebm_rewritten (meta : json) :
  metadata meta -> mapMetaToWebm meta = Ok (rewritten_meta (JSON_roundtrip meta)).
Proof.
  intros Hmeta%metadata_roundtrip. unfold mapMetaToWebm.
  destruct (JSON_roundtrip meta) as [| | | | |fields]; try done.
  destruct Hmeta as [Hkeys Hnames]. unfold rewritten_meta.
  rewrite rewrite_keys_unique; [done | compute_done | done | done].
Qed.

Lemma string_app_inv_tail (a b c d : string) :
  a +:+ b = c +:+ d -> String.length b = String.length d -> b = d.
Proof.
  revert c. induction a as [|x a IH]; intros c Heq Hlen.
  - destruct c as [|y c]; [done|].
    apply (f_equal String.length) in Heq.
    rewrite !app_length_string in Heq. simpl in Heq. lia.
  - destruct c as [|y c].
    + apply (f_equal String.length) in Heq.
      rewrite !app_length_string in Heq. simpl in Heq. lia.
    + injection Heq as _ Heq. eauto.
Qed.

(** A renamed file no longer has the still-image extension. *)
Lemma replace_webp_not_webp (s : string) :
  has_ext ".webp" (replace_webp ".webm" s) = false.
Proof.
  unfold replace_webp.
  destruct (has_ext ".webp" s) eqn:Hext.
  - apply has_ext_spec in Hext as (base & e & -> & He).
    rewrite (replace_suffix_ci_hit _ _ _ _ He).
    destruct (has_ext ".webp" (base +:+ ".webm")) eqn:Hnew; [|done].
    apply has_ext_spec in Hnew as (base' & e' & Heq & He').
    apply string_app_inv_tail in Heq.
    + by subst e'.
    + rewrite <- (toLowerCase_length e'), He'. done.
  - by rewrite replace_suffix_ci_miss.
Qed.

(** ** The metadata rewrite on the heap *)

Lemma all_impl {A B : Type} (f g : A -> option B) (l : list A) (ys : list B) :
  Heap.all f l = Some ys ->
  (forall x y, f x = Some y -> g x = Some y) ->
  Heap.all g l = Some ys.
Proof.
  intros Hall Hfg. revert ys Hall.
  induction l as [|x l IH]; intros ys Hall; simpl in *; [done|].
  destruct (f x) as [y|] eqn:Hx; [|done].
  destruct (Heap.all f l) as [ys'|]; [|done].
  rewrite (Hfg _ _ Hx), (IH _ eq_refl). done.
Qed.

Lemma on_field_impl {A B : Type} (f g : A -> option B) :
  (forall x y, f x = Some y -> g x = Some y) ->
  forall field r, Heap.on_field f field = Some r -> Heap.on_field g field = Some r.
Proof.
  intros Hfg field r. unfold Heap.on_field.
  destruct (f (snd field)) as [y|] eqn:Hx; [|done].
  by rewrite (Hfg _ _ Hx).
Qed.

Lemma read_ref (d : bool) (ok : nat -> bool) (fuel : nat) (h : Heap.heap) (l : nat) :
  Heap.read d ok (S fuel) h (Heap.Ref l)
  = if ok l then
      match h !! l with
      | Some (Heap.Arr items) =>
          match Heap.all (Heap.read d (if d then fun x => ok x && (x <? l)%nat else ok)
                            fuel h) items with
          | Some trees => Some (JArr trees)
          | None => None
          end
      | Some (Heap.Obj fields) =>
          match Heap.all (Heap.on_field
                            (Heap.read d (if d then fun x => ok x && (x <? l)%nat else ok)
                               fuel h)) fields with
          | Some trees => Some (JObj trees)
          | None => None
          end
      | None => None
      end
    else None.
Proof. done. Qed.

(** Reading succeeds all the more with more fuel, more cells allowed, and in
    a heap that has the allowed cells as they were. *)
Lemma read_mono (d : bool) (fuel : nat) :
  forall (ok ok' : nat -> bool) (fuel' : nat) (h h' : Heap.heap) (v : Heap.value) (j : json),
    Heap.read d ok fuel h v = Some j ->
    (forall x, ok x = true -> ok' x = true) ->
    (fuel <= fuel')%nat ->
    (forall x c, ok x = true -> h !! x = Some c -> h' !! x = Some c) ->
    Heap.read d ok' fuel' h' v = Some j.
Proof.
  induction fuel as [|fuel IH]; intros ok ok' fuel' h h' v j Hread Hok Hfuel Hframe;
    destruct v as [| | | |l]; try (by destruct fuel'); simpl in Hread; try discriminate.
  destruct fuel' as [|fuel']; [lia|]. simpl.
  destruct (ok l) eqn:Hl; [|done]. rewrite (Hok _ Hl).
  destruct (h !! l) as [c|] eqn:Hc; [|done]. rewrite (Hframe _ _ Hl Hc).
  assert (forall v j,
             Heap.read d (if d then fun x => ok x && (x <? l)%nat else ok) fuel h v = Some j ->
             Heap.read d (if d then fun x => ok' x && (x <? l)%nat else ok') fuel' h' v = Some j)
    as Hchild.
  { intros v' j' Hv. eapply IH; [exact Hv | | lia |].
    - intros x. destruct d; [|auto]. intros [Hx ?]%andb_true_iff.
      apply andb_true_iff. auto.
    - intros x c'. destruct d; [|auto]. intros [Hx ?]%andb_true_iff. auto. }
  destruct c as [items|fields].
  - destruct (Heap.all _ items) as [trees|] eqn:Hall; [|done].
    by rewrite (all_impl _ _ _ _ Hall Hchild).
  - destruct (Heap.all _ fields) as [trees|] eqn:Hall; [|done].
    by rewrite (all_impl _ _ _ _ Hall (on_field_impl _ _ Hchild)).
Qed.

(** A tree read downwards is the tree that [JSON.stringify] writes. *)
Lemma read_plain (fuel : nat) :
  forall (ok : nat -> bool) (h : Heap.heap) (v : Heap.value) (j : json),
    Heap.read true ok fuel h v = Some j -> Heap.read false ok fuel h v = Some j.
Proof.
  induction fuel as [|fuel IH]; intros ok h v j Hread;
    destruct v as [| | | |l]; try exact Hread; simpl in Hread; try discriminate.
  simpl. destruct (ok l) eqn:Hl; [|done].
  destruct (h !! l) as [c|] eqn:Hc; [|done].
  assert (forall v j,
             Heap.read true (fun x => ok x && (x <? l)%nat) fuel h v = Some j ->
             Heap.read false ok fuel h v = Some j) as Hchild.
  { intros v' j' Hv. apply IH in Hv. eapply read_mono; [exact Hv | | lia | auto].
    by intros x [? ?]%andb_true_iff. }
  destruct c as [items|fields].
  - destruct (Heap.all _ items) as [trees|] eqn:Hall; [|done].
    by rewrite (all_impl _ _ _ _ Hall Hchild).
  - destruct (Heap.all _ fields) as [trees|] eqn:Hall; [|done].
    by rewrite (all_impl _ _ _ _ Hall (on_field_impl _ _ Hchild)).
Qed.

Ltac bounds :=
  unfold Heap.own_or_new, Heap.from, Heap.anywhere in *; unfold Heap.within in *;
  repeat match goal with
         | H : context [(?x <=? ?y)%nat] |- _ => destruct (Nat.leb_spec x y)
         | H : context [(?x <? ?y)%nat] |- _ => destruct (Nat.ltb_spec x y)
         | |- context [(?x <=? ?y)%nat] => destruct (Nat.leb_spec x y)
         | |- context [(?x <? ?y)%nat] => destruct (Nat.ltb_spec x y)
         end;
  simpl in *; first [lia | congruence].

Lemma depth_items_le (items : list json) (item : json) :
  item ∈ items ->
  (Heap.depth item <= foldr (fun item d => Nat.max (Heap.depth item) d) 0 items)%nat.
Proof.
  induction 1 as [item items|item other items _ IH]; cbn [foldr]; lia.
Qed.

Lemma depth_fields_le (fields : list (string * json)) (field : string * json) :
  field ∈ fields ->
  (Heap.depth (snd field)
   <= foldr (fun field d => Nat.max (Heap.depth (snd field)) d) 0 fields)%nat.
Proof.
  induction 1 as [field fields|field other fields _ IH]; cbn [foldr]; lia.
Qed.

Lemma staged_le (done : list string) (fuel top : nat) (h : Heap.heap) (lo hi : nat)
    (vs : list (string * Heap.value)) (js : list (string * json)) :
  Heap.staged done fuel top h lo hi vs js -> (lo <= hi)%nat.
Proof. induction 1; lia. Qed.

(** The items of an array, allocated one after the other. *)
Lemma build_all_spec (fuel : nat) (items : list json) :
  Forall (fun j =>
            (Heap.depth j <= fuel)%nat
            /\ forall h v h', Heap.alloc j h = (v, h') ->
                 (exists ext, h' = h ++ ext)
                 /\ Heap.read true (Heap.within (length h) (length h')) (Heap.depth j) h' v
                    = Some j) items ->
  forall h vs h1,
    Heap.build_all Heap.alloc items h = (vs, h1) ->
    (exists ext, h1 = h ++ ext)
    /\ Heap.all (Heap.read true (Heap.within (length h) (length h1)) fuel h1) vs = Some items.
Proof.
  induction 1 as [|item items [Hdepth Hitem] _ IH]; intros h vs h1 Hbuild; simpl in Hbuild.
  - injection Hbuild as <- <-. split; [exists []; by rewrite app_nil_r | done].
  - destruct (Heap.alloc item h) as [v ha] eqn:Ha.
    destruct (Heap.build_all Heap.alloc items ha) as [vs' hb] eqn:Hb.
    injection Hbuild as <- <-.
    destruct (Hitem _ _ _ Ha) as [[e1 ->] Hv].
    destruct (IH _ _ _ Hb) as [[e2 ->] Hvs].
    rewrite !length_app in *.
    split; [exists (e1 ++ e2); by rewrite app_assoc|]. simpl.
    erewrite read_mono; [| exact Hv | intros x; bounds | lia |].
    + erewrite all_impl; [done | exact Hvs |].
      intros v' j' Hv'. eapply read_mono; [exact Hv' | intros x; bounds | lia | auto].
    + intros x c _ Hx. by apply lookup_app_l_Some.
Qed.

(** The fields of an object, allocated one after the other. *)
Lemma build_fields_spec (fuel top : nat) (fields : list (string * json)) :
  Forall (fun field : string * json =>
            (Heap.depth (snd field) <= fuel)%nat
            /\ forall h v h', Heap.alloc (snd field) h = (v, h') ->
                 (exists ext, h' = h ++ ext)
                 /\ Heap.read true (Heap.within (length h) (length h'))
                      (Heap.depth (snd field)) h' v
                    = Some (snd field)) fields ->
  forall h vs h1,
    Heap.build_fields Heap.alloc fields h = (vs, h1) ->
    (exists ext, h1 = h ++ ext)
    /\ Heap.staged [] fuel top h1 (length h) (length h1) vs fields.
Proof.
  induction 1 as [|[name item] fields [Hdepth Hitem] _ IH]; intros h vs h1 Hbuild;
    simpl in Hbuild.
  - injection Hbuild as <- <-. split; [exists []; by rewrite app_nil_r | constructor].
  - destruct (Heap.alloc item h) as [v ha] eqn:Ha.
    destruct (Heap.build_fields Heap.alloc fields ha) as [vs' hb] eqn:Hb.
    injection Hbuild as <- <-.
    destruct (Hitem _ _ _ Ha) as [[e1 ->] Hv].
    destruct (IH _ _ _ Hb) as [[e2 ->] Hvs].
    split; [exists (e1 ++ e2); by rewrite app_assoc|].
    apply Heap.staged_cons with (mid := length (h ++ e1)); [rewrite length_app; lia | | exact Hvs].
    rewrite bool_decide_eq_false_2 by apply not_elem_of_nil.
    eapply read_mono; [exact Hv | auto | exact Hdepth |].
    intros x c _ Hx. by apply lookup_app_l_Some.
Qed.

(** Fields not yet handled read as the fields of the tree. *)
Lemma staged_fresh_all (fuel top : nat) (h : Heap.heap) (lo hi : nat)
    (vs : list (string * Heap.value)) (js : list (string * json)) :
  Heap.staged [] fuel top h lo hi vs js ->
  forall ok, (forall x, Heap.within lo hi x = true -> ok x = true) ->
    Heap.all (Heap.on_field (Heap.read true ok fuel h)) vs = Some js.
Proof.
  induction 1 as [|lo mid hi name v j vs js Hle Hv Hrest IH]; intros ok Hok; [done|].
  apply staged_le in Hrest as Hle'.
  rewrite bool_decide_eq_false_2 in Hv by apply not_elem_of_nil.
  simpl. unfold Heap.on_field at 1. simpl.
  erewrite read_mono; [| exact Hv | | lia | auto].
  - rewrite IH; [done|]. intros x Hx. apply Hok. bounds.
  - intros x Hx. apply Hok. bounds.
Qed.

(** [JSON.parse] builds its value in fresh cells only, and the value reads
    back as the tree. *)
Lemma alloc_spec (j : json) :
  forall h v h', Heap.alloc j h = (v, h') ->
    (exists ext, h' = h ++ ext)
    /\ Heap.read true (Heap.within (length h) (length h')) (Heap.depth j) h' v = Some j.
Proof.
  induction j as [| | | |items IH|fields IH] using json_ind'; intros h v h' Halloc;
    simpl in Halloc.
  1-4: injection Halloc as <- <-; split; [exists []; by rewrite app_nil_r | done].
  - destruct (Heap.build_all Heap.alloc items h) as [vs h1] eqn:Hb.
    injection Halloc as <- <-.
    eapply (build_all_spec (foldr (fun item d => Nat.max (Heap.depth item) d) 0%nat items))
      in Hb as [[e1 ->] Hvs].
    + split; [exists (e1 ++ [Heap.Arr vs]); by rewrite app_assoc|].
      cbn [Heap.depth Heap.read].
      rewrite !length_app. simpl length.
      replace (Heap.within _ _ (length h + length e1)) with true by (symmetry; bounds).
      assert (((h ++ e1) ++ [Heap.Arr vs]) !! (length h + length e1)%nat
              = Some (Heap.Arr vs)) as ->
        by (apply list_lookup_middle; by rewrite length_app).
      erewrite all_impl; [done | exact Hvs |].
      intros v' j' Hv'. eapply read_mono; [exact Hv' | | lia |].
      * intros x. rewrite !length_app. simpl. bounds.
      * intros x c _ Hx. by apply lookup_app_l_Some.
    + apply Forall_forall. intros item Hin. split; [by apply depth_items_le|].
      rewrite Forall_forall in IH. by apply IH.
  - destruct (Heap.build_fields Heap.alloc fields h) as [vs h1] eqn:Hb.
    injection Halloc as <- <-.
    eapply (build_fields_spec
              (foldr (fun field d => Nat.max (Heap.depth (snd field)) d) 0%nat fields) 0)
      in Hb as [[e1 ->] Hvs].
    + split; [exists (e1 ++ [Heap.Obj vs]); by rewrite app_assoc|].
      cbn [Heap.depth Heap.read].
      rewrite !length_app. simpl length.
      replace (Heap.within _ _ (length h + length e1)) with true by (symmetry; bounds).
      assert (((h ++ e1) ++ [Heap.Obj vs]) !! (length h + length e1)%nat
              = Some (Heap.Obj vs)) as ->
        by (apply list_lookup_middle; by rewrite length_app).
      pose proof (staged_fresh_all _ _ _ _ _ _ _ Hvs _ (fun _ H => H)) as Hall.
      erewrite all_impl; [done | exact Hall |]. apply on_field_impl.
      intros v' j' Hv'. eapply read_mono; [exact Hv' | | lia |].
      * intros x. rewrite !length_app. simpl. bounds.
      * intros x c _ Hx. by apply lookup_app_l_Some.
    + apply Forall_forall. intros field Hin. split; [by apply depth_fields_le|].
      rewrite Forall_forall in IH. by apply IH.
Qed.

Lemma all_entry {A B : Type} (f : A -> option B) (key : string)
    (vs : list (string * A)) (js : list (string * B)) :
  Heap.all (Heap.on_field f) vs = Some js ->
  match Fs.entry key vs with
  | Some v => exists j, f v = Some j /\ Fs.entry key js = Some j
  | None => Fs.entry key js = None
  end.
Proof.
  revert js. induction vs as [|[name v] vs IH]; intros js Hall; simpl in Hall.
  - by injection Hall as <-.
  - unfold Heap.on_field in Hall at 1. simpl in Hall.
    destruct (f v) as [j|] eqn:Hv; [|done].
    destruct (Heap.all _ vs) as [js'|]; [|done]. injection Hall as <-.
    simpl. destruct (String.eqb name key); [eauto | by apply IH].
Qed.

Lemma all_set_entry {A B : Type} (f g : A -> option B) (key : string) (x : A) (y : B)
    (vs : list (string * A)) (js : list (string * B)) :
  Heap.all (Heap.on_field f) vs = Some js ->
  g x = Some y ->
  (forall v j, f v = Some j -> g v = Some j) ->
  Heap.all (Heap.on_field g) (Fs.set_entry key x vs) = Some (Fs.set_entry key y js).
Proof.
  intros Hall Hx Hfg. revert js Hall.
  induction vs as [|[name v] vs IH]; intros js Hall; simpl in Hall.
  - injection Hall as <-. simpl. unfold Heap.on_field. simpl. by rewrite Hx.
  - unfold Heap.on_field in Hall at 1. simpl in Hall.
    destruct (f v) as [j|] eqn:Hv; [|done].
    destruct (Heap.all (Heap.on_field f) vs) as [js'|] eqn:Hvs; [|done].
    injection Hall as <-. simpl.
    destruct (String.eqb name key); simpl; unfold Heap.on_field at 1; simpl.
    + rewrite Hx. erewrite all_impl; [done | exact Hvs |].
      by apply on_field_impl.
    + rewrite (Hfg _ _ Hv), (IH _ eq_refl). done.
Qed.

(** Only a string reads as a string. *)
Lemma read_str (d : bool) (ok : nat -> bool) (fuel : nat) (h : Heap.heap)
    (v : Heap.value) (s : string) :
  Heap.read d ok fuel h v = Some (JStr s) -> v = Heap.Str s.
Proof.
  destruct fuel, v as [| | | |l]; simpl; try congruence.
  destruct (ok l); [|done]. destruct (h !! l) as [[items|fields]|]; [| |done].
  - by destruct (Heap.all _ items).
  - by destruct (Heap.all _ fields).
Qed.

(** The callback of [files.map] on an array of strings. *)
Lemma rename_values (d : bool) (ok : nat -> bool) (fuel : nat) (h : Heap.heap)
    (items : list Heap.value) (files : list json) :
  Heap.all (Heap.read d ok fuel h) items = Some files ->
  Forall (fun fileName => exists s, fileName = JStr s) files ->
  exists names,
    map_result Heap.rename_value items = Ok names
    /\ forall d' ok' fuel' h',
         Heap.all (Heap.read d' ok' fuel' h') names = Some (map renamed files).
Proof.
  revert files. induction items as [|item items IH]; intros files Hall Hstr; simpl in Hall.
  - injection Hall as <-. exists []. done.
  - destruct (Heap.read d ok fuel h item) as [j|] eqn:Hitem; [|done].
    destruct (Heap.all _ items) as [js|] eqn:Hitems; [|done]. injection Hall as <-.
    apply Forall_cons in Hstr as [[s ->] Hstr].
    apply read_str in Hitem as ->.
    destruct (IH _ eq_refl Hstr) as (names & Hnames & Hread).
    exists (Heap.Str (replace_webp ".webm" s) :: names). simpl. rewrite Hnames.
    split; [done|]. intros d' ok' fuel' h'. rewrite Hread. by destruct fuel'.
Qed.

(** A round that changes nothing. *)
Lemma rewrite_files_same (fuel top a b : nat) (h : Heap.heap) (v : Heap.value) (j : json) :
  Heap.read true (Heap.within a b) fuel h v = Some j ->
  rewritten_attribute j = j ->
  Heap.rewrite_files h v = Ok h ->
  exists h',
    Heap.rewrite_files h v = Ok h'
    /\ Heap.read false (Heap.own_or_new a b top) fuel h' v = Some (rewritten_attribute j)
    /\ (forall x c, Heap.within a b x = false -> h !! x = Some c -> h' !! x = Some c)
    /\ (length h <= length h')%nat.
Proof.
  intros Hread Hsame Hrun. exists h. rewrite Hsame.
  split; [done|]. split; [|auto].
  apply read_plain in Hread.
  eapply read_mono; [exact Hread | | lia | auto].
  intros x Hx. unfold Heap.own_or_new. by rewrite Hx.
Qed.

(** One round of the loop on an attribute that has not been handled: its
    [files] are renamed in a new array, and nothing outside the cells of the
    attribute changes. *)
Lemma rewrite_files_spec (fuel top a b : nat) (h : Heap.heap) (v : Heap.value) (j : json) :
  Heap.read true (Heap.within a b) fuel h v = Some j ->
  files_are_names j ->
  (b <= top)%nat -> (top <= length h)%nat ->
  exists h',
    Heap.rewrite_files h v = Ok h'
    /\ Heap.read false (Heap.own_or_new a b top) fuel h' v = Some (rewritten_attribute j)
    /\ (forall x c, Heap.within a b x = false -> h !! x = Some c -> h' !! x = Some c)
    /\ (length h <= length h')%nat.
Proof.
  intros Hread Hnames Hb Htop. pose proof Hread as Hread0.
  destruct v as [|flag|n|s|l].
  1-4: destruct fuel; injection Hread as <-;
    (eapply rewrite_files_same; [exact Hread0 | done |]);
    unfold Heap.rewrite_files; cbn [Heap.truthy Heap.get Heap.as_array];
    by repeat case_match.
  destruct fuel as [|fuel]; [done|]. simpl in Hread.
  destruct (Heap.within a b l) eqn:Hl; [|done].
  destruct (h !! l) as [[items|vfs]|] eqn:Hc; [| |done].
  { destruct (Heap.all _ items) as [trees|]; [|done]. injection Hread as <-.
    eapply rewrite_files_same; [exact Hread0 | done |].
    unfold Heap.rewrite_files. cbn [Heap.truthy Heap.get]. by rewrite Hc. }
  destruct (Heap.all _ vfs) as [afields|] eqn:Hall; [|done]. injection Hread as <-.
  destruct Hnames as [Hkeys Hfiles].
  pose proof (all_entry _ "files" _ _ Hall) as Hentry.
  assert (Heap.rewrite_files h (Heap.Ref l)
          = match Heap.as_array h (Fs.entry "files" vfs) with
            | None => Ok h
            | Some items =>
                match map_result Heap.rename_value items with
                | Err e => Err e
                | Ok names =>
                    Ok (<[l := Heap.Obj (Fs.set_entry "files" (Heap.Ref (length h)) vfs)]>
                          (h ++ [Heap.Arr names]))
                end
            end) as Hrun.
  { unfold Heap.rewrite_files. cbn [Heap.truthy Heap.get]. rewrite Hc.
    destruct (Heap.as_array h _) as [items|]; [|done].
    destruct (map_result _ items) as [names|]; [|done].
    by rewrite (lookup_app_l_Some _ _ _ _ Hc). }
  assert ((forall files, Fs.entry "files" afields <> Some (JArr files)) ->
          Heap.as_array h (Fs.entry "files" vfs) = None ->
          exists h',
            Heap.rewrite_files h (Heap.Ref l) = Ok h'
            /\ Heap.read false (Heap.own_or_new a b top) (S fuel) h' (Heap.Ref l)
               = Some (rewritten_attribute (JObj afields))
            /\ (forall x c, Heap.within a b x = false -> h !! x = Some c -> h' !! x = Some c)
            /\ (length h <= length h')%nat) as Hother.
  { intros Hnone Harr. eapply rewrite_files_same; [exact Hread0 | |].
    - by apply rewritten_attribute_other.
    - by rewrite Hrun, Harr. }
  destruct (Fs.entry "files" vfs) as [vf|] eqn:Hvf.
  2:{ apply Hother; [|done]. intros files. by rewrite Hentry. }
  destruct Hentry as (jf & Hjf & Hjfe).
  destruct vf as [|flag|n|s|la].
  1-4: apply Hother; [|done]; intros files; rewrite Hjfe;
    destruct fuel; injection Hjf as <-; done.
  destruct fuel as [|fuel]; [done|]. simpl in Hjf.
  destruct (Heap.within a b la && (la <? l)%nat) eqn:Hla; [|done].
  destruct (h !! la) as [[items|ofields]|] eqn:Hcla; [| |done].
  2:{ apply Hother; [|simpl; by rewrite Hcla]. intros files. rewrite Hjfe.
      destruct (Heap.all _ ofields); [|done]. by injection Hjf as <-. }
  destruct (Heap.all _ items) as [files|] eqn:Hitems; [|done]. injection Hjf as <-.
  destruct (rename_values _ _ _ _ _ _ Hitems (Hfiles _ Hjfe)) as (names & Hmap & Hnew).
  simpl in Hrun. rewrite Hcla, Hmap in Hrun.
  apply lookup_lt_Some in Hc as Hlt.
  eexists. split; [exact Hrun|].
  split; [|split].
  - rewrite (rewritten_attribute_files _ _ Hkeys Hjfe), read_ref.
    replace (Heap.own_or_new a b top l) with true by (symmetry; bounds).
    rewrite list_lookup_insert_eq by (rewrite length_app; lia).
    erewrite all_set_entry; [done | exact Hall | |].
    + rewrite read_ref.
      replace (Heap.own_or_new a b top (length h)) with true by (symmetry; bounds).
      rewrite list_lookup_insert_ne by lia.
      rewrite list_lookup_middle by done. by rewrite Hnew.
    + intros v' j' Hv'. apply read_plain in Hv'.
      eapply read_mono; [exact Hv' | | lia |].
      * intros x. bounds.
      * intros x c Hx Hcx. rewrite list_lookup_insert_ne by bounds.
        by apply lookup_app_l_Some.
  - intros x c Hx Hcx. rewrite list_lookup_insert_ne.
    + by apply lookup_app_l_Some.
    + intros <-. congruence.
  - rewrite length_insert, length_app. lia.
Qed.

(** A round for another key leaves a field as it is. *)
Lemma staged_other (key : string) (done : list string) (fuel top : nat)
    (h h' : Heap.heap) (lo hi : nat)
    (vs : list (string * Heap.value)) (js : list (string * json)) :
  Heap.staged done fuel top h lo hi vs js ->
  key ∉ map fst js ->
  (forall x c, Heap.own_or_new lo hi top x = true -> h !! x = Some c -> h' !! x = Some c) ->
  Heap.staged (key :: done) fuel top h' lo hi vs js.
Proof.
  induction 1 as [|lo mid hi name v j vs js Hle Hv Hrest IH]; intros Hkey Hframe;
    [constructor|].
  apply staged_le in Hrest as Hle'.
  apply not_elem_of_cons in Hkey as [Hne Hkey]. simpl in Hne.
  apply Heap.staged_cons with (mid := mid); [done| |].
  - destruct (decide (name ∈ done)) as [Hin|Hnin].
    + rewrite bool_decide_eq_true_2 in Hv by done.
      rewrite bool_decide_eq_true_2 by by apply list_elem_of_further.
      eapply read_mono; [exact Hv | auto | lia |].
      intros x c Hx. apply Hframe. bounds.
    + rewrite bool_decide_eq_false_2 in Hv by done.
      rewrite bool_decide_eq_false_2.
      * eapply read_mono; [exact Hv | auto | lia |].
        intros x c Hx. apply Hframe. bounds.
      * intros [?|?]%elem_of_cons; done.
  - apply IH; [done|]. intros x c Hx. apply Hframe. bounds.
Qed.

(** One round of the loop on the fields of the clone. *)
Lemma staged_rewrite_key (key : string) (done : list string) (fuel top : nat) :
  key ∉ done ->
  forall h lo hi vs js,
    Heap.staged done fuel top h lo hi vs js ->
    unique_keys js ->
    (forall attribute, Fs.entry key js = Some attribute -> files_are_names attribute) ->
    (hi <= top)%nat -> (top <= length h)%nat ->
    exists h',
      match Fs.entry key vs with
      | Some attribute => Heap.rewrite_files h attribute
      | None => Ok h
      end = Ok h'
      /\ Heap.staged (key :: done) fuel top h' lo hi vs js
      /\ (forall x c, Heap.within lo hi x = false -> h !! x = Some c -> h' !! x = Some c)
      /\ (length h <= length h')%nat.
Proof.
  intros Hkey h lo hi vs js.
  induction 1 as [|lo mid hi name v j vs js Hle Hv Hrest IH];
    intros Hkeys Hnames Hhi Htop.
  { exists h. split; [done|]. split; [constructor | auto]. }
  apply staged_le in Hrest as Hle'.
  apply NoDup_cons in Hkeys as [Hname Hkeys].
  simpl in Hnames |- *. destruct (String.eqb_spec name key) as [->|Hne].
  - rewrite bool_decide_eq_false_2 in Hv by done.
    destruct (rewrite_files_spec fuel top lo mid h v j) as (h' & Hrun & Hread & Hkeep & Hlen);
      [done | by apply Hnames | lia | done |].
    exists h'. split; [done|]. split; [|split; [|done]].
    + apply Heap.staged_cons with (mid := mid); [done| |].
      * rewrite bool_decide_eq_true_2 by apply list_elem_of_here. done.
      * eapply staged_other; [exact Hrest | done |].
        intros x c Hx. apply Hkeep. bounds.
    + intros x c Hx. apply Hkeep. bounds.
  - destruct IH as (h' & Hrun & Hstaged & Hkeep & Hlen); [done | done | lia | done |].
    exists h'. split; [done|]. split; [|split; [|done]].
    + apply Heap.staged_cons with (mid := mid); [done| |done].
      destruct (decide (name ∈ done)) as [Hin|Hnin].
      * rewrite bool_decide_eq_true_2 in Hv by done.
        rewrite bool_decide_eq_true_2 by by apply list_elem_of_further.
        eapply read_mono; [exact Hv | auto | lia |].
        intros x c Hx. apply Hkeep. bounds.
      * rewrite bool_decide_eq_false_2 in Hv by done.
        rewrite bool_decide_eq_false_2.
        -- eapply read_mono; [exact Hv | auto | lia |].
           intros x c Hx. apply Hkeep. bounds.
        -- intros [?|?]%elem_of_cons; done.
    + intros x c Hx. apply Hkeep. bounds.
Qed.

(** The whole loop on the fields of the clone. *)
Lemma rewrite_keys_staged (fuel top lo hi l0 : nat)
    (vs : list (string * Heap.value)) (js : list (string * json)) (keys : list string) :
  NoDup keys ->
  unique_keys js ->
  Heap.within lo hi l0 = false ->
  (hi <= top)%nat ->
  forall done h,
    (forall key, key ∈ keys -> key ∉ done) ->
    (forall key attribute,
        key ∈ keys -> Fs.entry key js = Some attribute -> files_are_names attribute) ->
    Heap.staged done fuel top h lo hi vs js ->
    h !! l0 = Some (Heap.Obj vs) ->
    (top <= length h)%nat ->
    exists h' done',
      Heap.rewrite_keys keys (Heap.Ref l0) h = Ok h'
      /\ Heap.staged done' fuel top h' lo hi vs js
      /\ (forall key, key ∈ done' <-> key ∈ keys \/ key ∈ done)
      /\ (forall x c, Heap.within lo hi x = false -> h !! x = Some c -> h' !! x = Some c).
Proof.
  intros Hnd Hkeys Hl0 Hhi.
  induction Hnd as [|key keys Hkey Hnd IH]; intros done h Hfresh Hnames Hstaged Hcell Htop.
  { exists h, done. split; [done|]. split; [done|]. split; [|auto].
    intros key. split; [auto|]. intros [Hin|?]; [|done]. by apply not_elem_of_nil in Hin. }
  destruct (staged_rewrite_key key done fuel top (Hfresh _ (list_elem_of_here _ _))
              _ _ _ _ _ Hstaged Hkeys)
    as (h1 & Hrun & Hstaged1 & Hkeep1 & Hlen1); [|done|done|].
  { intros attribute. apply Hnames, list_elem_of_here. }
  destruct (IH (key :: done) h1) as (h' & done' & Hrest & Hstaged' & Hdone & Hkeep');
    [| | done | by apply Hkeep1 | lia |].
  { intros k Hk [->|Hin]%elem_of_cons; [done|].
    by apply (Hfresh k); [apply list_elem_of_further|]. }
  { intros k attribute Hk. apply Hnames. by apply list_elem_of_further. }
  exists h', done'. split; [|split; [done|split]].
  - cbn [Heap.rewrite_keys]. unfold Heap.rewrite_key. cbn [Heap.get]. rewrite Hcell.
    revert Hrun. destruct (Fs.entry key vs); [by intros -> | by intros [= ->]].
  - intros k. rewrite Hdone, !elem_of_cons. tauto.
  - auto.
Qed.

(** The fields of the clone after the loop read as the rewritten fields. *)
Lemma staged_all (done : list string) (fuel top : nat) (h : Heap.heap) (lo hi : nat)
    (vs : list (string * Heap.value)) (js : list (string * json)) :
  Heap.staged done fuel top h lo hi vs js ->
  forall ok, (forall x, Heap.own_or_new lo hi top x = true -> ok x = true) ->
    Heap.all (Heap.on_field (Heap.read false ok fuel h)) vs
    = Some (map (fun field : string * json =>
                   if bool_decide (fst field ∈ done)
                   then (fst field, rewritten_attribute (snd field))
                   else field) js).
Proof.
  induction 1 as [|lo mid hi name v j vs js Hle Hv Hrest IH]; intros ok Hok; [done|].
  apply staged_le in Hrest as Hle'.
  simpl. unfold Heap.on_field at 1. cbn [fst snd].
  rewrite IH by (intros x Hx; apply Hok; bounds).
  destruct (bool_decide (name ∈ done)).
  - erewrite read_mono; [done | exact Hv | | lia | auto].
    intros x Hx. apply Hok. bounds.
  - apply read_plain in Hv. erewrite read_mono; [done | exact Hv | | lia | auto].
    intros x Hx. apply Hok. bounds.
Qed.

(** The loop on a clone that has none of the keys. *)
Lemma rewrite_keys_none (cloned : Heap.value) (h : Heap.heap) (keys : list string) :
  (forall key, Heap.get h cloned key = Ok None) ->
  Heap.rewrite_keys keys cloned h = Ok h.
Proof.
  intros Hget. induction keys as [|key keys IH]; [done|].
  cbn [Heap.rewrite_keys]. unfold Heap.rewrite_key. by rewrite Hget.
Qed.

Lemma staged_frame (done : list string) (fuel top : nat) (h h' : Heap.heap) (lo hi : nat)
    (vs : list (string * Heap.value)) (js : list (string * json)) :
  Heap.staged done fuel top h lo hi vs js ->
  (forall x c, h !! x = Some c -> h' !! x = Some c) ->
  Heap.staged done fuel top h' lo hi vs js.
Proof.
  induction 1 as [|lo mid hi name v j vs js Hle Hv Hrest IH]; intros Hframe; [constructor|].
  apply Heap.staged_cons with (mid := mid); [done | | auto].
  destruct (bool_decide (name ∈ done));
    (eapply read_mono; [exact Hv | auto | lia | auto]).
Qed.

(** The clone of an object and the loop on it. *)
Lemma rewrite_keys_clone (fields : list (string * json)) (h : Heap.heap) :
  metadata (JObj fields) ->
  exists out h',
    (let '(cloned, h1) := Heap.alloc (JObj fields) h in
     match Heap.rewrite_keys targets cloned h1 with
     | Ok h2 => Ok (cloned, h2)
     | Err e => Err e
     end) = Ok (out, h')
    /\ Heap.read false (Heap.from (length h)) (Heap.depth (JObj fields)) h' out
       = Some (rewritten_meta (JObj fields))
    /\ forall l c, h !! l = Some c -> h' !! l = Some c.
Proof.
  intros [Hkeys Hnames]. cbn [Heap.alloc].
  destruct (Heap.build_fields Heap.alloc fields h) as [vs hb] eqn:Hb.
  eapply (build_fields_spec
            (foldr (fun field d => Nat.max (Heap.depth (snd field)) d) 0%nat fields)
            (S (length hb))) in Hb as [[e1 ->] Hstaged].
  2:{ apply Forall_forall. intros field Hin. split; [by apply depth_fields_le|].
      apply alloc_spec. }
  eapply staged_frame with (h' := (h ++ e1) ++ [Heap.Obj vs]) in Hstaged.
  2:{ intros x c Hx. by apply lookup_app_l_Some. }
  pose proof (rewrite_keys_staged
                (foldr (fun field d => Nat.max (Heap.depth (snd field)) d) 0%nat fields)
                (S (length (h ++ e1))) (length h) (length (h ++ e1))
                (length (h ++ e1)) vs fields targets) as Hloop.
  destruct Hloop with (done := @nil string) (h := (h ++ e1) ++ [Heap.Obj vs])
    as (h' & done' & Hrun & Hstaged' & Hdone & Hkeep);
    [compute_done | exact Hkeys | bounds | lia | | exact Hnames | exact Hstaged | | |].
  - intros key _. apply not_elem_of_nil.
  - by apply list_lookup_middle.
  - rewrite (length_app (h ++ e1)). simpl. lia.
  - exists (Heap.Ref (length (h ++ e1))), h'. rewrite Hrun.
    split; [done|]. split.
    + cbn [Heap.depth]. rewrite read_ref.
      replace (Heap.from (length h) (length (h ++ e1))) with true
        by (symmetry; rewrite length_app; bounds).
      erewrite Hkeep; [| bounds | by apply list_lookup_middle].
      cbv beta iota. erewrite staged_all; [| exact Hstaged' |].
      * cbn [rewritten_meta]. do 2 f_equal. apply map_ext. intros [name attribute].
        cbn [fst snd]. erewrite bool_decide_ext; [done|].
        rewrite Hdone. split; [intros [?|Hin]; [done | by apply not_elem_of_nil in Hin] | auto].
      * intros x. rewrite !length_app. bounds.
    + intros l c Hl. apply lookup_lt_Some in Hl as Hlt. apply Hkeep.
      * rewrite length_app. bounds.
      * by do 2 apply lookup_app_l_Some.
Qed.

(** The clone of a tree and the loop on it. *)
Lemma rewrite_clone (tree : json) (h : Heap.heap) :
  metadata tree ->
  exists out h',
    (let '(cloned, h1) := Heap.alloc tree h in
     match Heap.rewrite_keys targets cloned h1 with
     | Ok h2 => Ok (cloned, h2)
     | Err e => Err e
     end) = Ok (out, h')
    /\ Heap.read false (Heap.from (length h)) (Heap.depth tree) h' out
       = Some (rewritten_meta tree)
    /\ forall l c, h !! l = Some c -> h' !! l = Some c.
Proof.
  intros Hmeta.
  destruct tree as [|flag|n|s|items|fields]; [done| | | | |by apply rewrite_keys_clone].
  1-3: eexists _, h; cbn [Heap.alloc]; rewrite rewrite_keys_none by done; done.
  destruct (Heap.alloc (JArr items) h) as [cloned h1] eqn:Halloc.
  destruct (alloc_spec _ _ _ _ Halloc) as [[ext ->] Hclone].
  exists cloned, (h ++ ext). cbn [Heap.alloc] in Halloc.
  destruct (Heap.build_all Heap.alloc items h) as [vs hb]. injection Halloc as <- Hext.
  rewrite rewrite_keys_none.
  - split; [done|]. split; [|intros l c; apply lookup_app_l_Some].
    apply read_plain in Hclone. eapply read_mono; [exact Hclone | | lia | auto].
    intros x. bounds.
  - intros key. cbn [Heap.get]. rewrite <- Hext.
    by rewrite list_lookup_middle.
Qed.

(** C5 (mapMetaToWebm is a pure deep rewrite), as the code has it. For a
    [meta] that [JSON.stringify] can walk through, that is neither [null]
    nor a number that is not finite, with distinct keys and strings in the
    [files] arrays of its recognised keys, [mapMetaToWebm] returns a value
    made of cells that did not exist before. Its tree is the tree of [meta]
    after the JSON round trip with, under every recognised key, the names of
    the [files] array renamed and all else as the round trip leaves it; where
    all numbers of [meta] are finite and none is the negative zero, that is
    the tree of [meta] itself with the names renamed. A name ending in
    [.webp], in any case, is renamed to the same base with [.webm] and any
    other name stays. Every cell of the heap is left as it was, so [meta]
    still has the tree it had. *)
Theorem mapMetaToWebm_deep_copy (fuel : nat) (h : Heap.heap) (meta : Heap.value) (j : json) :
  Heap.read false Heap.anywhere fuel h meta = Some j ->
  metadata j ->
  exists out h',
    Heap.mapMetaToWebm fuel meta h = Ok (out, h')
    /\ Heap.read false (Heap.from (length h)) (Heap.depth (JSON_roundtrip j)) h' out
       = Some (rewritten_meta (JSON_roundtrip j))
    /\ (plain j = true ->
        Heap.read false (Heap.from (length h)) (Heap.depth j) h' out
        = Some (rewritten_meta j))
    /\ (forall l c, h !! l = Some c -> h' !! l = Some c)
    /\ Heap.read false Heap.anywhere fuel h' meta = Some j
    /\ (forall base ext,
          Str.toLowerCase ext = ".webp" ->
          renamed (JStr (base +:+ ext)) = JStr (base +:+ ".webm"))
    /\ (forall s, has_ext ".webp" s = false -> renamed (JStr s) = JStr s).
Proof.
  intros Hread Hmeta.
  destruct (rewrite_clone (JSON_roundtrip j) h (metadata_roundtrip j Hmeta))
    as (out & h' & Hrun & Hout & Hkeep).
  exists out, h'. split.
  { unfold Heap.mapMetaToWebm. by rewrite Hread. }
  split; [done|]. split.
  { intros Hplain. by rewrite (roundtrip_plain j Hplain) in Hout. }
  split; [done|]. split; [|split].
  - eapply read_mono; [exact Hread | auto | lia | auto].
  - intros base ext Hext. cbn [renamed]. unfold replace_webp.
    by rewrite (replace_suffix_ci_hit _ _ _ _ Hext).
  - intros s Hs. cbn [renamed]. unfold replace_webp.
    by rewrite replace_suffix_ci_miss.
Qed.

(** C5 as stated fails: in the metadata
    [{"means": {"files": ["means.webp"], "maxs": [1e999]}, "offset": -0}],
    as [JSON.parse] reads it, the infinity under [maxs] and the negative
    zero of [offset] are fields that the rewrite is to leave unchanged; the
    value returned has [null] and [0] in their place. *)
Lemma mapMetaToWebm_changes_numbers :
  Heap.read false Heap.anywhere 3 Host.overflow_heap Host.overflow_value
  = Some Host.overflow_tree
  /\ exists out h',
       Heap.mapMetaToWebm 3 Host.overflow_value Host.overflow_heap = Ok (out, h')
       /\ Heap.read false Heap.anywhere 3 h' out
          = Some (JObj [("means", JObj [("files", JArr [JStr "means.webm"]);
                                        ("maxs", JArr [JNull])]);
                        ("offset", JNum 0%Z)])
       /\ Heap.read false Heap.anywhere 3 h' out
          <> Some (rewritten_meta Host.overflow_tree).
Proof.
  split; [reflexivity|].
  eexists _, _. split; [reflexivity|].
  split; [vm_compute; reflexivity | vm_compute; discriminate].
Qed.

Lemma mapMetaToWebm_deep_copy_witness :
  exists out h',
    Heap.mapMetaToWebm 3 Host.meta_value Host.meta_heap = Ok (out, h')
    /\ Heap.read false (Heap.from 3) 3 h' out
       = Some (JObj [("version", JNum 2%Z);
                     ("means",
                      JObj [("files", JArr [JStr "means_l.webm"; JStr "means_u.webm";
                                            JStr "notes.txt"]);
                            ("codebook", JNull)]);
                     ("extra",
                      JObj [("files", JArr [JStr "means_l.webp"; JStr "means_u.WEBP";
                                            JStr "notes.txt"]);
                            ("codebook", JNull)])])
    /\ Heap.read false Heap.anywhere 3 h' Host.meta_value = Some Host.meta_tree.
Proof.
  destruct (mapMetaToWebm_deep_copy 3 Host.meta_heap Host.meta_value Host.meta_tree)
    as (out & h' & Hrun & _ & Hout & _ & Hsame & _).
  - vm_compute. reflexivity.
  - split; [compute_done|]. intros key attribute Hin Hentry.
    repeat (apply elem_of_cons in Hin as [->|Hin]);
      try (by apply not_elem_of_nil in Hin);
      vm_compute in Hentry; try discriminate.
    injection Hentry as <-. split; [compute_done|].
    intros files [= <-]. repeat constructor; by eexists.
  - exists out, h'. split; [exact Hrun|]. split; [exact (Hout eq_refl) | exact Hsame].
Defined.

(** ** The walk for images *)

Lemma node_ind' (P : node -> Prop) :
  (forall data, P (File data)) -> P Special ->
  (forall entries, Forall (fun e => P (snd e)) entries -> P (Dir entries)) ->
  forall n, P n.
Proof.
  intros Hfile Hspecial Hdir. fix IH 1. intros [data|entries|].
  - apply Hfile.
  - apply Hdir. induction entries as [|[name child] entries IHentries]; constructor.
    + apply IH.
    + exact IHentries.
  - exact Hspecial.
Qed.

Lemma walk_entries_cons (dir : path) (name : string) (child : node)
    (rest : list (string * node)) :
  walk_entries dir (Dir ((name, child) :: rest))
  = match child with
    | Dir _ => walk_entries (Path.join dir name) child
    | File _ => if has_ext ".webp" name then [Path.join dir name] else []
    | Special => []
    end ++ walk_entries dir (Dir rest).
Proof. destruct child; [|done..]. simpl. by destruct (has_ext ".webp" name). Qed.

Lemma leads_more (entry : string * node) (entries : list (string * node))
    (rel : list string) (target : node) :
  rel <> [] -> leads (Dir entries) rel target -> leads (Dir (entry :: entries)) rel target.
Proof.
  intros Hrel Hleads. inversion Hleads as [|? name child rest ? Hin Hchild]; subst; [done|].
  apply leads_down with (child := child); [by apply list_elem_of_further | done].
Qed.

Lemma last_cons_ne {A : Type} (x d : A) (l : list A) :
  l <> [] -> List.last (x :: l) d = List.last l d.
Proof. by destruct l. Qed.

(** The paths the walk returns are the regular files below the directory
    whose names end in [.webp]. *)
Lemma walk_entries_spec (n : node) :
  forall (dir p : path),
    p ∈ walk_entries dir n <->
    exists rel data,
      rel <> [] /\ p = dir ++ rel /\ leads n rel (File data)
      /\ has_ext ".webp" (List.last rel "") = true.
Proof.
  induction n as [data| |entries IH] using node_ind'; intros dir p.
  - split; [by intros ?%not_elem_of_nil|].
    intros (rel & d & Hrel & _ & Hleads & _). by inversion Hleads; subst.
  - split; [by intros ?%not_elem_of_nil|].
    intros (rel & d & Hrel & _ & Hleads & _). by inversion Hleads; subst.
  - induction IH as [|[name child] entries Hchild _ IHentries].
    { split; [by intros ?%not_elem_of_nil|].
      intros (rel & d & Hrel & _ & Hleads & _).
      inversion Hleads as [|? ? ? ? ? Hin]; subst. by apply not_elem_of_nil in Hin. }
    rewrite walk_entries_cons, elem_of_app. simpl in Hchild. split.
    + intros [Hhead|Htail].
      * destruct child as [data|sub|].
        -- destruct (has_ext ".webp" name) eqn:Hext; [|by apply not_elem_of_nil in Hhead].
           apply list_elem_of_singleton in Hhead as ->.
           exists [name], data. split; [done|]. split; [done|]. split; [|done].
           apply leads_down with (child := File data); [apply list_elem_of_here | constructor].
        -- apply Hchild in Hhead as (rel & data & Hrel & -> & Hleads & Hext).
           exists (name :: rel), data. split; [done|]. split.
           { unfold Path.join. by rewrite <- app_assoc. }
           split; [|by rewrite last_cons_ne].
           apply leads_down with (child := Dir sub); [apply list_elem_of_here | done].
        -- by apply not_elem_of_nil in Hhead.
      * apply IHentries in Htail as (rel & data & Hrel & -> & Hleads & Hext).
        exists rel, data. split; [done|]. split; [done|]. split; [|done].
        by apply leads_more.
    + intros (rel & data & Hrel & -> & Hleads & Hext).
      inversion Hleads as [|? name' child' rest ? Hin Hdown]; subst.
      apply elem_of_cons in Hin as [[= -> ->]|Hin].
      * left. destruct rest as [|next rest].
        -- inversion Hdown; subst. simpl in Hext. rewrite Hext. apply list_elem_of_here.
        -- inversion Hdown as [|sub ? ? ? ? Hin' Hdown']; subst.
           apply Hchild. exists (next :: rest), data.
           split; [done|]. split; [unfold Path.join; by rewrite <- app_assoc|].
           split; [done|]. by rewrite last_cons_ne in Hext.
      * right. apply IHentries. exists (name' :: rest), data.
        split; [done|]. split; [done|]. split; [|done].
        by apply leads_down with (child := child').
Qed.

(** X1. [walkForWebp] on a directory returns, without changing anything,
    exactly the regular files at any depth below it whose names end in
    [.webp], whatever the case: a path is returned if and only if it leads
    from the directory through entries of directories to such a file.
    Entries that are neither files nor directories are passed over. *)
Theorem walkForWebp_finds_every_image (dir : path) (w : world)
    (entries : list (string * node)) :
  Fs.resolve dir (fs w) = Some (Dir entries) ->
  exists found,
    walkForWebp dir w = (Ok found, w)
    /\ forall p,
         p ∈ found <->
         exists rel data,
           rel <> [] /\ p = dir ++ rel /\ leads (Dir entries) rel (File data)
           /\ has_ext ".webp" (List.last rel "") = true.
Proof.
  intros Hdir. exists (walk_entries dir (Dir entries)). split.
  - unfold walkForWebp, bind, readdir. by rewrite Hdir.
  - intros p. apply walk_entries_spec.
Qed.

Lemma walkForWebp_finds_every_image_witness :
  exists found,
    walkForWebp ["sog"; "obj"] {| fs := Host.disk_nested; trace := [] |}
    = (Ok found, {| fs := Host.disk_nested; trace := [] |})
    /\ ["sog"; "obj"; "lod"; "shN_centroids.WEBP"] ∈ found.
Proof.
  destruct (walkForWebp_finds_every_image ["sog"; "obj"]
              {| fs := Host.disk_nested; trace := [] |} _ eq_refl)
    as (found & Hrun & Hfound).
  exists found. split; [exact Hrun|]. apply Hfound.
  exists ["lod"; "shN_centroids.WEBP"], "s".
  split; [discriminate|]. split; [reflexivity|]. split; [|reflexivity].
  eapply leads_down; [do 2 apply list_elem_of_further; apply list_elem_of_here|].
  eapply leads_down; [apply list_elem_of_here | apply leads_here].
Defined.

(** ** Executables, frame names and sequence names *)

(** X2. [findExecutable] returns the candidate of the first directory of
    the search path in which an entry of that name exists, whatever kind of
    entry it is, and [null] when no directory of the path has one; it changes
    nothing. *)
Theorem findExecutable_first_in_path (pathParts : list path) (name : string) (w : world) :
  exists found,
    findExecutable pathParts name w = (Ok found, w)
    /\ match found with
       | Some candidate =>
           exists before part after,
             pathParts = before ++ part :: after
             /\ candidate = Path.join part name
             /\ is_Some (Fs.resolve candidate (fs w))
             /\ Forall (fun earlier => Fs.resolve (Path.join earlier name) (fs w) = None)
                       before
       | None =>
           Forall (fun part => Fs.resolve (Path.join part name) (fs w) = None) pathParts
       end.
Proof.
  exists (findExecutable_in pathParts name (fs w)). split; [done|].
  induction pathParts as [|part rest IH]; simpl; [constructor|].
  unfold existsSync.
  destruct (Fs.resolve (Path.join part name) (fs w)) as [n|] eqn:Hpart.
  - exists [], part, rest. rewrite Hpart. eauto.
  - destruct (findExecutable_in rest name (fs w)) as [candidate|].
    + destruct IH as (before & part' & after & -> & -> & Hfound & Hbefore).
      exists (part :: before), part', after. eauto.
    + by constructor.
Qed.

Lemma pretty_N_go_head (x : N) :
  forall s, (0 < x)%N ->
    exists c rest, pretty_N_go x s = String c rest /\ c <> "0"%char.
Proof.
  induction (N.lt_wf_0 x) as [x _ IH]; intros s Hx.
  rewrite pretty_N_go_step by done.
  destruct (decide (x < 10)%N) as [Hsmall|Hbig].
  - rewrite (N.div_small x 10), pretty_N_go_0, (N.mod_small x 10) by done.
    eexists _, _. split; [done|].
    assert (x = 1 \/ x = 2 \/ x = 3 \/ x = 4 \/ x = 5 \/ x = 6 \/ x = 7 \/ x = 8 \/ x = 9)%N
      as Hcases by lia.
    by repeat destruct Hcases as [->|Hcases]; try subst x.
  - apply IH; [apply N.div_lt; lia | apply N.div_str_pos; lia].
Qed.

(** A number is written without leading zeros. *)
Lemma pretty_nat_head (n : nat) :
  pretty n = "0" \/ exists c rest, pretty n = String c rest /\ c <> "0"%char.
Proof.
  unfold pretty, pretty_nat, pretty, pretty_N. case_decide; [by left|].
  right. apply pretty_N_go_head. lia.
Qed.

Lemma zeros_inj (j : nat) :
  forall (k : nat) (s t : string),
    (s = "0" \/ exists c rest, s = String c rest /\ c <> "0"%char) ->
    (t = "0" \/ exists c rest, t = String c rest /\ c <> "0"%char) ->
    string_of_list_ascii (replicate j "0"%char) +:+ s
    = string_of_list_ascii (replicate k "0"%char) +:+ t ->
    s = t.
Proof.
  assert (forall k s t,
             (s = "0" \/ exists c rest, s = String c rest /\ c <> "0"%char) ->
             (t = "0" \/ exists c rest, t = String c rest /\ c <> "0"%char) ->
             s = string_of_list_ascii (replicate (S k) "0"%char) +:+ t -> False) as Hshort.
  { intros k s t Hs Ht Heq.
    change (s = String "0" (string_of_list_ascii (replicate k "0"%char) +:+ t)) in Heq.
    destruct Hs as [->|(c & rest & -> & Hc)]; [|by injection Heq as -> _].
    injection Heq as Heq.
    destruct k as [|k].
    - change (""%string = t) in Heq. subst t.
      by destruct Ht as [|(c & rest & ? & _)].
    - done. }
  induction j as [|j IH]; intros [|k] s t Hs Ht Heq.
  - done.
  - by destruct (Hshort k s t).
  - by destruct (Hshort j t s).
  - change (String "0" (string_of_list_ascii (replicate j "0"%char) +:+ s)
            = String "0" (string_of_list_ascii (replicate k "0"%char) +:+ t)) in Heq.
    injection Heq as Heq. by apply (IH k).
Qed.

Lemma string_app_inv_same (a b c : string) : a +:+ b = a +:+ c -> b = c.
Proof.
  induction a as [|x a IH]; intros Heq; [done|].
  change (String x (a +:+ b) = String x (a +:+ c)) in Heq.
  injection Heq as Heq. auto.
Qed.

Lemma string_app_inv_head (a b c : string) : a +:+ c = b +:+ c -> a = b.
Proof.
  revert b. induction a as [|x a IH]; intros [|y b] Heq.
  - done.
  - apply (f_equal String.length) in Heq.
    rewrite !app_length_string in Heq. simpl in Heq. lia.
  - apply (f_equal String.length) in Heq.
    rewrite !app_length_string in Heq. simpl in Heq. lia.
  - change (String x (a +:+ c) = String y (b +:+ c)) in Heq.
    injection Heq as -> Heq. f_equal. by apply IH.
Qed.

(** X3. The names [frame_NNNNN.webp] of distinct indices are distinct, so
    that no frame of a sequence is copied over another one, and each of them
    ends in [.webp], so that [listSequenceFrames] counts it. *)
Theorem frameName_distinct_and_counted :
  (forall i j, frameName i = frameName j -> i = j)
  /\ (forall i, has_ext ".webp" (frameName i) = true).
Proof.
  split.
  - intros i j Heq. unfold frameName in Heq.
    apply string_app_inv_same, string_app_inv_head in Heq. unfold Str.padStart0 in Heq.
    apply zeros_inj in Heq; [|apply pretty_nat_head..].
    by apply (inj pretty).
  - intros i. apply has_ext_spec.
    by exists ("frame_" +:+ Str.padStart0 5 (pretty i)), ".webp".
Qed.

Lemma lower_dot (c : ascii) : Str.lower c = "."%char -> c = "."%char.
Proof.
  destruct c as [[] [] [] [] [] [] [] []]; intros H; vm_compute in H; congruence.
Qed.

Lemma lower_not_dot (c target : ascii) :
  Str.lower c = target -> target <> "."%char -> c <> "."%char.
Proof. intros <- Hne ->. by apply Hne. Qed.

(** The last dot of a name that ends in [.webp] is that of the suffix. *)
Lemma lastDot_webp (base ext : string) :
  Str.toLowerCase ext = ".webp" ->
  Str.lastDot (base +:+ ext) = Some (String.length base) /\ String.length ext = 5%nat.
Proof.
  intros Hext.
  destruct ext as [|c0 [|c1 [|c2 [|c3 [|c4 [|c5 ext]]]]]]; try discriminate.
  injection Hext as H0 H1 H2 H3 H4.
  apply lower_dot in H0 as ->.
  apply lower_not_dot in H1, H2, H3, H4; [|done..].
  split; [|done].
  induction base as [|c base IH].
  - change (Str.lastDot (String "." (String c1 (String c2 (String c3 (String c4 "")))))
            = Some 0%nat).
    simpl. by rewrite !(proj2 (Ascii.eqb_neq _ _)) by done.
  - change (Str.lastDot (String c (base +:+ String "." (String c1 (String c2 (String c3
              (String c4 ""))))))
            = Some (S (String.length base))).
    simpl. by rewrite IH.
Qed.

Lemma substring_all (s : string) : substring 0 (String.length s) s = s.
Proof. induction s as [|c s IH]; simpl; [done | by rewrite IH]. Qed.

Lemma substring_app_tail (a b : string) :
  substring (String.length a) (String.length b) (a +:+ b) = b.
Proof.
  induction a as [|c a IH]; [apply substring_all|].
  change (substring (String.length a) (String.length b) (a +:+ b) = b). exact IH.
Qed.

Lemma substring_app_head (a b : string) : substring 0 (String.length a) (a +:+ b) = a.
Proof.
  induction a as [|c a IH]; [by destruct b|].
  change (String c (substring 0 (String.length a) (a +:+ b)) = String c a).
  by rewrite IH.
Qed.

(** X5. The sequence an image feeds is named after its file alone: for a
    file name that ends in [.webp], in any case, it is the name without that
    suffix, whatever directory the image is in; a file called just [.webp]
    feeds a sequence of that name. *)
Theorem sequenceNameOf_image (dir : path) (base ext : string) :
  Str.toLowerCase ext = ".webp" ->
  sequenceNameOf (Path.join dir (base +:+ ext)) = if String.eqb base "" then ext else base.
Proof.
  intros Hext. destruct (lastDot_webp base ext Hext) as [Hdot Hlen].
  unfold sequenceNameOf, Path.extname, Path.basename_ext, Path.basename, Path.join.
  rewrite last_last. unfold Path.extname_of. rewrite Hdot.
  destruct base as [|c base].
  - change (String.length "") with 0%nat. cbv beta iota. simpl String.length.
    change ("" +:+ ext) with ext. by destruct (String.length ext).
  - cbn [String.length String.eqb].
    assert (String.eqb (String c base +:+ ext) ".." = false) as ->.
    { apply String.eqb_neq. intros Heq. apply (f_equal String.length) in Heq.
      rewrite app_length_string in Heq. simpl in Heq. lia. }
    pose proof (substring_app_tail (String c base) ext) as Htail.
    pose proof (substring_app_head (String c base) ext) as Hhead.
    rewrite app_length_string. cbn [String.length] in Htail, Hhead |- *.
    replace (S (String.length base) + String.length ext - S (String.length base))%nat
      with (String.length ext) by lia.
    rewrite Htail.
    replace (0 <? String.length ext)%nat with true by (symmetry; apply Nat.ltb_lt; lia).
    replace (String.length ext <? S (String.length base) + String.length ext)%nat
      with true by (symmetry; apply Nat.ltb_lt; lia).
    replace (S (String.length base) + String.length ext - String.length ext)%nat
      with (S (String.length base)) by lia.
    by rewrite Htail, String.eqb_refl.
Qed.

Lemma sequenceNameOf_image_witness :
  sequenceNameOf ["out"; "sog"; "obj"; "lod"; "shN_centroids.WEBP"] = "shN_centroids".
Proof. apply (sequenceNameOf_image ["out"; "sog"; "obj"; "lod"] "shN_centroids" ".WEBP"). reflexivity. Defined.

(** ** What [main] does before it converts *)

Section Prepare.

Variable localeCompare : string -> string -> Z.
Variable spawn : path -> list arg -> node -> child_outcome * node.
Variable ffmpeg_run : ffmpeg_job -> node -> result unit * node.
Variable JSON_parse : string -> option json.
Variable JSON_stringify : json -> string.

Local Abbreviation run' := (run localeCompare spawn ffmpeg_run JSON_parse JSON_stringify).
Local Abbreviation cli' := (cli localeCompare spawn ffmpeg_run JSON_parse JSON_stringify).

(** X6. Unless [--videos-only] is set, [main] checks the input directory
    before it does anything else: without one, or with one that does not
    exist, it fails with the message that says so and has changed nothing,
    not even created the output directory; the process prints the message
    and exits with status 1. *)
Theorem main_checks_input_first (opts : options) (disk : node) :
  videosOnly opts = false ->
  let w0 := {| fs := disk; trace := [] |} in
  let required := "Input directory is required unless --videos-only is set" in
  (input opts = None ->
   run' opts disk = (Err (Error required), w0)
   /\ cli' opts disk = (1%nat, emit (EvConsole (LogError required)) w0))
  /\ (forall inputDir,
        input opts = Some inputDir ->
        Fs.resolve inputDir disk = None ->
        let missing := "Input directory not found: " +:+ Path.to_string inputDir in
        run' opts disk = (Err (Error missing), w0)
        /\ cli' opts disk = (1%nat, emit (EvConsole (LogError missing)) w0)).
Proof.
  intros Hfresh w0 required. split.
  - intros Hinput.
    assert (run' opts disk = (Err (Error required), w0)) as Hrun.
    { unfold run, main, checkInput. by rewrite Hfresh, Hinput. }
    split; [done|]. unfold cli. by rewrite Hrun.
  - intros inputDir Hinput Hmissing missing.
    assert (run' opts disk = (Err (Error missing), w0)) as Hrun.
    { unfold run, main, checkInput. rewrite Hfresh, Hinput. cbn [negb].
      unfold bind at 1. unfold bind at 1. unfold pathExists. cbn [fs].
      by rewrite Hmissing. }
    split; [done|]. unfold cli. by rewrite Hrun.
Qed.


Lemma for_each_all_ok {A : Type} (xs : list A) (body : A -> M unit) (w : world) :
  Forall (fun x => body x w = (Ok tt, w)) xs -> for_each xs body w = (Ok tt, w).
Proof.
  unfold for_each. induction 1 as [|x xs Hx _ IH]; [done|].
  cbn [for_of]. unfold bind at 1. by rewrite Hx.
Qed.

(** X7. Without [--overwrite] a fresh conversion refuses an output
    directory that already holds one of [sog], [sequences] and [videos]: it
    fails with the message that names the first of them that exists, in that
    order, having created the output directory if it was missing and nothing
    else; it has run no program and removed nothing. *)
Theorem main_refuses_existing_output (opts : options) (disk n1 : node)
    (inputDir : path) (before after : list path) (dir : path) :
  videosOnly opts = false ->
  overwrite opts = false ->
  input opts = Some inputDir ->
  is_Some (Fs.resolve inputDir disk) ->
  Fs.mkdir_p (output opts) disk = Some n1 ->
  [Path.join (output opts) "sog"; Path.join (output opts) "sequences";
   Path.join (output opts) "videos"] = before ++ dir :: after ->
  Forall (fun earlier => Fs.resolve earlier n1 = None) before ->
  is_Some (Fs.resolve dir n1) ->
  run' opts disk
  = (Err (Error ("Output subfolder already exists: " +:+ Path.to_string dir
                   +:+ " (use --overwrite to allow)")),
     {| fs := n1; trace := [] |}).
Proof.
  intros Hfresh Hover Hinput [found Hfound] Hmk Hdirs Hbefore [there Hthere].
  unfold run, main.
  rewrite (bind_ok _ _ _ tt {| fs := disk; trace := [] |}).
  2:{ unfold checkInput. rewrite Hfresh, Hinput. cbn [negb].
      unfold bind, pathExists. cbn [fs]. by rewrite Hfound. }
  rewrite (bind_ok _ _ _ tt {| fs := n1; trace := [] |}).
  2:{ unfold ensureDir. cbn [fs]. by rewrite Hmk. }
  apply bind_err. unfold prepareOutput. rewrite Hfresh, Hover, Hdirs. cbn [negb andb].
  unfold for_each. rewrite for_of_app.
  rewrite (bind_ok _ _ _ tt {| fs := n1; trace := [] |}).
  2:{ apply for_each_all_ok. eapply Forall_impl; [exact Hbefore|].
      intros earlier Hearlier. cbn beta. unfold bind, pathExists. cbn [fs].
      by rewrite Hearlier. }
  cbn [for_of]. apply bind_err. unfold bind, pathExists. cbn [fs]. by rewrite Hthere.
Qed.


(** X9. With [--videos-only], [main] runs no converter and copies no
    frame: all it does that can be seen from outside is to encode (ffmpeg,
    and dwebp with its warning) and to print the closing line. The input
    directory plays no part: the run is the same whatever [--input] says. *)
Theorem videos_only_converts_nothing (opts : options) (disk : node)
    (r : result (list splat)) (w' : world) :
  videosOnly opts = true ->
  run' opts disk = (r, w') ->
  Forall (fun e => is_encode e
                   \/ e = EvConsole (LogVideos (Path.join (output opts) "videos")))
         (trace w')
  /\ forall other,
       run' {| input := other; output := output opts; splatExec := splatExec opts;
               splatArgs := splatArgs opts; webpWidth := webpWidth opts;
               webpHeight := webpHeight opts; crf := crf opts; gop := gop opts;
               fps := fps opts; overwrite := overwrite opts; videosOnly := true;
               env_PATH := env_PATH opts |} disk
       = (r, w').
Proof.
  intros Honly Hrun. split.
  - assert (emits (fun e => is_encode e
                            \/ e = EvConsole (LogVideos (Path.join (output opts) "videos")))
              (main localeCompare spawn ffmpeg_run JSON_parse JSON_stringify opts)) as Hemits.
    { unfold main. rewrite Honly. cbn [negb].
      apply emits_bind; [apply emits_checkInput|]. intros _.
      apply emits_bind; [apply emits_ensureDir|]. intros _.
      apply emits_bind; [apply emits_prepareOutput|]. intros _.
      apply emits_bind; [apply emits_ensureDir|]. intros _.
      apply emits_bind; [apply emits_ensureDir|]. intros _.
      apply emits_bind; [apply emits_ensureDir|]. intros _.
      apply emits_bind; [apply emits_findExecutable|]. intros dwebpPath.
      apply emits_bind; [apply emits_ret|]. intros processed.
      apply emits_bind; [apply emits_ret|]. intros st.
      apply emits_bind; [apply emits_encodeAll; by left|]. intros _.
      apply emits_bind; [apply emits_rebuildManifest|]. intros splats.
      apply emits_bind; [apply emits_console; by right|]. intros _.
      apply emits_ret. }
    destruct (Hemits _ _ _ Hrun) as (new & Htrace & Hnew).
    by rewrite Htrace.
  - intros other. rewrite <- Hrun. destruct opts. cbn in Honly. subst.
    reflexivity.
Qed.


(** X10. A fresh conversion of an input directory that holds no [.ply]
    file fails with the message that says so. By then the output directory
    and its three subfolders have been prepared (with [--overwrite], those of
    an earlier run removed), and that is all: no program has been run and
    nothing has been printed. *)
Theorem main_fails_on_empty_catalog (opts : options) (disk : node)
    (inputDir : path) (w1 : world) (entries : list dirent) :
  videosOnly opts = false ->
  input opts = Some inputDir ->
  (do checkInput opts in
   do ensureDir (output opts) in
   do prepareOutput opts [Path.join (output opts) "sog";
                          Path.join (output opts) "sequences";
                          Path.join (output opts) "videos"] in
   do ensureDir (Path.join (output opts) "sog") in
   do ensureDir (Path.join (output opts) "sequences") in
   ensureDir (Path.join (output opts) "videos")) {| fs := disk; trace := [] |}
  = (Ok tt, w1) ->
  Fs.resolve inputDir (fs w1) = Some (Dir entries) ->
  List.filter (fun entry => isFile entry && has_ext ".ply" (dirent_name entry)) entries = [] ->
  run' opts disk
  = (Err (Error ("No .ply files found in " +:+ Path.to_string inputDir)), w1)
  /\ trace w1 = [].
Proof.
  intros Hfresh Hinput Hprep Hdir Hnone.
  apply bind_inv in Hprep as [([] & wa & Ha & Hprep)|(e & _ & [=])].
  apply bind_inv in Hprep as [([] & wb & Hb & Hprep)|(e & _ & [=])].
  apply bind_inv in Hprep as [([] & wc & Hc & Hprep)|(e & _ & [=])].
  apply bind_inv in Hprep as [([] & wd & Hd & Hprep)|(e & _ & [=])].
  apply bind_inv in Hprep as [([] & we & He & Hprep)|(e & _ & [=])].
  split.
  - unfold run, main.
    rewrite (bind_ok _ _ _ _ _ Ha), (bind_ok _ _ _ _ _ Hb), (bind_ok _ _ _ _ _ Hc),
      (bind_ok _ _ _ _ _ Hd), (bind_ok _ _ _ _ _ He), (bind_ok _ _ _ _ _ Hprep).
    unfold bind at 1. unfold findExecutable at 1.
    apply bind_err. rewrite Hfresh. cbn [negb].
    unfold convertAll. rewrite Hinput.
    unfold bind, listPlyFiles, bind, readdir, ret. rewrite Hdir, Hnone. reflexivity.
  - apply (emits_nothing _ _ _ _ (emits_checkInput _ _)) in Ha.
    apply (emits_nothing _ _ _ _ (emits_ensureDir _ _)) in Hb.
    apply (emits_nothing _ _ _ _ (emits_prepareOutput _ _ _)) in Hc.
    apply (emits_nothing _ _ _ _ (emits_ensureDir _ _)) in Hd.
    apply (emits_nothing _ _ _ _ (emits_ensureDir _ _)) in He.
    apply (emits_nothing _ _ _ _ (emits_ensureDir _ _)) in Hprep.
    by rewrite Hprep, He, Hd, Hc, Hb, Ha.
Qed.



(** *** Clearing the output with [--overwrite] *)

Lemma entry_set_entry_ne {A : Type} (name other : string) (x : A) entries :
  other <> name -> Fs.entry other (Fs.set_entry name x entries) = Fs.entry other entries.
Proof.
  intros Hne. induction entries as [|[n y] rest IH]; simpl.
  - destruct (String.eqb_spec name other); [congruence | done].
  - destruct (String.eqb_spec n name) as [->|]; simpl.
    + destruct (String.eqb_spec name other); [congruence | done].
    + destruct (String.eqb_spec n other); [done | exact IH].
Qed.

Lemma entry_drop_entry {A : Type} (name other : string) (entries : list (string * A)) :
  Fs.entry other (Fs.drop_entry name entries)
  = if String.eqb other name then None else Fs.entry other entries.
Proof.
  unfold Fs.drop_entry. induction entries as [|[n y] rest IH]; simpl.
  - by destruct (String.eqb other name).
  - destruct (String.eqb_spec n name) as [->|Hn]; simpl.
    + rewrite IH. destruct (String.eqb_spec other name) as [->|Ho]; [done|].
      destruct (String.eqb_spec name other); [congruence | done].
    + destruct (String.eqb_spec n other) as [->|]; [|exact IH].
      destruct (String.eqb_spec other name); [congruence | done].
Qed.

Lemma drop_entry_absent {A : Type} (name : string) (entries : list (string * A)) :
  Fs.entry name entries = None -> Fs.drop_entry name entries = entries.
Proof.
  unfold Fs.drop_entry. induction entries as [|[n y] rest IH]; simpl; [done|].
  destruct (String.eqb_spec n name); [done|]. intros H. simpl. by rewrite IH.
Qed.

(** Removing an entry of a directory. *)
Lemma remove_child (p : path) (name : string) :
  forall n entries,
    Fs.resolve p n = Some (Dir entries) ->
    Fs.resolve p (Fs.remove (Path.join p name) n)
    = Some (Dir (Fs.drop_entry name entries)).
Proof.
  unfold Path.join. induction p as [|a p IH]; intros n entries Hres.
  - simpl in Hres. injection Hres as ->. done.
  - simpl in Hres. destruct n as [|es|]; try done.
    destruct (Fs.entry a es) as [c|] eqn:Ha; [|done].
    assert (Fs.remove ((a :: p) ++ [name]) (Dir es)
            = Dir (Fs.set_entry a (Fs.remove (p ++ [name]) c) es)) as ->.
    { simpl. rewrite Ha. by destruct p. }
    simpl. rewrite entry_set_entry. by apply IH.
Qed.

(** Creating an entry that a directory does not have. *)
Lemma mkdir_p_fresh (p : path) (name : string) :
  forall n entries,
    Fs.resolve p n = Some (Dir entries) ->
    Fs.entry name entries = None ->
    exists n',
      Fs.mkdir_p (Path.join p name) n = Some n'
      /\ Fs.resolve p n' = Some (Dir (Fs.set_entry name (Dir []) entries)).
Proof.
  unfold Path.join. induction p as [|a p IH]; intros n entries Hres Hnone.
  - simpl in Hres. injection Hres as ->. simpl. rewrite Hnone. eauto.
  - simpl in Hres. destruct n as [|es|]; try done.
    destruct (Fs.entry a es) as [c|] eqn:Ha; [|done].
    destruct (IH c entries Hres Hnone) as (c' & Hmk & Hres').
    simpl. rewrite Ha, Hmk. eexists. split; [done|].
    simpl. by rewrite entry_set_entry.
Qed.

Lemma resolve_child (p : path) (name : string) (n : node) entries :
  Fs.resolve p n = Some (Dir entries) ->
  Fs.resolve (Path.join p name) n = Fs.entry name entries.
Proof.
  intros Hres. unfold Path.join. rewrite resolve_app, Hres. simpl.
  by destruct (Fs.entry name entries).
Qed.

(** One round of the loop that removes an existing subfolder. *)
Lemma clear_subfolder (p : path) (name : string) (w : world) entries :
  Fs.resolve p (fs w) = Some (Dir entries) ->
  exists w',
    (let* found := pathExists (Path.join p name) in
     if found then removeDir (Path.join p name) else ret tt) w = (Ok tt, w')
    /\ trace w' = trace w
    /\ Fs.resolve p (fs w') = Some (Dir (Fs.drop_entry name entries)).
Proof.
  intros Hres. unfold bind, pathExists. rewrite (resolve_child _ _ _ _ Hres).
  destruct (Fs.entry name entries) as [child|] eqn:Hentry.
  - eexists. split; [done|]. split; [done|]. by apply remove_child.
  - eexists. split; [done|]. split; [done|]. by rewrite drop_entry_absent.
Qed.

Lemma create_subfolder (p : path) (name : string) (w : world) entries :
  Fs.resolve p (fs w) = Some (Dir entries) ->
  Fs.entry name entries = None ->
  exists w',
    ensureDir (Path.join p name) w = (Ok tt, w')
    /\ trace w' = trace w
    /\ Fs.resolve p (fs w') = Some (Dir (Fs.set_entry name (Dir []) entries)).
Proof.
  intros Hres Hnone. destruct (mkdir_p_fresh _ _ _ _ Hres Hnone) as (n' & Hmk & Hres').
  unfold ensureDir. rewrite Hmk. eexists. split; [done|]. by split.
Qed.

(** X8. With [--overwrite], a fresh conversion starts from empty
    subfolders: once [main] has removed the existing ones of [sog],
    [sequences] and [videos] and created the three anew, each of them is an
    empty directory, and every other entry of the output directory is as it
    was; nothing has been run or printed. *)
Theorem overwrite_empties_output (opts : options) (w : world) (entries : list dirent) :
  videosOnly opts = false ->
  overwrite opts = true ->
  Fs.resolve (output opts) (fs w) = Some (Dir entries) ->
  exists w' entries',
    (do prepareOutput opts [Path.join (output opts) "sog";
                            Path.join (output opts) "sequences";
                            Path.join (output opts) "videos"] in
     do ensureDir (Path.join (output opts) "sog") in
     do ensureDir (Path.join (output opts) "sequences") in
     ensureDir (Path.join (output opts) "videos")) w = (Ok tt, w')
    /\ trace w' = trace w
    /\ Fs.resolve (output opts) (fs w') = Some (Dir entries')
    /\ Fs.entry "sog" entries' = Some (Dir [])
    /\ Fs.entry "sequences" entries' = Some (Dir [])
    /\ Fs.entry "videos" entries' = Some (Dir [])
    /\ forall name,
         name ∉ ["sog"; "sequences"; "videos"] ->
         Fs.entry name entries' = Fs.entry name entries.
Proof.
  intros Hfresh Hover Hout.
  destruct (clear_subfolder _ "sog" _ _ Hout) as (w1 & H1 & T1 & R1).
  destruct (clear_subfolder _ "sequences" _ _ R1) as (w2 & H2 & T2 & R2).
  destruct (clear_subfolder _ "videos" _ _ R2) as (w3 & H3 & T3 & R3).
  destruct (create_subfolder _ "sog" _ _ R3) as (w4 & H4 & T4 & R4).
  { by rewrite !entry_drop_entry. }
  destruct (create_subfolder _ "sequences" _ _ R4) as (w5 & H5 & T5 & R5).
  { rewrite entry_set_entry_ne by done. by rewrite !entry_drop_entry. }
  destruct (create_subfolder _ "videos" _ _ R5) as (w6 & H6 & T6 & R6).
  { rewrite !entry_set_entry_ne by done. by rewrite !entry_drop_entry. }
  exists w6. eexists. split; [|split; [|split; [exact R6|]]].
  - rewrite (bind_ok _ _ _ tt w3).
    + by rewrite (bind_ok _ _ _ _ _ H4), (bind_ok _ _ _ _ _ H5).
    + unfold prepareOutput. rewrite Hfresh, Hover. cbn [negb andb].
      unfold for_each. cbn [for_of].
      rewrite (bind_ok _ _ _ _ _ H1), (bind_ok _ _ _ _ _ H2), (bind_ok _ _ _ _ _ H3).
      done.
  - by rewrite T6, T5, T4, T3, T2, T1.
  - split; [|split; [|split]].
    + by rewrite !entry_set_entry_ne, entry_set_entry by done.
    + by rewrite entry_set_entry_ne, entry_set_entry by done.
    + by rewrite entry_set_entry.
    + intros name Hname.
      rewrite !entry_set_entry_ne, !entry_drop_entry.
      * destruct (String.eqb_spec name "videos") as [->|_];
          [exfalso; apply Hname; compute_done|].
        destruct (String.eqb_spec name "sequences") as [->|_];
          [exfalso; apply Hname; compute_done|].
        destruct (String.eqb_spec name "sog") as [->|_];
          [exfalso; apply Hname; compute_done|].
        done.
      * intros ->. apply Hname. compute_done.
      * intros ->. apply Hname. compute_done.
      * intros ->. apply Hname. compute_done.
Qed.

End Prepare.

Lemma main_checks_input_first_witness :
  Host.run (Host.opts false false) (Dir [])
  = (Err (Error "Input directory not found: /in"), {| fs := Dir []; trace := [] |}).
Proof.
  destruct (main_checks_input_first Host.codeUnitCompare Host.spawn Host.ffmpeg
              Host.parse Host.stringify (Host.opts false false) (Dir []) eq_refl)
    as [_ Hmissing].
  destruct (Hmissing ["in"] eq_refl eq_refl) as [Hrun _].
  exact Hrun.
Defined.

Lemma main_refuses_existing_output_witness :
  Host.run (Host.opts false false) Host.disk_previous
  = (Err (Error "Output subfolder already exists: /out/sequences (use --overwrite to allow)"),
     {| fs := Host.disk_previous; trace := [] |}).
Proof.
  apply (main_refuses_existing_output Host.codeUnitCompare Host.spawn Host.ffmpeg
           Host.parse Host.stringify (Host.opts false false) Host.disk_previous
           Host.disk_previous ["in"] [["out"; "sog"]] [["out"; "videos"]]
           ["out"; "sequences"]); try reflexivity.
  - by eexists.
  - by repeat constructor.
  - by eexists.
Defined.

Lemma videos_only_converts_nothing_witness :
  exists r w',
    Host.run (Host.opts true false) Host.disk_empty_sequence = (r, w')
    /\ Forall (fun e => is_encode e \/ e = EvConsole (LogVideos ["out"; "videos"]))
              (trace w').
Proof.
  destruct (Host.run (Host.opts true false) Host.disk_empty_sequence) as [r w'] eqn:Hrun.
  exists r, w'. split; [reflexivity|].
  exact (proj1 (videos_only_converts_nothing Host.codeUnitCompare Host.spawn Host.ffmpeg
                  Host.parse Host.stringify (Host.opts true false)
                  Host.disk_empty_sequence r w' eq_refl Hrun)).
Defined.

Lemma main_fails_on_empty_catalog_witness :
  exists w1,
    Host.run (Host.opts false true) Host.disk_no_ply
    = (Err (Error "No .ply files found in /in"), w1)
    /\ Fs.resolve ["out"; "sog"] (fs w1) = Some (Dir []).
Proof.
  edestruct (main_fails_on_empty_catalog Host.codeUnitCompare Host.spawn Host.ffmpeg
               Host.parse Host.stringify (Host.opts false true) Host.disk_no_ply ["in"])
    as [Hrun _];
    [reflexivity | reflexivity | vm_compute; reflexivity | reflexivity | reflexivity |].
  eexists. split; [exact Hrun | reflexivity].
Defined.

Lemma overwrite_empties_output_witness :
  exists w',
    (do prepareOutput (Host.opts false true) [["out"; "sog"]; ["out"; "sequences"];
                                               ["out"; "videos"]] in
     do ensureDir ["out"; "sog"] in
     do ensureDir ["out"; "sequences"] in
     ensureDir ["out"; "videos"]) {| fs := Host.disk_previous; trace := [] |} = (Ok tt, w')
    /\ Fs.resolve ["out"; "sequences"] (fs w') = Some (Dir [])
    /\ Fs.resolve ["out"; "notes.txt"] (fs w') = Some (File "keep").
Proof.
  edestruct (overwrite_empties_output (Host.opts false true)
               {| fs := Host.disk_previous; trace := [] |})
    as (w' & entries' & Hrun & _ & Hout & _ & Hseq & _ & Hother);
    [reflexivity | reflexivity | reflexivity |].
  exists w'. split; [exact Hrun|]. split.
  - change ["out"; "sequences"] with (Path.join ["out"] "sequences").
    by rewrite (resolve_child _ _ _ _ Hout).
  - change ["out"; "notes.txt"] with (Path.join ["out"] "notes.txt").
    rewrite (resolve_child _ _ _ _ Hout), Hother; [reflexivity | compute_done].
Defined.

(** ** The frames of one sequence *)

Lemma copies_into_app (dir : path) (xs ys : list event) :
  copies_into dir (xs ++ ys) = copies_into dir xs ++ copies_into dir ys.
Proof. unfold copies_into. apply omap_app. Qed.

Lemma copies_into_no_copy (dir : path) (events : list event) :
  Forall (fun e => forall o src dst, e <> EvCopy o src dst) events ->
  copies_into dir events = [].
Proof.
  induction 1 as [|e events He _ IH]; [done|].
  change (e :: events) with ([e] ++ events). rewrite copies_into_app, IH, app_nil_r.
  destruct e as [| | |o src dst|]; try done. by destruct (He o src dst).
Qed.

Section Sequences.

Variable sequenceRoot : path.

Local Abbreviation frameFile name index :=
  (Path.join (Path.join sequenceRoot name) (frameName index)).

Local Abbreviation counter st name := (default 0%nat (frameCounters st !! name)).

Lemma copies_into_frame (name other : string) (owner : string) (src : path) (index : nat) :
  copies_into (Path.join sequenceRoot name) [EvCopy owner src (frameFile other index)]
  = if decide (other = name) then [frameFile other index] else [].
Proof.
  unfold copies_into, Path.join. simpl. rewrite removelast_last.
  destruct (decide (other = name)) as [->|Hne].
  - by rewrite decide_True.
  - rewrite decide_False; [done|]. intros Heq. by apply app_inj_tail in Heq as [_ ?].
Qed.

(** One round of the inner loop adds the next frame of its sequence. *)
Lemma place_copies (st st' : counters) (owner : string) (webpPath : path)
    (events : list event) (name : string) :
  place sequenceRoot st (owner, webpPath) = (st', events) ->
  if decide (sequenceNameOf webpPath = name)
  then counter st' name = S (counter st name)
       /\ copies_into (Path.join sequenceRoot name) events
          = [frameFile name (counter st name)]
  else counter st' name = counter st name
       /\ copies_into (Path.join sequenceRoot name) events = [].
Proof.
  intros Hplace.
  destruct (place_cases sequenceRoot st owner webpPath)
    as (st1 & events1 & Hplace1 & Hcounters & Hevents).
  rewrite Hplace in Hplace1. injection Hplace1 as <- <-.
  assert (copies_into (Path.join sequenceRoot name) events
          = if decide (sequenceNameOf webpPath = name)
            then [frameFile (sequenceNameOf webpPath) (counter st (sequenceNameOf webpPath))]
            else []) as Hcopies.
  { destruct Hevents as [(_ & _ & ->)|[(_ & _ & ->)|(expected & _ & _ & _ & ->)]].
    - apply copies_into_frame.
    - apply copies_into_frame.
    - change (copies_into ?d [?a; ?b]) with (copies_into d ([a] ++ [b])).
      rewrite copies_into_app, copies_into_frame.
      change (copies_into ?d [EvConsole ?m]) with (@nil path).
      by rewrite app_nil_r. }
  rewrite Hcopies, Hcounters.
  destruct (decide (sequenceNameOf webpPath = name)) as [<-|Hne].
  - rewrite lookup_insert_eq. simpl. split; [lia | done].
  - by rewrite lookup_insert_ne.
Qed.

(** The frames that a run of the inner loop copies into one sequence carry
    the indices the counter of that sequence passes through. *)
Lemma place_all_copies (frames : list (string * path)) :
  forall (st st' : counters) (events : list event) (name : string),
    place_all sequenceRoot st frames = (st', events) ->
    (counter st name <= counter st' name)%nat
    /\ copies_into (Path.join sequenceRoot name) events
       = map (fun index => frameFile name index) (seq (counter st name) (counter st' name - counter st name)).
Proof.
  induction frames as [|[owner webpPath] frames IH]; intros st st' events name Hall.
  - injection Hall as <- <-. by rewrite Nat.sub_diag.
  - cbn [place_all] in Hall.
    destruct (place sequenceRoot st (owner, webpPath)) as [st1 events1] eqn:Hone.
    destruct (place_all sequenceRoot st1 frames) as [st2 events2] eqn:Hrest.
    injection Hall as <- <-.
    apply (place_copies _ _ _ _ _ name) in Hone.
    destruct (IH _ _ _ name Hrest) as [Hle Hcopies].
    rewrite copies_into_app, Hcopies.
    destruct (decide (sequenceNameOf webpPath = name)) as [_|_];
      destruct Hone as [Hcount ->]; rewrite Hcount in *.
    + split; [lia|].
      replace (counter st2 name - counter st name)%nat
        with (S (counter st2 name - S (counter st name))) by lia.
      done.
    + done.
Qed.

End Sequences.

Section SequenceFrames.

Variable localeCompare : string -> string -> Z.
Variable spawn : path -> list arg -> node -> child_outcome * node.
Variable ffmpeg_run : ffmpeg_job -> node -> result unit * node.
Variable JSON_parse : string -> option json.
Variable JSON_stringify : json -> string.

(** X4. In a fresh conversion that completes, the frames copied into any
    one sequence directory are, in the order they were copied,
    [frame_00000.webp], [frame_00001.webp] and so on without a gap: the
    numbering ffmpeg is started on. *)
Theorem sequence_frames_are_consecutive (opts : options) (disk : node)
    (splats : list splat) (w' : world) (sequenceName : string) :
  videosOnly opts = false ->
  run localeCompare spawn ffmpeg_run JSON_parse JSON_stringify opts disk = (Ok splats, w') ->
  let sequenceDir := Path.join (Path.join (output opts) "sequences") sequenceName in
  exists count,
    copies_into sequenceDir (trace w')
    = map (fun index => Path.join sequenceDir (frameName index)) (seq 0 count).
Proof.
  intros Hfresh Hrun sequenceDir.
  destruct (run_fresh_stages _ _ _ _ _ _ _ _ _ Hfresh Hrun)
    as (processed & blocks & converted & later & Hconv & _ & Htrace & Hlater & _).
  cbv zeta in Htrace.
  destruct (place_all _ _ _) as [st events] eqn:Hbuilt in Htrace.
  destruct (place_all_copies _ _ _ _ _ sequenceName Hbuilt) as [_ Hcopies].
  cbn [frameCounters] in Hcopies. rewrite lookup_empty in Hcopies. cbn [default] in Hcopies.
  rewrite Nat.sub_0_r in Hcopies.
  exists (default 0%nat (frameCounters st !! sequenceName)).
  rewrite Htrace, !copies_into_app. cbn [snd].
  rewrite (copies_into_no_copy _ converted) by by apply convert_no_copy.
  rewrite (copies_into_no_copy _ later) by by apply later_no_copy.
  by rewrite app_nil_r.
Qed.

End SequenceFrames.

Lemma sequence_frames_are_consecutive_witness :
  exists splats w',
    Host.run (Host.opts false false) Host.disk_three = (Ok splats, w')
    /\ exists count,
         copies_into ["out"; "sequences"; "shN"] (trace w')
         = map (fun index => Path.join ["out"; "sequences"; "shN"] (frameName index))
               (seq 0 count).
Proof.
  destruct (Host.run (Host.opts false false) Host.disk_three) as [r w'] eqn:Hrun.
  pose proof Hrun as Hval. vm_compute in Hval. injection Hval as <- <-.
  eexists _, _. split; [reflexivity|].
  exact (sequence_frames_are_consecutive
           Host.codeUnitCompare Host.spawn Host.ffmpeg Host.parse Host.stringify
           (Host.opts false false) Host.disk_three _ _ "shN" eq_refl Hrun).
Defined.

(** ** More on the metadata rewrite *)

Lemma map_result_rename_err (files : list json) :
  forall e,
    map_result rename_file files = Err e <->
    e = TypeError /\ Exists (fun fileName => forall s, fileName <> JStr s) files.
Proof.
  induction files as [|fileName files IH]; intros e; simpl.
  - split; [done|]. intros [_ H]. by apply Exists_nil in H.
  - destruct fileName as [| | |s| |]; simpl;
      try (split; [intros [= <-]; split; [done|]; by apply Exists_cons_hd
                  | by intros [-> _]]).
    destruct (map_result rename_file files) as [names|e'] eqn:Hrest.
    + split; [done|]. intros [He Hex]. apply Exists_cons in Hex as [Hs|Hex].
      * by destruct (Hs s).
      * discriminate (proj2 (IH e) (conj He Hex)).
    + destruct (proj1 (IH e') eq_refl) as [-> Hex]. split.
      * intros [= <-]. split; [done|]. by apply Exists_cons_tl.
      * by intros [-> _].
Qed.

(** When one round of the loop fails, and what it leaves of the other keys
    when it does not. *)
Lemma rewrite_key_err (cloned : list (string * json)) (key : string) (e : error) :
  rewrite_key cloned key = Err e <->
  e = TypeError
  /\ exists fields files,
       Fs.entry key cloned = Some (JObj fields)
       /\ Fs.entry "files" fields = Some (JArr files)
       /\ Exists (fun fileName => forall s, fileName <> JStr s) files.
Proof.
  unfold rewrite_key.
  destruct (Fs.entry key cloned) as [[| | | | |fields]|];
    try (split; [done | by intros (_ & ? & ? & ? & _)]).
  destruct (Fs.entry "files" fields) as [[| | | |files|]|] eqn:Hfiles;
    try (split; [done | intros (_ & ? & ? & [= <-] & ? & _); congruence]).
  destruct (map_result rename_file files) as [names|e'] eqn:Hmap.
  - split; [done|]. intros (-> & fields' & files' & [= <-] & Hfiles' & Hex).
    rewrite Hfiles in Hfiles'. injection Hfiles' as <-.
    assert (map_result rename_file files = Err TypeError) as Herr
      by by apply map_result_rename_err.
    congruence.
  - split.
    + intros [= <-]. apply map_result_rename_err in Hmap as [-> Hex].
      split; [done|]. by exists fields, files.
    + intros (-> & _). f_equal. by apply map_result_rename_err in Hmap as [-> _].
Qed.

Lemma rewrite_key_other (cloned cloned' : list (string * json)) (key other : string) :
  rewrite_key cloned key = Ok cloned' ->
  other <> key ->
  Fs.entry other cloned' = Fs.entry other cloned.
Proof.
  unfold rewrite_key. intros Hrun Hne.
  destruct (Fs.entry key cloned) as [[| | | | |fields]|]; try by injection Hrun as <-.
  destruct (Fs.entry "files" fields) as [[| | | |files|]|]; try by injection Hrun as <-.
  destruct (map_result rename_file files) as [names|]; [|done].
  injection Hrun as <-. by apply entry_set_entry_ne.
Qed.

Lemma rewrite_keys_err (keys : list string) :
  NoDup keys ->
  forall (cloned : list (string * json)) (e : error),
    rewrite_keys keys cloned = Err e <->
    e = TypeError
    /\ exists key fields files,
         key ∈ keys
         /\ Fs.entry key cloned = Some (JObj fields)
         /\ Fs.entry "files" fields = Some (JArr files)
         /\ Exists (fun fileName => forall s, fileName <> JStr s) files.
Proof.
  induction 1 as [|key keys Hkey Hnd IH]; intros cloned e; cbn [rewrite_keys].
  - split; [done|]. intros (_ & key & _ & _ & Hin & _). by apply not_elem_of_nil in Hin.
  - destruct (rewrite_key cloned key) as [cloned'|e'] eqn:Hone.
    + rewrite IH. split.
      * intros (-> & k & fields & files & Hin & Hentry & Hrest).
        split; [done|]. exists k, fields, files. split; [by apply list_elem_of_further|].
        split; [|done]. rewrite <- Hentry. symmetry.
        apply (rewrite_key_other _ _ _ _ Hone). by intros ->.
      * intros (-> & k & fields & files & Hin & Hentry & Hfiles & Hex).
        split; [done|]. apply elem_of_cons in Hin as [->|Hin].
        -- assert (rewrite_key cloned key = Err TypeError) as Herr.
           { apply rewrite_key_err. split; [done|]. by exists fields, files. }
           congruence.
        -- exists k, fields, files. split; [done|]. split; [|done].
           rewrite <- Hentry. apply (rewrite_key_other _ _ _ _ Hone). by intros ->.
    + split.
      * intros [= <-]. apply rewrite_key_err in Hone as (-> & fields & files & ?).
        split; [done|]. exists key, fields, files. split; [apply list_elem_of_here | done].
      * intros (-> & _). f_equal. by apply rewrite_key_err in Hone as [-> _].
Qed.

Lemma roundtrip_not_string (files : list json) :
  Exists (fun fileName => forall s, fileName <> JStr s) (map JSON_roundtrip files)
  <-> Exists (fun fileName => forall s, fileName <> JStr s) files.
Proof.
  rewrite Exists_fmap, !Exists_exists.
  split; intros (fileName & Hin & Hnot); exists fileName; (split; [done|]);
    intros s Hs; apply (Hnot s); by apply roundtrip_string.
Qed.

(** X16. [mapMetaToWebm] throws in three cases only, each time a
    [TypeError]: when [meta] is [null]; when it is a number that is not
    finite, which is [null] once cloned; and when under one of the
    recognised keys there is an object whose [files] is an array that holds
    something other than a string. On any other value it returns. *)
Theorem mapMetaToWebm_throws_iff (meta : json) (e : error) :
  mapMetaToWebm meta = Err e <->
  e = TypeError
  /\ (meta = JNull
      \/ (exists n, meta = JNum n /\ finite n = false)
      \/ exists top key fields files,
           meta = JObj top
           /\ key ∈ targets
           /\ Fs.entry key top = Some (JObj fields)
           /\ Fs.entry "files" fields = Some (JArr files)
           /\ Exists (fun fileName => forall s, fileName <> JStr s) files).
Proof.
  destruct meta as [|flag|n|s|items|top]; unfold mapMetaToWebm.
  - split; [intros [= <-]; by split; [|left] | by intros [-> _]].
  - split; [done|]. by intros (_ & [|[(? & ? & _)|(? & ? & ? & ? & ? & _)]]).
  - destruct n as [mantissa exponent| |negative|]; cbn [JSON_roundtrip].
    + split; [done|]. by intros (_ & [|[(? & [= <-] & ?)|(? & ? & ? & ? & ? & _)]]).
    + split; [done|]. by intros (_ & [|[(? & [= <-] & ?)|(? & ? & ? & ? & ? & _)]]).
    + split; [intros [= <-] | by intros [-> _]].
      split; [done|]. right; left. by eexists.
    + split; [intros [= <-] | by intros [-> _]].
      split; [done|]. right; left. by eexists.
  - split; [done|]. by intros (_ & [|[(? & ? & _)|(? & ? & ? & ? & ? & _)]]).
  - split; [done|]. by intros (_ & [|[(? & ? & _)|(? & ? & ? & ? & ? & _)]]).
  - cbn [JSON_roundtrip].
    assert ((exists key fields files,
                key ∈ targets
                /\ Fs.entry key
                     (map (fun field : string * json =>
                             (fst field, JSON_roundtrip (snd field))) top)
                   = Some (JObj fields)
                /\ Fs.entry "files" fields = Some (JArr files)
                /\ Exists (fun fileName => forall s, fileName <> JStr s) files)
            <-> exists key fields files,
                key ∈ targets
                /\ Fs.entry key top = Some (JObj fields)
                /\ Fs.entry "files" fields = Some (JArr files)
                /\ Exists (fun fileName => forall s, fileName <> JStr s) files) as Hsame.
    { split.
      - intros (key & fields' & files' & Hkey & Hentry & Hfiles & Hex).
        rewrite roundtrip_entry in Hentry.
        destruct (Fs.entry key top) as [attribute|] eqn:Hattribute; [|done].
        injection Hentry as Hentry.
        apply roundtrip_object in Hentry as (fields & -> & ->).
        rewrite roundtrip_entry in Hfiles.
        destruct (Fs.entry "files" fields) as [found|] eqn:Hfound; [|done].
        injection Hfiles as Hfiles. apply roundtrip_array in Hfiles as (files & -> & ->).
        exists key, fields, files. by rewrite <- roundtrip_not_string.
      - intros (key & fields & files & Hkey & Hentry & Hfiles & Hex).
        exists key, (map (fun field : string * json =>
                            (fst field, JSON_roundtrip (snd field))) fields),
               (map JSON_roundtrip files).
        split; [done|]. rewrite !roundtrip_entry, Hentry, Hfiles.
        by rewrite roundtrip_not_string. }
    destruct (rewrite_keys targets _) as [top'|e'] eqn:Hrun.
    + split; [done|].
      intros (-> & [|[(? & ? & _)|(top0 & key & fields & files & [= <-] & Hrest)]]);
        [done | done |].
      assert (rewrite_keys targets
                (map (fun field : string * json =>
                        (fst field, JSON_roundtrip (snd field))) top) = Err TypeError)
        as Herr.
      { apply rewrite_keys_err; [compute_done|]. split; [done|].
        apply Hsame. by exists key, fields, files. }
      congruence.
    + split.
      * intros [= <-]. apply rewrite_keys_err in Hrun as (-> & Hrun); [|compute_done].
        split; [done|]. right; right. apply Hsame in Hrun as (key & fields & files & ?).
        by exists top, key, fields, files.
      * intros (-> & _). f_equal.
        apply rewrite_keys_err in Hrun as [-> _]; [done | compute_done].
Qed.

Lemma renamed_idem (fileName : json) : renamed (renamed fileName) = renamed fileName.
Proof.
  destruct fileName as [| | |s| |]; try done. simpl. f_equal.
  unfold replace_webp at 1. apply replace_suffix_ci_miss, replace_webp_not_webp.
Qed.

Lemma rewritten_attribute_idem (attribute : json) :
  rewritten_attribute (rewritten_attribute attribute) = rewritten_attribute attribute.
Proof.
  destruct attribute as [| | | | |fields]; try done. simpl. f_equal.
  rewrite map_map. apply map_ext. intros [name v].
  destruct v as [| | | |files|]; try done. cbv beta iota.
  destruct (String.eqb name "files") eqn:Hname; cbv beta iota; rewrite Hname; [|done].
  do 2 f_equal. rewrite map_map. apply map_ext, renamed_idem.
Qed.

Lemma rewritten_meta_idem (meta : json) :
  rewritten_meta (rewritten_meta meta) = rewritten_meta meta.
Proof.
  destruct meta as [| | | | |fields]; try done. simpl. f_equal.
  rewrite map_map. apply map_ext. intros [name v]. cbn [fst snd].
  destruct (bool_decide (name ∈ targets)) eqn:Hname; cbn [fst snd]; rewrite Hname; [|done].
  by rewrite rewritten_attribute_idem.
Qed.

Lemma rewritten_attribute_files_of (fields : list (string * json)) (files' : list json) :
  files_are_names (JObj fields) ->
  Fs.entry "files"
    (map (fun field : string * json =>
            match field with
            | (name, JArr files) =>
                if String.eqb name "files" then (name, JArr (map renamed files)) else field
            | _ => field
            end) fields) = Some (JArr files') ->
  exists files,
    Fs.entry "files" fields = Some (JArr files)
    /\ files' = map renamed files
    /\ Forall (fun fileName => exists s, fileName = JStr s) files.
Proof.
  intros [Hkeys Hnames]. rewrite entry_map_values.
  - destruct (Fs.entry "files" fields) as [v|] eqn:Hentry; [|done]. simpl.
    destruct v as [| | | |files|]; try done.
    intros [= <-]. exists files. split; [done|]. split; [done|]. by apply Hnames.
  - intros [name v]. destruct v as [| | | |files|]; try done.
    by destruct (String.eqb name "files").
Qed.

Lemma files_are_names_rewritten (attribute : json) :
  files_are_names attribute -> files_are_names (rewritten_attribute attribute).
Proof.
  destruct attribute as [| | | | |fields]; try done. intros Hnames.
  pose proof (rewritten_attribute_files_of fields) as Hfiles.
  destruct Hnames as [Hkeys Hnames]. simpl. split.
  - unfold unique_keys in *. rewrite map_map. erewrite map_ext; [exact Hkeys|].
    intros [name v]. destruct v as [| | | |files|]; try done.
    by destruct (String.eqb name "files").
  - intros files' Hentry. destruct (Hfiles files' (conj Hkeys Hnames) Hentry)
      as (files & _ & -> & Hstr).
    apply Forall_forall. intros fileName Hin. apply list_elem_of_fmap in Hin as (f & -> & Hf).
    rewrite Forall_forall in Hstr. destruct (Hstr f Hf) as [s ->]. by eexists.
Qed.

Lemma rewritten_meta_entry (fields : list (string * json)) (key : string) :
  key ∈ targets ->
  Fs.entry key
    (map (fun field : string * json =>
            if bool_decide (fst field ∈ targets)
            then (fst field, rewritten_attribute (snd field))
            else field) fields)
  = option_map rewritten_attribute (Fs.entry key fields).
Proof.
  intros Hkey. rewrite entry_map_values.
  - cbn [fst snd]. rewrite bool_decide_eq_true_2 by done. done.
  - intros [name v]. cbn [fst]. by destruct (bool_decide _).
Qed.

Lemma metadata_rewritten (meta : json) : metadata meta -> metadata (rewritten_meta meta).
Proof.
  destruct meta as [| | | | |fields]; try done. intros [Hkeys Hnames]. simpl. split.
  - unfold unique_keys in *. rewrite map_map. erewrite map_ext; [exact Hkeys|].
    intros [name v]. cbn [fst]. by destruct (bool_decide _).
  - intros key attribute Hkey. rewrite rewritten_meta_entry by done.
    destruct (Fs.entry key fields) as [a|] eqn:Hentry; [|done].
    intros [= <-]. apply files_are_names_rewritten. by eapply Hnames.
Qed.

Lemma plain_rewritten_attribute (attribute : json) :
  plain attribute = true -> plain (rewritten_attribute attribute) = true.
Proof.
  destruct attribute as [| | | | |fields]; try done. cbn [rewritten_attribute plain].
  rewrite !forallb_forall. intros Hplain field' Hin.
  apply in_map_iff in Hin as ([name v] & <- & Hin). specialize (Hplain _ Hin).
  destruct v as [| | | |files|]; try done.
  destruct (String.eqb name "files"); [|done]. cbn [snd plain] in *.
  rewrite forallb_forall in *. intros file' Hfile.
  apply in_map_iff in Hfile as (file & <- & Hfile). specialize (Hplain _ Hfile).
  by destruct file.
Qed.

Lemma plain_rewritten_meta (meta : json) :
  plain meta = true -> plain (rewritten_meta meta) = true.
Proof.
  destruct meta as [| | | | |fields]; try done. cbn [rewritten_meta plain].
  rewrite !forallb_forall. intros Hplain field' Hin.
  apply in_map_iff in Hin as ([name v] & <- & Hin). specialize (Hplain _ Hin).
  cbn [fst snd] in *. destruct (bool_decide _); [|done].
  by apply plain_rewritten_attribute.
Qed.

(** X14. On metadata whose files are strings, [mapMetaToWebm] is
    idempotent: rewriting what it has returned returns the same again. *)
Theorem mapMetaToWebm_idempotent (meta : json) :
  metadata meta ->
  exists rewritten,
    mapMetaToWebm meta = Ok rewritten /\ mapMetaToWebm rewritten = Ok rewritten.
Proof.
  intros Hmeta. exists (rewritten_meta (JSON_roundtrip meta)).
  split; [by apply mapMetaToWebm_rewritten|].
  rewrite mapMetaToWebm_rewritten by by apply metadata_rewritten, metadata_roundtrip.
  rewrite roundtrip_plain by apply plain_rewritten_meta, plain_roundtrip.
  by rewrite rewritten_meta_idem.
Qed.

(** X15. In what [mapMetaToWebm] returns for metadata whose files are
    strings, no name in the [files] array of a recognised key ends in
    [.webp], in whatever case. *)
Theorem mapMetaToWebm_leaves_no_webp (meta : json) :
  metadata meta ->
  exists rewritten,
    mapMetaToWebm meta = Ok rewritten
    /\ forall top key fields files,
         rewritten = JObj top ->
         key ∈ targets ->
         Fs.entry key top = Some (JObj fields) ->
         Fs.entry "files" fields = Some (JArr files) ->
         Forall (fun fileName => exists s, fileName = JStr s /\ has_ext ".webp" s = false)
                files.
Proof.
  intros Hmeta. exists (rewritten_meta (JSON_roundtrip meta)).
  split; [by apply mapMetaToWebm_rewritten|].
  apply metadata_roundtrip in Hmeta. revert Hmeta.
  generalize (JSON_roundtrip meta). clear meta. intros meta Hmeta.
  intros top key fields files' Htop Hkey Hentry Hfiles.
  destruct meta as [| | | | |fields0]; try done. destruct Hmeta as [Hkeys Hnames].
  injection Htop as <-. rewrite rewritten_meta_entry in Hentry by done.
  destruct (Fs.entry key fields0) as [attribute|] eqn:Hattribute; [|done].
  injection Hentry as Hentry. specialize (Hnames key attribute Hkey Hattribute).
  destruct attribute as [| | | | |afields]; try done.
  injection Hentry as <-.
  destruct (rewritten_attribute_files_of _ _ Hnames Hfiles) as (files & _ & -> & Hstr).
  apply Forall_forall. intros fileName Hin. apply list_elem_of_fmap in Hin as (f & -> & Hf).
  rewrite Forall_forall in Hstr. destruct (Hstr f Hf) as [s ->].
  eexists. split; [done|]. apply replace_webp_not_webp.
Qed.

Lemma meta_tree_metadata : metadata Host.meta_tree.
Proof.
  split; [compute_done|]. intros key attribute Hin Hentry.
  repeat (apply elem_of_cons in Hin as [->|Hin]);
    try (by apply not_elem_of_nil in Hin);
    vm_compute in Hentry; try discriminate.
  injection Hentry as <-. split; [compute_done|].
  intros files [= <-]. repeat constructor; by eexists.
Qed.

Lemma mapMetaToWebm_idempotent_witness :
  exists rewritten,
    mapMetaToWebm Host.meta_tree = Ok rewritten /\ mapMetaToWebm rewritten = Ok rewritten.
Proof. exact (mapMetaToWebm_idempotent Host.meta_tree meta_tree_metadata). Defined.

Lemma mapMetaToWebm_leaves_no_webp_witness :
  exists rewritten,
    mapMetaToWebm Host.meta_tree = Ok rewritten
    /\ Fs.entry "means" match rewritten with JObj top => top | _ => [] end
       = Some (JObj [("files", JArr [JStr "means_l.webm"; JStr "means_u.webm";
                                     JStr "notes.txt"]);
                     ("codebook", JNull)]).
Proof.
  destruct (mapMetaToWebm_leaves_no_webp Host.meta_tree meta_tree_metadata)
    as (rewritten & Hrun & _).
  exists rewritten. split; [exact Hrun|].
  vm_compute in Hrun. injection Hrun as <-. reflexivity.
Defined.

(** ** The steps of a run that completes *)

Lemma write_cons (name next : string) (rest : path) (data : string)
    (entries : list (string * node)) :
  Fs.write (name :: next :: rest) data (Dir entries)
  = match Fs.entry name entries with
    | Some child =>
        match Fs.write (next :: rest) data child with
        | Some child' => Some (Dir (Fs.set_entry name child' entries))
        | None => None
        end
    | None => None
    end.
Proof. done. Qed.

Lemma write_resolve (p : path) (data : string) :
  forall n n', Fs.write p data n = Some n' -> Fs.resolve p n' = Some (File data).
Proof.
  induction p as [|name rest IH]; intros n n' Hwrite; [done|].
  destruct n as [|entries|]; try by destruct rest.
  destruct rest as [|next rest].
  - simpl in Hwrite.
    assert (n' = Dir (Fs.set_entry name (File data) entries)) as ->
      by (destruct (Fs.entry name entries) as [[]|]; congruence).
    simpl. by rewrite entry_set_entry.
  - rewrite write_cons in Hwrite.
    destruct (Fs.entry name entries) as [child|]; [|done].
    destruct (Fs.write (next :: rest) data child) as [child'|] eqn:Hchild; [|done].
    injection Hwrite as <-. cbn [Fs.resolve]. rewrite entry_set_entry. by apply (IH child).
Qed.

Section Steps.

Variable localeCompare : string -> string -> Z.
Variable spawn : path -> list arg -> node -> child_outcome * node.
Variable ffmpeg_run : ffmpeg_job -> node -> result unit * node.
Variable JSON_parse : string -> option json.
Variable JSON_stringify : json -> string.

Local Abbreviation run' := (run localeCompare spawn ffmpeg_run JSON_parse JSON_stringify).

(** The steps of [main] when it returns. *)
Lemma main_ok_steps (opts : options) (disk : node) (splats : list splat) (w' : world) :
  run' opts disk = (Ok splats, w') ->
  let sogRoot := Path.join (output opts) "sog" in
  let sequenceRoot := Path.join (output opts) "sequences" in
  let videoRoot := Path.join (output opts) "videos" in
  exists w0 dwebpPath processed w1 st w2 w3 w4,
    trace w0 = []
    /\ (if negb (videosOnly opts)
        then convertAll localeCompare spawn opts sogRoot (converterArgs opts)
        else ret []) w0 = (Ok processed, w1)
    /\ (if negb (videosOnly opts) then buildSequences sequenceRoot processed
        else ret {| frameCounters := ∅; splatFrames := ∅ |}) w1 = (Ok st, w2)
    /\ encodeAll localeCompare spawn ffmpeg_run opts sequenceRoot videoRoot dwebpPath w2
       = (Ok tt, w3)
    /\ (if negb (videosOnly opts)
        then freshManifest JSON_parse JSON_stringify sequenceRoot videoRoot processed
               (splatFrames st)
        else rebuildManifest localeCompare JSON_parse JSON_stringify sogRoot videoRoot) w3
       = (Ok splats, w4)
    /\ w' = emit (EvConsole (LogVideos videoRoot)) w4.
Proof.
  intros Hrun. unfold run, main in Hrun.
  apply bind_inv in Hrun as [([] & wa & Ha & Hrun)|(e & _ & [=])].
  apply (emits_nothing _ _ _ _ (emits_checkInput _ _)) in Ha.
  apply bind_inv in Hrun as [([] & wb & Hb & Hrun)|(e & _ & [=])].
  apply (emits_nothing _ _ _ _ (emits_ensureDir _ _)) in Hb.
  apply bind_inv in Hrun as [([] & wc & Hc & Hrun)|(e & _ & [=])].
  apply (emits_nothing _ _ _ _ (emits_prepareOutput _ _ _)) in Hc.
  apply bind_inv in Hrun as [([] & wd & Hd & Hrun)|(e & _ & [=])].
  apply (emits_nothing _ _ _ _ (emits_ensureDir _ _)) in Hd.
  apply bind_inv in Hrun as [([] & we & He & Hrun)|(e & _ & [=])].
  apply (emits_nothing _ _ _ _ (emits_ensureDir _ _)) in He.
  apply bind_inv in Hrun as [([] & wf & Hf & Hrun)|(e & _ & [=])].
  apply (emits_nothing _ _ _ _ (emits_ensureDir _ _)) in Hf.
  apply bind_inv in Hrun as [(dwebpPath & w0 & H0 & Hrun)|(e & _ & [=])].
  apply (emits_nothing _ _ _ _ (emits_findExecutable _ _ _)) in H0.
  apply bind_inv in Hrun as [(processed & w1 & H1 & Hrun)|(e & _ & [=])].
  apply bind_inv in Hrun as [(st & w2 & H2 & Hrun)|(e & _ & [=])].
  apply bind_inv in Hrun as [([] & w3 & H3 & Hrun)|(e & _ & [=])].
  apply bind_inv in Hrun as [(splats' & w4 & H4 & Hrun)|(e & _ & [=])].
  apply bind_inv in Hrun as [([] & w5 & H5 & Hrun)|(e & _ & [=])].
  unfold console in H5. unfold ret in Hrun. simplify_eq.
  exists w0, dwebpPath, processed, w1, st, w2, w3, w4.
  split; [|done]. by rewrite H0, Hf, He, Hd, Hc, Hb, Ha.
Qed.

(** X13. When [main] returns, the file [manifest.json] in the [videos]
    folder holds [JSON.stringify] of the manifest with the entries the run
    has made, in either mode, and the closing line was the last thing
    printed. *)
Theorem manifest_is_written (opts : options) (disk : node) (splats : list splat)
    (w' : world) :
  run' opts disk = (Ok splats, w') ->
  let videoRoot := Path.join (output opts) "videos" in
  Fs.resolve (Path.join videoRoot "manifest.json") (fs w')
  = Some (File (JSON_stringify (manifest_json splats)))
  /\ List.last (trace w') (EvConsole (LogError "")) = EvConsole (LogVideos videoRoot).
Proof.
  intros Hrun videoRoot.
  destruct (main_ok_steps _ _ _ _ Hrun)
    as (w0 & dwebpPath & processed & w1 & st & w2 & w3 & w4 & _ & _ & _ & _ & H4 & ->).
  split; [|by apply last_last].
  cbn [fs emit]. destruct (negb (videosOnly opts)).
  - unfold freshManifest in H4.
    apply bind_inv in H4 as [(found & wa & _ & H4)|(e & _ & [=])].
    apply bind_inv in H4 as [([] & wb & Hwrite & H4)|(e & _ & [=])].
    apply bind_inv in H4 as [([] & wc & Hc & H4)|(e & _ & [=])].
    apply bind_inv in H4 as [([] & wd & Hd & H4)|(e & _ & [=])].
    unfold console in Hc, Hd. unfold ret in H4. simplify_eq. cbn [fs emit].
    unfold writeFile in Hwrite.
    destruct (Fs.write _ _ (fs wa)) as [n|] eqn:Hn; [|done].
    injection Hwrite as <-. by apply write_resolve in Hn.
  - unfold rebuildManifest in H4.
    apply bind_inv in H4 as [(found & wa & _ & H4)|(e & _ & [=])].
    apply bind_inv in H4 as [(found' & wb & _ & H4)|(e & _ & [=])].
    apply bind_inv in H4 as [([] & wc & Hwrite & H4)|(e & _ & [=])].
    unfold ret in H4. simplify_eq.
    unfold writeFile in Hwrite.
    destruct (Fs.write _ _ (fs wb)) as [n|] eqn:Hn; [|done].
    injection Hwrite as <-. by apply write_resolve in Hn.
Qed.

End Steps.

Lemma manifest_is_written_witness :
  exists splats w',
    Host.run (Host.opts false false) Host.disk_uneven = (Ok splats, w')
    /\ Fs.resolve ["out"; "videos"; "manifest.json"] (fs w') = Some (File "{}").
Proof.
  destruct (Host.run (Host.opts false false) Host.disk_uneven) as [r w'] eqn:Hrun.
  pose proof Hrun as Hval. vm_compute in Hval. injection Hval as <- <-.
  eexists _, _. split; [reflexivity|].
  exact (proj1 (manifest_is_written
                  Host.codeUnitCompare Host.spawn Host.ffmpeg Host.parse Host.stringify
                  (Host.opts false false) Host.disk_uneven _ _ Hrun)).
Defined.

(** ** The converter runs *)

Lemma conversions_app (xs ys : list event) :
  conversions (xs ++ ys) = conversions xs ++ conversions ys.
Proof. unfold conversions. apply omap_app. Qed.

Lemma conversions_none (events : list event) :
  Forall (fun e => is_build e \/ is_encode e \/ is_report e) events ->
  conversions events = [].
Proof.
  induction 1 as [|e events He _ IH]; [done|].
  change (e :: events) with ([e] ++ events). rewrite conversions_app, IH, app_nil_r.
  destruct e; try done. by destruct He as [[]|[[]|[]]].
Qed.

(** A computation whose result is known to satisfy [Q], followed by one
    that relies on it. *)
Lemma emits_bind_with {A B : Type} (P : event -> Prop) (Q : A -> Prop)
    (m : M A) (k : A -> M B) :
  (forall w a w', m w = (Ok a, w') -> Q a) ->
  emits P m -> (forall a, Q a -> emits P (k a)) -> emits P (bind m k).
Proof.
  intros HQ Hm Hk w r w' Hrun.
  apply bind_inv in Hrun as [(a & w1 & H1 & H2)|(e & H1 & _)].
  - destruct (Hm _ _ _ H1) as (n1 & E1 & F1).
    destruct (Hk a (HQ _ _ _ H1) _ _ _ H2) as (n2 & E2 & F2).
    exists (n1 ++ n2). rewrite E2, E1, app_assoc. split; [done|].
    by apply Forall_app.
  - eauto.
Qed.

Lemma emits_for_of_in {A S : Type} (P : event -> Prop) (xs : list A)
    (body : S -> A -> M S) :
  (forall s x, x ∈ xs -> emits P (body s x)) ->
  forall s, emits P (for_of xs body s).
Proof.
  induction xs as [|x xs IH]; intros Hbody s; [apply emits_ret|].
  cbn [for_of]. apply emits_bind.
  - apply Hbody, list_elem_of_here.
  - intros s'. apply IH. intros s'' y Hy. by apply Hbody, list_elem_of_further.
Qed.

(** The directory [uniqueDir] chooses is beside the one asked for. *)
Lemma uniqueDir_loop_beside (baseDir : path) (fuel : nat) :
  forall (candidate : path) (suffix : nat) (w w' : world) (chosen : path),
    uniqueDir_loop fuel baseDir candidate suffix w = (Ok chosen, w') ->
    chosen = candidate \/ exists text, chosen = Path.append_text baseDir text.
Proof.
  induction fuel as [|fuel IH]; intros candidate suffix w w' chosen Hrun;
    cbn [uniqueDir_loop] in Hrun;
    apply bind_inv in Hrun as [(taken & w1 & _ & Hrun)|(e & _ & [=])];
    (destruct taken; [|unfold ret in Hrun; left; congruence]).
  - done.
  - apply IH in Hrun as [->|Htext]; right; eauto.
Qed.

Lemma uniqueDir_beside (parent : path) (name : string) (w w' : world) (chosen : path) :
  uniqueDir (Path.join parent name) w = (Ok chosen, w') ->
  removelast chosen = parent.
Proof.
  unfold uniqueDir. intros Hrun.
  apply uniqueDir_loop_beside in Hrun as [->|[text ->]].
  - apply removelast_last.
  - rewrite append_text_split. unfold Path.join. by rewrite !removelast_last.
Qed.

Section Conversions.

Variable localeCompare : string -> string -> Z.
Variable spawn : path -> list arg -> node -> child_outcome * node.
Variable ffmpeg_run : ffmpeg_job -> node -> result unit * node.
Variable JSON_parse : string -> option json.
Variable JSON_stringify : json -> string.

Local Abbreviation run' := (run localeCompare spawn ffmpeg_run JSON_parse JSON_stringify).

(** What a converter run of [main] looks like. *)
Local Abbreviation converter_run opts exec fullArgs :=
  (exec = splatExec opts
   /\ exists inputDir name sogDir,
        input opts = Some inputDir
        /\ has_ext ".ply" name = true
        /\ removelast sogDir = Path.join (output opts) "sog"
        /\ fullArgs
           = map ArgText (converterArgs opts)
               ++ [ArgPath (Path.join inputDir name);
                   ArgPath (Path.join sogDir "meta.json")]).

Local Abbreviation well_run opts :=
  (fun e => match e with
            | EvSplatTransform exec fullArgs _ => converter_run opts exec fullArgs
            | _ => True
            end).




End Conversions.


Section Converted.

Variable localeCompare : string -> string -> Z.
Variable spawn : path -> list arg -> node -> child_outcome * node.
Variable ffmpeg_run : ffmpeg_job -> node -> result unit * node.
Variable JSON_parse : string -> option json.
Variable JSON_stringify : json -> string.

(** The converter run of a processed item. *)
Local Abbreviation conversion_of args item :=
  (map ArgText args
     ++ [ArgPath (plyPath item); ArgPath (Path.join (sogDir item) "meta.json")],
   ChildClose (Some 0%N)).

(** A round of the conversion loop that succeeds. *)
Lemma convertOne_ok (opts : options) (sogRoot : path) (args : list string)
    (processed processed' : list processed_item) (ply : path) (w w' : world) :
  convertOne spawn opts sogRoot args processed ply w = (Ok processed', w') ->
  exists item,
    processed' = processed ++ [item]
    /\ plyName item = Path.basename (plyPath item)
    /\ conversions (trace w') = conversions (trace w) ++ [conversion_of args item].
Proof.
  unfold convertOne. intros Hrun.
  apply bind_inv in Hrun as [(dir & w1 & H1 & Hrun)|(e & _ & [=])].
  apply (emits_nothing _ _ _ _ (emits_uniqueDir _ _)) in H1.
  apply bind_inv in Hrun as [([] & w2 & H2 & Hrun)|(e & _ & [=])].
  apply (emits_nothing _ _ _ _ (emits_ensureDir _ _)) in H2.
  apply bind_inv in Hrun as [([] & w3 & H3 & Hrun)|(e & _ & [=])].
  unfold ret in Hrun. injection Hrun as <- <-.
  eexists. split; [done|]. split; [done|]. cbn [plyPath sogDir].
  unfold runSplatTransform in H3. destruct (spawn _ _ (fs w2)) as [outcome n].
  destruct outcome as [e|[[|code]|]]; try done. injection H3 as <-.
  cbn [trace emit set_fs]. by rewrite conversions_app, H2, H1.
Qed.

Lemma convertLoop_ok (opts : options) (sogRoot : path) (args : list string)
    (plyFiles : list path) :
  forall (acc processed : list processed_item) (w w' : world),
    for_of plyFiles (convertOne spawn opts sogRoot args) acc w = (Ok processed, w') ->
    exists new,
      processed = acc ++ new
      /\ Forall (fun item => plyName item = Path.basename (plyPath item)) new
      /\ conversions (trace w')
         = conversions (trace w) ++ map (fun item => conversion_of args item) new.
Proof.
  induction plyFiles as [|ply plyFiles IH]; intros acc processed w w' Hrun;
    cbn [for_of] in Hrun.
  - unfold ret in Hrun. injection Hrun as <- <-. exists [].
    by rewrite !app_nil_r.
  - apply bind_inv in Hrun as [(acc1 & w1 & H1 & Hrun)|(e & _ & [=])].
    apply convertOne_ok in H1 as (item & -> & Hname & Hconv).
    apply IH in Hrun as (new & -> & Hnames & Hrest).
    exists (item :: new). rewrite <- app_assoc. split; [done|].
    split; [by constructor|]. rewrite Hrest, Hconv, <- app_assoc. done.
Qed.

(** X19. In a fresh conversion that completes, the manifest has one entry
    for each converter run, in the order of the runs; every run has ended
    with exit code 0, and each entry carries as [original] the file name of
    the [.ply] file its run was given. *)
Theorem manifest_lists_converted_files (opts : options) (disk : node)
    (splats : list splat) (w' : world) :
  videosOnly opts = false ->
  run localeCompare spawn ffmpeg_run JSON_parse JSON_stringify opts disk = (Ok splats, w') ->
  Forall2 (fun s conversion =>
             snd conversion = ChildClose (Some 0%N)
             /\ exists ply target,
                  fst conversion
                  = map ArgText (converterArgs opts) ++ [ArgPath ply; ArgPath target]
                  /\ original s = Path.basename ply)
          splats (conversions (trace w')).
Proof.
  intros Hfresh Hrun.
  destruct (main_ok_steps _ _ _ _ _ _ _ _ _ Hrun)
    as (w0 & dwebpPath & processed & w1 & st & w2 & w3 & w4
        & H0 & H1 & H2 & H3 & H4 & ->).
  rewrite Hfresh in H1, H2, H4. cbn [negb] in H1, H2, H4.
  assert (exists new,
             processed = new
             /\ Forall (fun item => plyName item = Path.basename (plyPath item)) new
             /\ conversions (trace w1)
                = map (fun item => conversion_of (converterArgs opts) item) new)
    as (new & -> & Hnames & Hconv).
  { unfold convertAll in H1. destruct (input opts) as [inputDir|]; [|done].
    apply bind_inv in H1 as [(plyFiles & wa & Ha & H1)|(e & _ & [=])].
    apply (emits_nothing _ _ _ _ (emits_listPlyFiles _ _ _)) in Ha.
    destruct (_ =? _)%nat; [done|].
    apply convertLoop_ok in H1 as (new & -> & Hnames & Hconv).
    rewrite Ha, H0 in Hconv. by exists new. }
  destruct (emits_buildSequences (fun e => is_build e \/ is_encode e \/ is_report e)
              _ _ (fun e H => or_introl H) _ _ _ H2) as (built & T2 & F2).
  destruct (emits_encodeAll localeCompare spawn ffmpeg_run
              (fun e => is_build e \/ is_encode e \/ is_report e)
              _ _ _ _ (fun e H => or_intror (or_introl H)) _ _ _ H3) as (encoded & T3 & F3).
  pose proof H4 as Hentries.
  destruct (emits_freshManifest JSON_parse JSON_stringify
              (fun e => is_build e \/ is_encode e \/ is_report e)
              _ _ _ _ (fun e H => or_intror (or_intror H)) _ _ _ H4)
    as (reported & T4 & F4).
  unfold freshManifest in Hentries.
  apply bind_inv in Hentries as [(splats0 & wa & Hdesc & Hentries)|(e & _ & [=])].
  apply describeItems_entries in Hdesc as (entries & Hsplats & Hall).
  apply bind_inv in Hentries as [([] & wb & _ & Hentries)|(e & _ & [=])].
  apply bind_inv in Hentries as [([] & wc & _ & Hentries)|(e & _ & [=])].
  apply bind_inv in Hentries as [([] & wd & _ & Hentries)|(e & _ & [=])].
  unfold ret in Hentries. injection Hentries as <- _. cbn [app] in Hsplats. subst splats0.
  cbn [trace emit]. rewrite T4, T3, T2, !conversions_app, Hconv.
  rewrite (conversions_none built), (conversions_none encoded), (conversions_none reported)
    by done.
  change (conversions [EvConsole _]) with (@nil (list arg * child_outcome)).
  rewrite !app_nil_r. apply Forall2_fmap_r, Forall2_same_length_lookup_2.
  - symmetry. by eapply Forall2_length.
  - intros i s item Hs Hitem.
    pose proof (Forall2_lookup_lr _ _ _ _ _ _ Hall Hitem Hs) as [Horig _].
    pose proof (proj1 (Forall_lookup _ _) Hnames i item Hitem) as Hname.
    cbn [fst snd]. split; [done|]. eexists _, _. split; [done|].
    by rewrite Horig, Hname.
Qed.

End Converted.

Lemma manifest_lists_converted_files_witness :
  exists splats w',
    Host.run (Host.opts false false) Host.disk_three = (Ok splats, w')
    /\ map original splats = ["a.ply"; "b.ply"; "c.PLY"]
    /\ length (conversions (trace w')) = length splats.
Proof.
  destruct (Host.run (Host.opts false false) Host.disk_three) as [r w'] eqn:Hrun.
  pose proof Hrun as Hval. vm_compute in Hval. injection Hval as <- <-.
  eexists _, _. split; [reflexivity|]. split; [reflexivity|].
  symmetry. eapply Forall2_length.
  exact (manifest_lists_converted_files
           Host.codeUnitCompare Host.spawn Host.ffmpeg Host.parse Host.stringify
           (Host.opts false false) Host.disk_three _ _ eq_refl Hrun).
Defined.

(** ** The order of what a run does *)

Lemma in_stages_nil (stages : list (event -> Prop)) : in_stages stages [].
Proof. induction stages as [|stage rest IH]; [done|]. by exists [], []. Qed.

Lemma in_stages_prepend (stage : event -> Prop) (rest : list (event -> Prop))
    (xs ys : list event) :
  Forall stage xs -> in_stages (stage :: rest) ys -> in_stages (stage :: rest) (xs ++ ys).
Proof.
  intros Hxs (now & later & -> & Hnow & Hlater).
  exists (xs ++ now), later. rewrite app_assoc. split; [done|].
  split; [by apply Forall_app | done].
Qed.

Lemma in_stages_skip (stage : event -> Prop) (rest : list (event -> Prop))
    (ys : list event) :
  in_stages rest ys -> in_stages (stage :: rest) ys.
Proof. intros Hys. by exists [], ys. Qed.

Section Order.

(** The new events of a computation fall into the given stages. *)
Local Abbreviation staged_run stages m :=
  (forall w r w', m w = (r, w') ->
     exists new, trace w' = trace w ++ new /\ in_stages stages new).

Lemma staged_bind {A B : Type} (stage : event -> Prop) (rest : list (event -> Prop))
    (m : M A) (k : A -> M B) :
  emits stage m ->
  (forall a, staged_run (stage :: rest) (k a)) ->
  staged_run (stage :: rest) (bind m k).
Proof.
  intros Hm Hk w r w' Hrun.
  apply bind_inv in Hrun as [(a & w1 & H1 & H2)|(e & H1 & _)].
  - destruct (Hm _ _ _ H1) as (n1 & E1 & F1).
    destruct (Hk a _ _ _ H2) as (n2 & E2 & F2).
    exists (n1 ++ n2). rewrite E2, E1, app_assoc. split; [done|].
    by apply in_stages_prepend.
  - destruct (Hm _ _ _ H1) as (n1 & E1 & F1).
    exists n1. split; [done|]. exists n1, []. rewrite app_nil_r.
    split; [done|]. split; [done | apply in_stages_nil].
Qed.

Lemma staged_skip {A : Type} (stage : event -> Prop) (rest : list (event -> Prop))
    (m : M A) :
  staged_run rest m -> staged_run (stage :: rest) m.
Proof.
  intros Hm w r w' Hrun. destruct (Hm _ _ _ Hrun) as (new & Htrace & Hnew).
  exists new. split; [done|]. by apply in_stages_skip.
Qed.

Variable localeCompare : string -> string -> Z.
Variable spawn : path -> list arg -> node -> child_outcome * node.
Variable ffmpeg_run : ffmpeg_job -> node -> result unit * node.
Variable JSON_parse : string -> option json.
Variable JSON_stringify : json -> string.

(** X18. Whatever its outcome, a run goes through its stages in order and
    never back: first all converter runs, then all copies of frames (with the
    mismatch warnings), then all encoding (ffmpeg, and dwebp with its
    warning), and last the lines of the report. *)
Theorem run_keeps_the_order_of_stages (opts : options) (disk : node)
    (r : result (list splat)) (w' : world) :
  run localeCompare spawn ffmpeg_run JSON_parse JSON_stringify opts disk = (r, w') ->
  in_stages [is_convert; is_build; is_encode; is_report] (trace w').
Proof.
  intros Hrun.
  assert (staged_run [is_convert; is_build; is_encode; is_report]
            (main localeCompare spawn ffmpeg_run JSON_parse JSON_stringify opts)) as Hmain.
  { unfold main.
    apply staged_bind; [apply emits_checkInput|]. intros _.
    apply staged_bind; [apply emits_ensureDir|]. intros _.
    apply staged_bind; [apply emits_prepareOutput|]. intros _.
    apply staged_bind; [apply emits_ensureDir|]. intros _.
    apply staged_bind; [apply emits_ensureDir|]. intros _.
    apply staged_bind; [apply emits_ensureDir|]. intros _.
    apply staged_bind; [apply emits_findExecutable|]. intros dwebpPath.
    apply staged_bind.
    { destruct (negb _); [by apply emits_convertAll | apply emits_ret]. }
    intros processed. apply staged_skip, staged_bind.
    { destruct (negb _); [by apply emits_buildSequences | apply emits_ret]. }
    intros st. apply staged_skip, staged_bind; [by apply emits_encodeAll|].
    intros _. apply staged_skip, staged_bind.
    { destruct (negb _); [by apply emits_freshManifest | apply emits_rebuildManifest]. }
    intros splats. apply staged_bind; [by apply emits_console|]. intros _.
    intros w r0 w0 Hret. unfold ret in Hret. injection Hret as _ <-.
    exists []. rewrite app_nil_r. split; [done | apply in_stages_nil]. }
  destruct (Hmain _ _ _ Hrun) as (new & Htrace & Hnew). by rewrite Htrace.
Qed.

End Order.

Lemma run_keeps_the_order_of_stages_witness :
  exists r w',
    Host.run (Host.opts false false) Host.disk_uneven = (r, w')
    /\ in_stages [is_convert; is_build; is_encode; is_report] (trace w').
Proof.
  destruct (Host.run (Host.opts false false) Host.disk_uneven) as [r w'] eqn:Hrun.
  exists r, w'. split; [reflexivity|].
  exact (run_keeps_the_order_of_stages
           Host.codeUnitCompare Host.spawn Host.ffmpeg Host.parse Host.stringify
           (Host.opts false false) Host.disk_uneven r w' Hrun).
Defined.

(** ** The encoding jobs *)

Section Jobs.

Variable localeCompare : string -> string -> Z.
Variable spawn : path -> list arg -> node -> child_outcome * node.
Variable ffmpeg_run : ffmpeg_job -> node -> result unit * node.
Variable JSON_parse : string -> option json.
Variable JSON_stringify : json -> string.

Lemma listSequenceFrames_names (sequenceDir : path) (w w' : world) (frames : list string) :
  listSequenceFrames localeCompare sequenceDir w = (Ok frames, w') ->
  forall fileName, fileName ∈ frames -> has_ext ".webp" fileName = true.
Proof.
  unfold listSequenceFrames. intros Hrun fileName Hin.
  apply bind_inv in Hrun as [(entries & w1 & _ & Hrun)|(e & _ & [=])].
  unfold ret in Hrun. injection Hrun as <- _.
  unfold sort_names in Hin. rewrite merge_sort_Permutation in Hin.
  apply list_elem_of_fmap in Hin as (entry & -> & Hentry).
  apply list_elem_of_In, filter_In in Hentry as [_ Hentry].
  by apply andb_true_iff in Hentry as [_ Hext].
Qed.

(** What an encoding job of [main] looks like: an ffmpeg run for the
    sequence [name], on its frames or on their PNG copies, and a dwebp run
    on a frame of a sequence. *)
Local Abbreviation ffmpeg_job_of opts job :=
  (job_fps job = fps opts /\ job_crf job = crf opts /\ job_gop job = gop opts
   /\ exists name,
        outputVideoPath job
        = Path.join (Path.join (output opts) "videos") (name +:+ ".webm")
        /\ let sequenceDir := Path.join (Path.join (output opts) "sequences") name in
           (inputPattern job = Path.join sequenceDir "frame_%05d.webp"
            \/ inputPattern job = Path.join (Path.join sequenceDir "_png") "frame_%05d.png")).

Local Abbreviation dwebp_job_of opts src dst :=
  (exists name fileName,
     has_ext ".webp" fileName = true
     /\ let sequenceDir := Path.join (Path.join (output opts) "sequences") name in
        src = Path.join sequenceDir fileName
        /\ dst = Path.join (Path.join sequenceDir "_png") (replace_webp ".png" fileName)).

Local Abbreviation well_encoded opts :=
  (fun e => match e with
            | EvFfmpeg job _ => ffmpeg_job_of opts job
            | EvDwebp _ src dst _ => dwebp_job_of opts src dst
            | _ => True
            end).

Lemma emits_encodeOne_jobs (opts : options) (dwebpPath : option path) (name : string) :
  emits (well_encoded opts)
    (encodeOne localeCompare spawn ffmpeg_run opts
       (Path.join (output opts) "sequences") (Path.join (output opts) "videos")
       dwebpPath name).
Proof.
  unfold encodeOne.
  apply emits_bind; [apply emits_listSequenceFrames|]. intros frames.
  destruct (_ =? _)%nat; [apply emits_ret|].
  unfold encodeSequenceToWebm. apply emits_try_catch.
  { apply emits_encodeWithFfmpeg. intros outcome. cbn.
    split; [done|]. split; [done|]. split; [done|]. exists name. split; [done | by left]. }
  intros e. destruct dwebpPath as [dwebp|]; [|apply emits_throw].
  apply emits_bind; [by apply emits_console|]. intros _.
  apply emits_bind.
  - unfold convertSequenceToPng.
    apply emits_bind; [apply emits_ensureDir|]. intros _.
    apply (emits_bind_with _
             (fun frameFiles : list string =>
                forall fileName, fileName ∈ frameFiles -> has_ext ".webp" fileName = true));
      [intros w a w' H; exact (listSequenceFrames_names _ _ _ _ H)
      | apply emits_listSequenceFrames|].
    intros frameFiles Hnames. unfold for_each.
    apply emits_for_of_in. intros _ fileName Hin.
    apply emits_runDwebp. intros outcome. exists name, fileName. cbn. auto.
  - intros _. apply emits_encodeWithFfmpeg. intros outcome. cbn.
    split; [done|]. split; [done|]. split; [done|]. exists name. split; [done | by right].
Qed.

(** X11. Every ffmpeg run that [main] starts encodes one sequence: it has
    the frame rate, CRF and GOP of the command line, writes
    [videos/<name>.webm], and reads the frames of [sequences/<name>], as
    [frame_%05d.webp] or, in the fallback, as [_png/frame_%05d.png]. Every
    dwebp run turns a frame of a sequence, a file whose name ends in
    [.webp], into the file of the same name with [.png] in the [_png] folder
    of that sequence. *)
Theorem encoding_jobs_are_well_formed (opts : options) (disk : node)
    (r : result (list splat)) (w' : world) :
  run localeCompare spawn ffmpeg_run JSON_parse JSON_stringify opts disk = (r, w') ->
  (forall job outcome,
      EvFfmpeg job outcome ∈ trace w' ->
      job_fps job = fps opts /\ job_crf job = crf opts /\ job_gop job = gop opts
      /\ exists name,
           outputVideoPath job
           = Path.join (Path.join (output opts) "videos") (name +:+ ".webm")
           /\ let sequenceDir := Path.join (Path.join (output opts) "sequences") name in
              (inputPattern job = Path.join sequenceDir "frame_%05d.webp"
               \/ inputPattern job
                  = Path.join (Path.join sequenceDir "_png") "frame_%05d.png"))
  /\ (forall dwebp src dst outcome,
        EvDwebp dwebp src dst outcome ∈ trace w' ->
        exists name fileName,
          has_ext ".webp" fileName = true
          /\ let sequenceDir := Path.join (Path.join (output opts) "sequences") name in
             src = Path.join sequenceDir fileName
             /\ dst = Path.join (Path.join sequenceDir "_png")
                        (replace_webp ".png" fileName)).
Proof.
  intros Hrun.
  assert (emits (well_encoded opts)
            (main localeCompare spawn ffmpeg_run JSON_parse JSON_stringify opts)) as Hemits.
  { unfold main.
    apply emits_bind; [apply emits_checkInput|]. intros _.
    apply emits_bind; [apply emits_ensureDir|]. intros _.
    apply emits_bind; [apply emits_prepareOutput|]. intros _.
    apply emits_bind; [apply emits_ensureDir|]. intros _.
    apply emits_bind; [apply emits_ensureDir|]. intros _.
    apply emits_bind; [apply emits_ensureDir|]. intros _.
    apply emits_bind; [apply emits_findExecutable|]. intros dwebpPath.
    apply emits_bind.
    { destruct (negb _); [by apply emits_convertAll | apply emits_ret]. }
    intros processed. apply emits_bind.
    { destruct (negb _); [|apply emits_ret]. apply emits_buildSequences. by intros []. }
    intros st. apply emits_bind.
    { unfold encodeAll. apply emits_bind; [apply emits_listSequenceDirs|]. intros dirs.
      apply emits_for_each. intros name. apply emits_encodeOne_jobs. }
    intros _. apply emits_bind.
    { destruct (negb _); [apply emits_freshManifest; by intros [] | apply emits_rebuildManifest]. }
    intros splats. apply emits_bind; [by apply emits_console | intros _; apply emits_ret]. }
  destruct (Hemits _ _ _ Hrun) as (new & Htrace & Hnew). cbn [trace app] in Htrace.
  rewrite Htrace. rewrite Forall_forall in Hnew.
  split; [intros job outcome Hin | intros dwebp src dst outcome Hin]; apply (Hnew _ Hin).
Qed.

End Jobs.

Lemma encoding_jobs_are_well_formed_witness :
  exists name,
    ["out"; "videos"; "shN.webm"] = Path.join ["out"; "videos"] (name +:+ ".webm")
    /\ (["out"; "sequences"; "shN"; "frame_%05d.webp"]
        = Path.join (Path.join ["out"; "sequences"] name) "frame_%05d.webp"
        \/ ["out"; "sequences"; "shN"; "frame_%05d.webp"]
           = Path.join (Path.join (Path.join ["out"; "sequences"] name) "_png")
               "frame_%05d.png").
Proof.
  destruct (Host.run (Host.opts false false) Host.disk_uneven) as [r w'] eqn:Hrun.
  pose proof Hrun as Hval. vm_compute in Hval. injection Hval as <- <-.
  refine (proj2 (proj2 (proj2 (proj1 (encoding_jobs_are_well_formed
            Host.codeUnitCompare Host.spawn Host.ffmpeg Host.parse Host.stringify
            (Host.opts false false) Host.disk_uneven _ _ Hrun)
          {| inputPattern := ["out"; "sequences"; "shN"; "frame_%05d.webp"];
             outputVideoPath := ["out"; "videos"; "shN.webm"];
             job_fps := 30; job_crf := 18; job_gop := 30 |} (Ok tt) _)))).
  simpl. repeat first [apply list_elem_of_here | apply list_elem_of_further].
Defined.

(** ** The transcode of the fallback *)

Section Fallback.

Variable localeCompare : string -> string -> Z.
Variable spawn : path -> list arg -> node -> child_outcome * node.

(** A dwebp run that ended with exit code 0. *)
Local Abbreviation converted_frame dwebpPath :=
  (fun e => exists src dst, e = EvDwebp dwebpPath src dst (ChildClose (Some 0%N))).

(** A dwebp run that failed, with the error it failed with. *)
Local Abbreviation failed_frame dwebpPath error :=
  (fun e =>
     exists src dst outcome,
       e = EvDwebp dwebpPath src dst outcome
       /\ (outcome = ChildError error
           \/ exists code,
                outcome = ChildClose code /\ code <> Some 0%N
                /\ error = Error ("dwebp failed with exit code " +:+ code_text code))).

Lemma runDwebp_outcome (dwebpPath src dst : path) (w : world) (r : result unit) (w' : world) :
  runDwebp spawn dwebpPath src dst w = (r, w') ->
  exists e,
    trace w' = trace w ++ [e]
    /\ match r with
       | Ok _ => converted_frame dwebpPath e
       | Err error => failed_frame dwebpPath error e
       end.
Proof.
  unfold runDwebp. destruct (spawn _ _ (fs w)) as [outcome n]. intros Hrun.
  exists (EvDwebp dwebpPath src dst outcome).
  destruct outcome as [e|[[|code]|]]; injection Hrun as <- <-; (split; [done|]).
  - exists src, dst, (ChildError e). split; [done | by left].
  - by exists src, dst.
  - exists src, dst, (ChildClose (Some (N.pos code))). split; [done|]. right.
    by exists (Some (N.pos code)).
  - exists src, dst, (ChildClose None). split; [done|]. right. by exists None.
Qed.

Lemma dwebp_loop (dwebpPath sequenceDir pngDir : path) (frames : list string) :
  forall (w : world) (r : result unit) (w' : world),
    for_each frames
      (fun fileName =>
         runDwebp spawn dwebpPath (Path.join sequenceDir fileName)
           (Path.join pngDir (replace_webp ".png" fileName))) w = (r, w') ->
    exists events,
      trace w' = trace w ++ events
      /\ match r with
         | Ok _ => Forall (converted_frame dwebpPath) events
                   /\ length events = length frames
         | Err error =>
             exists before last,
               events = before ++ [last]
               /\ Forall (converted_frame dwebpPath) before
               /\ failed_frame dwebpPath error last
               /\ (length before < length frames)%nat
         end.
Proof.
  unfold for_each. induction frames as [|fileName frames IH]; intros w r w' Hrun;
    cbn [for_of] in Hrun.
  - unfold ret in Hrun. injection Hrun as <- <-. exists []. by rewrite app_nil_r.
  - apply bind_inv in Hrun as [([] & w1 & H1 & Hrun)|(error & H1 & ->)].
    + apply runDwebp_outcome in H1 as (e & T1 & He).
      apply IH in Hrun as (events & T2 & Hevents).
      exists (e :: events). rewrite T2, T1, <- app_assoc. split; [done|].
      destruct r as [[]|error].
      * destruct Hevents as [Hall Hlen]. split; [by constructor | simpl; lia].
      * destruct Hevents as (before & last & -> & Hbefore & Hlast & Hlen).
        exists (e :: before), last. split; [done|]. split; [by constructor|].
        split; [done | simpl; lia].
    + apply runDwebp_outcome in H1 as (e & T1 & He).
      exists [e]. split; [done|]. exists [], e. split; [done|].
      split; [constructor|]. split; [done | simpl; lia].
Qed.

(** X12. The transcode of the fallback runs dwebp on the frames one after
    the other and stops at the first run that fails: when it returns, every
    run has ended with exit code 0; when it fails, either no dwebp was run
    (the [_png] folder or the frame list could not be had), or every run but
    the last has ended with exit code 0 and the last one has failed, with
    the error of the child or with [dwebp failed with exit code] and the
    code, which is the error of the transcode. *)
Theorem convertSequenceToPng_stops_at_first_failure
    (sequenceDir pngDir dwebpPath : path) (w : world) (r : result unit) (w' : world) :
  convertSequenceToPng localeCompare spawn sequenceDir pngDir dwebpPath w = (r, w') ->
  exists events,
    trace w' = trace w ++ events
    /\ match r with
       | Ok _ =>
           Forall (fun e => exists src dst,
                      e = EvDwebp dwebpPath src dst (ChildClose (Some 0%N))) events
       | Err error =>
           events = []
           \/ exists before src dst outcome,
                events = before ++ [EvDwebp dwebpPath src dst outcome]
                /\ Forall (fun e => exists src dst,
                             e = EvDwebp dwebpPath src dst (ChildClose (Some 0%N))) before
                /\ (outcome = ChildError error
                    \/ exists code,
                         outcome = ChildClose code /\ code <> Some 0%N
                         /\ error = Error ("dwebp failed with exit code "
                                             +:+ code_text code))
       end.
Proof.
  unfold convertSequenceToPng. intros Hrun.
  apply bind_inv in Hrun as [([] & w1 & H1 & Hrun)|(error & H1 & ->)].
  2:{ apply (emits_nothing _ _ _ _ (emits_ensureDir _ _)) in H1.
      exists []. rewrite app_nil_r. split; [done | by left]. }
  apply (emits_nothing _ _ _ _ (emits_ensureDir _ _)) in H1.
  apply bind_inv in Hrun as [(frames & w2 & H2 & Hrun)|(error & H2 & ->)].
  2:{ apply (emits_nothing _ _ _ _ (emits_listSequenceFrames _ _ _)) in H2.
      exists []. rewrite app_nil_r, H2. split; [done | by left]. }
  apply (emits_nothing _ _ _ _ (emits_listSequenceFrames _ _ _)) in H2.
  apply dwebp_loop in Hrun as (events & T & Hevents).
  exists events. rewrite T, H2, H1. split; [done|].
  destruct r as [[]|error]; [by destruct Hevents|].
  destruct Hevents as (before & last & -> & Hbefore & (src & dst & outcome & -> & Hwhy) & _).
  right. by exists before, src, dst, outcome.
Qed.

End Fallback.

Lemma convertSequenceToPng_stops_at_first_failure_witness :
  exists w' events,
    convertSequenceToPng Host.codeUnitCompare Host.dwebp_fails ["seq"] ["seq"; "_png"]
      ["bin"; "dwebp"] {| fs := Host.disk_sequence; trace := [] |}
    = (Err (Error "dwebp failed with exit code 3"), w')
    /\ trace w' = events
    /\ length events = 2%nat.
Proof.
  destruct (convertSequenceToPng Host.codeUnitCompare Host.dwebp_fails ["seq"]
              ["seq"; "_png"] ["bin"; "dwebp"] {| fs := Host.disk_sequence; trace := [] |})
    as [r w'] eqn:Hrun.
  destruct (convertSequenceToPng_stops_at_first_failure _ _ _ _ _ _ _ _ Hrun)
    as (events & Htrace & _).
  vm_compute in Hrun. injection Hrun as <- <-.
  eexists _, events. split; [reflexivity|]. split; [exact Htrace|].
  vm_compute in Htrace. rewrite <- Htrace. reflexivity.
Defined.

(** ** The copies of frames *)

Lemma last_app_ne {A : Type} (xs ys : list A) (d : A) :
  ys <> [] -> List.last (xs ++ ys) d = List.last ys d.
Proof.
  intros Hys. induction xs as [|x xs IH]; [done|].
  rewrite <- app_comm_cons, last_cons_ne; [done|]. by destruct xs, ys.
Qed.

Section Copies.

Variable localeCompare : string -> string -> Z.
Variable spawn : path -> list arg -> node -> child_outcome * node.
Variable ffmpeg_run : ffmpeg_job -> node -> result unit * node.
Variable JSON_parse : string -> option json.
Variable JSON_stringify : json -> string.

Local Abbreviation run' := (run localeCompare spawn ffmpeg_run JSON_parse JSON_stringify).

(** X20. In a fresh conversion that completes, the manifest entry of an
    object has the frame [null] exactly when no frame was copied for that
    object, that is when its SOG output held no image. *)
Theorem manifest_frame_null_iff_no_image (opts : options) (disk : node)
    (splats : list splat) (w' : world) (s : splat) :
  videosOnly opts = false ->
  run' opts disk = (Ok splats, w') ->
  s ∈ splats ->
  frame s = None <-> forall src dst, EvCopy (original s) src dst ∉ trace w'.
Proof.
  intros Hfresh Hrun Hs.
  destruct (run_fresh_stages _ _ _ _ _ _ _ _ _ Hfresh Hrun)
    as (processed & blocks & converted & later & Hconv & _ & Htrace & Hlater & Hentries).
  cbv zeta in Htrace, Hentries.
  destruct (place_all _ _ _) as [st events] eqn:Hbuilt in Htrace, Hentries.
  cbn [fst snd] in Htrace, Hentries.
  apply list_elem_of_lookup in Hs as [i Hi].
  destruct (Forall2_lookup_r _ _ _ _ _ Hentries Hi) as (item & _ & Horig & Hframe).
  rewrite Hframe, Horig.
  pose proof (place_all_first _ _ _ _ _ (plyName item) Hbuilt (lookup_empty _)) as Hfirst.
  assert (forall src dst,
             EvCopy (plyName item) src dst ∈ trace w'
             <-> EvCopy (plyName item) src dst ∈ events) as Hcopies.
  { intros src dst. rewrite Htrace, !elem_of_app. split; [|auto].
    intros [Hin|[Hin|Hin]]; [|done|].
    - by destruct (no_copy_not_elem _ _ _ _ (convert_no_copy _ Hconv) Hin).
    - by destruct (no_copy_not_elem _ _ _ _ (later_no_copy _ Hlater) Hin). }
  destruct (splatFrames st !! plyName item) as [expected|].
  - destruct Hfirst as (pre & src & post & -> & _). split; [done|].
    intros Hnone. exfalso. eapply Hnone. apply Hcopies.
    apply elem_of_app. right. apply list_elem_of_here.
  - split; [|done]. intros _ src dst Hin. apply Hcopies in Hin.
    rewrite Forall_forall in Hfirst. by apply (Hfirst _ Hin src dst).
Qed.

Lemma convertLoop_beside (opts : options) (sogRoot : path) (args : list string)
    (plyFiles : list path) :
  forall (acc processed : list processed_item) (w w' : world),
    for_of plyFiles (convertOne spawn opts sogRoot args) acc w = (Ok processed, w') ->
    Forall (fun item => removelast (sogDir item) = sogRoot) acc ->
    Forall (fun item => removelast (sogDir item) = sogRoot) processed.
Proof.
  induction plyFiles as [|ply plyFiles IH]; intros acc processed w w' Hrun Hacc;
    cbn [for_of] in Hrun.
  - unfold ret in Hrun. by injection Hrun as <- _.
  - apply bind_inv in Hrun as [(acc1 & w1 & H1 & Hrun)|(e & _ & [=])].
    apply (IH _ _ _ _ Hrun). unfold convertOne in H1.
    apply bind_inv in H1 as [(dir & wa & Ha & H1)|(e & _ & [=])].
    apply uniqueDir_beside in Ha.
    apply bind_inv in H1 as [([] & wb & _ & H1)|(e & _ & [=])].
    apply bind_inv in H1 as [([] & wc & _ & H1)|(e & _ & [=])].
    unfold ret in H1. injection H1 as <- _.
    apply Forall_app. split; [done|]. by repeat constructor.
Qed.

(** What a copy of [main] looks like. *)
Local Abbreviation copy_of opts src dst :=
  ((exists index,
       dst = Path.join (Path.join (Path.join (output opts) "sequences")
                                  (sequenceNameOf src))
                       (frameName index))
   /\ has_ext ".webp" (Path.basename src) = true
   /\ exists sogDir rel,
        src = sogDir ++ rel /\ rel <> []
        /\ removelast sogDir = Path.join (output opts) "sog").

Local Abbreviation well_copied opts :=
  (fun e => match e with
            | EvCopy _ src dst => copy_of opts src dst
            | _ => True
            end).

Lemma emits_buildSequences_copies (opts : options) (processed : list processed_item) :
  Forall (fun item => removelast (sogDir item) = Path.join (output opts) "sog") processed ->
  emits (well_copied opts)
    (buildSequences (Path.join (output opts) "sequences") processed).
Proof.
  intros Hbeside. unfold buildSequences. apply emits_for_of_in. intros st item Hitem.
  rewrite Forall_forall in Hbeside. specialize (Hbeside item Hitem).
  apply (emits_bind_with _
           (fun webps : list path =>
              forall p, p ∈ webps ->
                exists rel, rel <> [] /\ p = sogDir item ++ rel
                            /\ has_ext ".webp" (List.last rel "") = true)).
  - intros w webps w1 Hwalk p Hp. unfold walkForWebp in Hwalk.
    apply bind_inv in Hwalk as [(entries & w2 & _ & Hwalk)|(e & _ & [=])].
    unfold ret in Hwalk. injection Hwalk as <- _.
    apply (walk_entries_spec (Dir entries)) in Hp as (rel & data & Hrel & -> & _ & Hext).
    eauto.
  - apply emits_walkForWebp.
  - intros webps Hwebps. apply emits_for_of_in. intros st' webpPath Hin.
    destruct (Hwebps _ Hin) as (rel & Hrel & -> & Hext).
    unfold placeFrame.
    apply emits_bind; [apply emits_ensureDir|]. intros _.
    apply emits_bind.
    { apply emits_copyFile. split; [by eexists|].
      split; [unfold Path.basename; by rewrite last_app_ne|].
      by exists (sogDir item), rel. }
    intros _.
    destruct (splatFrames st' !! plyName item) as [expected|]; [|apply emits_ret].
    destruct (decide _); [apply emits_ret|].
    apply emits_bind; [by apply emits_console | intros _; apply emits_ret].
Qed.

(** X21. Every copy that [main] makes takes an image, a file whose name
    ends in [.webp], and puts it as [frame_NNNNN.webp] into the folder under
    [sequences] that is named after the image, when that name is a proper
    component: an image called [..webp] has the name [.], which [path.join]
    does not append. The image is from below a directory directly under the
    [sog] folder when the name of its object without the extension is a
    proper component. *)
Theorem copies_are_well_formed (opts : options) (disk : node)
    (r : result (list splat)) (w' : world) (owner : string) (src dst : path) :
  run' opts disk = (r, w') ->
  EvCopy owner src dst ∈ trace w' ->
  has_ext ".webp" (Path.basename src) = true
  /\ (Path.proper (sequenceNameOf src) = true ->
      exists index,
        dst = Path.join (Path.join (Path.join (output opts) "sequences")
                                   (sequenceNameOf src))
                        (frameName index))
  /\ (Path.proper (Path.basename_ext [owner] (Path.extname [owner])) = true ->
      exists sogDir rel,
        src = sogDir ++ rel /\ rel <> []
        /\ removelast sogDir = Path.join (output opts) "sog").
Proof.
  intros Hrun Hin.
  assert (well_copied opts (EvCopy owner src dst)) as (Hdst & Hext & Hsrc);
    [|by split; [|split]].
  assert (emits (well_copied opts)
            (main localeCompare spawn ffmpeg_run JSON_parse JSON_stringify opts)) as Hemits.
  { unfold main.
    apply emits_bind; [apply emits_checkInput|]. intros _.
    apply emits_bind; [apply emits_ensureDir|]. intros _.
    apply emits_bind; [apply emits_prepareOutput|]. intros _.
    apply emits_bind; [apply emits_ensureDir|]. intros _.
    apply emits_bind; [apply emits_ensureDir|]. intros _.
    apply emits_bind; [apply emits_ensureDir|]. intros _.
    apply emits_bind; [apply emits_findExecutable|]. intros dwebpPath.
    apply (emits_bind_with _
             (fun processed : list processed_item =>
                Forall (fun item => removelast (sogDir item)
                                    = Path.join (output opts) "sog") processed)).
    { intros w processed w1 Hconv. destruct (negb _).
      - unfold convertAll in Hconv. destruct (input opts) as [inputDir|]; [|done].
        apply bind_inv in Hconv as [(plyFiles & wa & _ & Hconv)|(e & _ & [=])].
        destruct (_ =? _)%nat; [done|]. by apply convertLoop_beside in Hconv.
      - unfold ret in Hconv. by injection Hconv as <- _. }
    { destruct (negb _); [by apply emits_convertAll | apply emits_ret]. }
    intros processed Hbeside. apply emits_bind.
    { destruct (negb _); [by apply emits_buildSequences_copies | apply emits_ret]. }
    intros st. apply emits_bind; [apply emits_encodeAll; by intros []|]. intros _.
    apply emits_bind.
    { destruct (negb _); [apply emits_freshManifest; by intros [] | apply emits_rebuildManifest]. }
    intros splats. apply emits_bind; [by apply emits_console | intros _; apply emits_ret]. }
  destruct (Hemits _ _ _ Hrun) as (new & Htrace & Hnew). cbn [trace app] in Htrace.
  rewrite Htrace in Hin. rewrite Forall_forall in Hnew. apply (Hnew _ Hin).
Qed.

End Copies.

Lemma manifest_frame_null_iff_no_image_witness :
  exists splats w' s,
    Host.run (Host.opts false false) Host.disk_bare = (Ok splats, w')
    /\ splats !! 0%nat = Some s
    /\ original s = "a.ply"
    /\ (frame s = None <-> forall src dst, EvCopy (original s) src dst ∉ trace w').
Proof.
  destruct (Host.run (Host.opts false false) Host.disk_bare) as [r w'] eqn:Hrun.
  pose proof Hrun as Hval. vm_compute in Hval. injection Hval as <- <-.
  eexists _, _, _. split; [reflexivity|]. split; [reflexivity|]. split; [reflexivity|].
  refine (manifest_frame_null_iff_no_image
            Host.codeUnitCompare Host.spawn Host.ffmpeg Host.parse Host.stringify
            (Host.opts false false) Host.disk_bare _ _ _ eq_refl Hrun _).
  apply list_elem_of_here.
Defined.

Lemma copies_are_well_formed_witness :
  exists index,
    ["out"; "sequences"; "shN"; "frame_00000.webp"]
    = Path.join (Path.join ["out"; "sequences"]
                           (sequenceNameOf ["out"; "sog"; "b"; "shN.webp"]))
                (frameName index).
Proof.
  destruct (Host.run (Host.opts false false) Host.disk_uneven) as [r w'] eqn:Hrun.
  pose proof Hrun as Hval. vm_compute in Hval. injection Hval as <- <-.
  refine (proj1 (proj2 (copies_are_well_formed
                   Host.codeUnitCompare Host.spawn Host.ffmpeg Host.parse Host.stringify
                   (Host.opts false false) Host.disk_uneven _ _ "b.ply"
                   ["out"; "sog"; "b"; "shN.webp"]
                   ["out"; "sequences"; "shN"; "frame_00000.webp"] Hrun _)) eq_refl).
  simpl. repeat first [apply list_elem_of_here | apply list_elem_of_further].
Defined.

(** ** The output directories of the conversions *)

(** [mkdir -p] keeps what exists and makes its directory exist. *)
Lemma mkdir_p_keeps (p : path) :
  forall (n n' : node) (q : path),
    Fs.mkdir_p p n = Some n' ->
    is_Some (Fs.resolve q n) -> is_Some (Fs.resolve q n').
Proof.
  induction p as [|name rest IH]; intros n n' q Hmk Hq.
  - destruct n; simpl in Hmk; by simplify_eq.
  - destruct n as [|entries|]; simpl in Hmk; try done.
    destruct q as [|a q]; [done|]. simpl in Hq |- *.
    destruct (Fs.entry a entries) as [c|] eqn:Ha; [|by destruct Hq].
    destruct (Fs.entry name entries) as [child|] eqn:Hname.
    + destruct (Fs.mkdir_p rest child) as [child'|] eqn:Hchild; [|done].
      injection Hmk as <-. simpl.
      destruct (String.eqb_spec a name) as [->|Hne].
      * rewrite entry_set_entry. rewrite Hname in Ha. injection Ha as <-.
        by apply (IH child).
      * by rewrite entry_set_entry_ne, Ha.
    + destruct (Fs.mkdir_p rest (Dir [])) as [child'|] eqn:Hchild; [|done].
      injection Hmk as <-. simpl.
      destruct (String.eqb_spec a name) as [->|Hne]; [congruence|].
      by rewrite entry_set_entry_ne, Ha.
Qed.

Lemma mkdir_p_creates (p : path) :
  forall (n n' : node), Fs.mkdir_p p n = Some n' -> is_Some (Fs.resolve p n').
Proof.
  induction p as [|name rest IH]; intros n n' Hmk; [done|].
  destruct n as [|entries|]; simpl in Hmk; try done.
  destruct (Fs.entry name entries) as [child|].
  - destruct (Fs.mkdir_p rest child) as [child'|] eqn:Hchild; [|done].
    injection Hmk as <-. simpl. rewrite entry_set_entry. by apply (IH child).
  - destruct (Fs.mkdir_p rest (Dir [])) as [child'|] eqn:Hchild; [|done].
    injection Hmk as <-. simpl. rewrite entry_set_entry. by apply (IH (Dir [])).
Qed.

(** [uniqueDir] returns a path that does not exist, and changes nothing. *)
Lemma uniqueDir_loop_free (baseDir : path) (fuel : nat) :
  forall (candidate : path) (suffix : nat) (w w' : world) (chosen : path),
    uniqueDir_loop fuel baseDir candidate suffix w = (Ok chosen, w') ->
    w' = w /\ Fs.resolve chosen (fs w) = None.
Proof.
  induction fuel as [|fuel IH]; intros candidate suffix w w' chosen Hrun;
    cbn [uniqueDir_loop] in Hrun; unfold bind at 1 in Hrun; unfold pathExists at 1 in Hrun;
    destruct (Fs.resolve candidate (fs w)) eqn:Hcandidate;
    try (unfold ret in Hrun; injection Hrun as <- <-; done).
  - done.
  - by apply IH in Hrun.
Qed.

Lemma uniqueDir_loop_same (baseDir : path) (fuel : nat) :
  forall (candidate : path) (suffix : nat) (w w' : world) (r : result path),
    uniqueDir_loop fuel baseDir candidate suffix w = (r, w') -> w' = w.
Proof.
  induction fuel as [|fuel IH]; intros candidate suffix w w' r Hrun;
    cbn [uniqueDir_loop] in Hrun; unfold bind at 1 in Hrun; unfold pathExists at 1 in Hrun;
    destruct (Fs.resolve candidate (fs w)) eqn:Hcandidate;
    rewrite ?Hcandidate in Hrun; cbv beta iota in Hrun;
    try (unfold ret, throw in Hrun; by simplify_eq).
  by apply IH in Hrun.
Qed.

(** Writing a file keeps what exists. *)
Lemma write_keeps (p : path) (data : string) :
  forall (n n' : node) (q : path),
    Fs.write p data n = Some n' ->
    is_Some (Fs.resolve q n) -> is_Some (Fs.resolve q n').
Proof.
  induction p as [|name rest IH]; intros n n' q Hwrite Hq; [done|].
  destruct n as [|entries|]; try by destruct rest.
  destruct q as [|a q]; [done|]. simpl in Hq.
  destruct (Fs.entry a entries) as [c|] eqn:Ha; [|by destruct Hq].
  destruct rest as [|next rest].
  - simpl in Hwrite.
    assert (n' = Dir (Fs.set_entry name (File data) entries)
            /\ forall sub, Fs.entry name entries <> Some (Dir sub)) as [-> Hfile]
      by (destruct (Fs.entry name entries) as [[]|]; by simplify_eq).
    simpl. destruct (String.eqb_spec a name) as [->|Hne].
    + rewrite entry_set_entry.
      destruct c as [d|sub|]; [|by destruct (Hfile sub)|]; by destruct q.
    + by rewrite entry_set_entry_ne, Ha.
  - rewrite write_cons in Hwrite.
    destruct (Fs.entry name entries) as [child|] eqn:Hname; [|done].
    destruct (Fs.write (next :: rest) data child) as [child'|] eqn:Hchild; [|done].
    injection Hwrite as <-. simpl.
    destruct (String.eqb_spec a name) as [->|Hne].
    + rewrite entry_set_entry. rewrite Hname in Ha. injection Ha as <-.
      by apply (IH child).
    + by rewrite entry_set_entry_ne, Ha.
Qed.

Lemma or_same_keeps (p : path) (data : string) (n : node) (q : path) :
  is_Some (Fs.resolve q n) ->
  is_Some (Fs.resolve q (Host.or_same n (Fs.write p data n))).
Proof.
  intros Hq. destruct (Fs.write p data n) as [n'|] eqn:Hwrite; [|done].
  by apply (write_keeps _ _ _ _ _ Hwrite).
Qed.

(** The converter of the concrete host removes nothing. *)
Lemma host_spawn_keeps (exec : path) (args : list arg) (n : node) (q : path) :
  is_Some (Fs.resolve q n) -> is_Some (Fs.resolve q (snd (Host.spawn exec args n))).
Proof.
  intros Hq. unfold Host.spawn.
  repeat match goal with
         | |- context [match ?x with _ => _ end] => destruct x
         end;
    cbn [snd]; repeat apply or_same_keeps; exact Hq.
Qed.

Section Distinct.

Variable localeCompare : string -> string -> Z.
Variable spawn : path -> list arg -> node -> child_outcome * node.
Variable ffmpeg_run : ffmpeg_job -> node -> result unit * node.
Variable JSON_parse : string -> option json.
Variable JSON_stringify : json -> string.

(** The converter removes nothing. *)
Hypothesis spawn_keeps :
  forall exec args n q,
    is_Some (Fs.resolve q n) -> is_Some (Fs.resolve q (snd (spawn exec args n))).

(** The last argument of each converter run: where it writes. *)
Local Abbreviation outputs events :=
  (map (fun conversion : list arg * child_outcome => List.last (fst conversion) (ArgText ""))
       (conversions events)).

(** The outputs so far are distinct, and each is the [meta.json] of a
    directory that exists. *)
Local Abbreviation apart w :=
  (NoDup (outputs (trace w))
   /\ forall output, output ∈ outputs (trace w) ->
        exists dir, output = ArgPath (Path.join dir "meta.json")
                    /\ is_Some (Fs.resolve dir (fs w))).

Lemma convertOne_apart (opts : options) (sogRoot : path) (args : list string)
    (processed : list processed_item) (ply : path) (w : world)
    (r : result (list processed_item)) (w' : world) :
  apart w ->
  convertOne spawn opts sogRoot args processed ply w = (r, w') ->
  apart w'.
Proof.
  intros [Hnodup Hexist] Hrun. unfold convertOne in Hrun.
  apply bind_inv in Hrun as [(dir & w1 & H1 & Hrun)|(e & H1 & _)].
  2:{ by apply uniqueDir_loop_same in H1 as ->. }
  apply uniqueDir_loop_free in H1 as [-> Hfree].
  apply bind_inv in Hrun as [([] & w2 & H2 & Hrun)|(e & H2 & _)].
  2:{ unfold ensureDir, throw in H2. destruct (Fs.mkdir_p dir (fs w)); by simplify_eq. }
  unfold ensureDir in H2. destruct (Fs.mkdir_p dir (fs w)) as [n|] eqn:Hmk; [|done].
  injection H2 as <-.
  assert (exists outcome,
             w' = emit (EvSplatTransform (splatExec opts)
                          (map ArgText args
                             ++ [ArgPath ply; ArgPath (Path.join dir "meta.json")]) outcome)
                    (set_fs (snd (spawn (splatExec opts)
                                    (map ArgText args
                                       ++ [ArgPath ply; ArgPath (Path.join dir "meta.json")])
                                    n)) w)) as [outcome ->].
  { apply bind_inv in Hrun as [([] & w3 & H3 & Hrun)|(e & H3 & _)];
      unfold runSplatTransform in H3; cbn [fs set_fs] in H3;
      destruct (spawn _ _ n) as [outcome n'];
      exists outcome; unfold ret in *; destruct outcome as [e'|[[|code]|]]; by simplify_eq. }
  cbn [trace emit set_fs fs].
  rewrite conversions_app, map_app.
  change (outputs [EvSplatTransform ?exec ?fullArgs ?outcome])
    with [List.last fullArgs (ArgText "")].
  rewrite last_app_ne by done. cbn [List.last].
  split.
  - apply NoDup_app. split; [done|]. split; [|apply NoDup_singleton].
    intros output Hin ->%list_elem_of_singleton.
    destruct (Hexist _ Hin) as (dir' & [= Heq] & Hthere).
    apply app_inj_tail in Heq as [<- _]. rewrite Hfree in Hthere. by destruct Hthere.
  - intros output [Hin | ->%list_elem_of_singleton]%elem_of_app.
    + destruct (Hexist _ Hin) as (dir' & -> & Hthere). exists dir'. split; [done|].
      apply spawn_keeps. by apply (mkdir_p_keeps _ _ _ _ Hmk).
    + exists dir. split; [done|]. apply spawn_keeps. by apply (mkdir_p_creates _ _ _ Hmk).
Qed.

Lemma convertLoop_apart (opts : options) (sogRoot : path) (args : list string)
    (plyFiles : list path) :
  forall (acc : list processed_item) (w : world) (r : result (list processed_item))
         (w' : world),
    apart w ->
    for_of plyFiles (convertOne spawn opts sogRoot args) acc w = (r, w') ->
    apart w'.
Proof.
  induction plyFiles as [|ply plyFiles IH]; intros acc w r w' Hw Hrun; cbn [for_of] in Hrun.
  - unfold ret in Hrun. by injection Hrun as _ <-.
  - apply bind_inv in Hrun as [(acc1 & w1 & H1 & Hrun)|(e & H1 & _)].
    + apply (IH _ _ _ _ (convertOne_apart _ _ _ _ _ _ _ _ Hw H1) Hrun).
    + apply (convertOne_apart _ _ _ _ _ _ _ _ Hw H1).
Qed.

(** X22. If the converter removes nothing, no two converter runs of a run
    of [main] are given the same output: their last arguments, the
    [meta.json] each is to write, are pairwise distinct, also for inputs
    whose names differ only in the case of the extension. *)
Theorem converter_outputs_are_distinct (opts : options) (disk : node)
    (r : result (list splat)) (w' : world) :
  run localeCompare spawn ffmpeg_run JSON_parse JSON_stringify opts disk = (r, w') ->
  NoDup (map (fun conversion : list arg * child_outcome =>
                List.last (fst conversion) (ArgText ""))
             (conversions (trace w'))).
Proof.
  intros Hrun. unfold run, main in Hrun.
  assert (trace {| fs := disk; trace := [] |} = []) as Ht by done.
  revert Hrun Ht. generalize {| fs := disk; trace := [] |}. intros w Hrun Ht.
  apply bind_inv in Hrun as [([] & wa & H & Hrun)|(e & H & _)];
    apply (emits_nothing _ _ _ _ (emits_checkInput _ _)) in H; rewrite Ht in H;
    [clear Ht w; rename H into Ht | rewrite H; constructor].
  apply bind_inv in Hrun as [([] & wb & H & Hrun)|(e & H & _)];
    apply (emits_nothing _ _ _ _ (emits_ensureDir _ _)) in H; rewrite Ht in H;
    [clear Ht wa; rename H into Ht | rewrite H; constructor].
  apply bind_inv in Hrun as [([] & wc & H & Hrun)|(e & H & _)];
    apply (emits_nothing _ _ _ _ (emits_prepareOutput _ _ _)) in H; rewrite Ht in H;
    [clear Ht wb; rename H into Ht | rewrite H; constructor].
  apply bind_inv in Hrun as [([] & wd & H & Hrun)|(e & H & _)];
    apply (emits_nothing _ _ _ _ (emits_ensureDir _ _)) in H; rewrite Ht in H;
    [clear Ht wc; rename H into Ht | rewrite H; constructor].
  apply bind_inv in Hrun as [([] & we & H & Hrun)|(e & H & _)];
    apply (emits_nothing _ _ _ _ (emits_ensureDir _ _)) in H; rewrite Ht in H;
    [clear Ht wd; rename H into Ht | rewrite H; constructor].
  apply bind_inv in Hrun as [([] & wf & H & Hrun)|(e & H & _)];
    apply (emits_nothing _ _ _ _ (emits_ensureDir _ _)) in H; rewrite Ht in H;
    [clear Ht we; rename H into Ht | rewrite H; constructor].
  apply bind_inv in Hrun as [(dwebpPath & w0 & H & Hrun)|(e & H & _)];
    apply (emits_nothing _ _ _ _ (emits_findExecutable _ _ _)) in H; rewrite Ht in H;
    [clear Ht wf; rename H into Ht | rewrite H; constructor].
  assert (apart w0) as Hstart.
  { rewrite Ht. split; [constructor|]. by intros output ?%not_elem_of_nil. }
  assert (forall r1 w1,
             (if negb (videosOnly opts)
              then convertAll localeCompare spawn opts (Path.join (output opts) "sog")
                     (converterArgs opts)
              else ret []) w0 = (r1, w1) -> apart w1) as Hconvert.
  { intros r1 w1 H1. destruct (negb _); [|unfold ret in H1; by injection H1 as _ <-].
    unfold convertAll in H1.
    destruct (input opts) as [inputDir|]; [|unfold throw in H1; by injection H1 as _ <-].
    apply bind_inv in H1 as [(plyFiles & wa & Ha & H1)|(e & Ha & _)].
    - assert (wa = w0) as ->.
      { unfold listPlyFiles, bind, readdir, ret in Ha.
        destruct (Fs.resolve inputDir (fs w0)) as [[]|]; by simplify_eq. }
      destruct (_ =? _)%nat; [unfold throw in H1; by injection H1 as _ <-|].
      by apply convertLoop_apart in H1.
    - assert (w1 = w0) as ->; [|done].
      unfold listPlyFiles, bind, readdir, ret in Ha.
      destruct (Fs.resolve inputDir (fs w0)) as [[]|]; by simplify_eq. }
  apply bind_inv in Hrun as [(processed & w1 & H1 & Hrun)|(e & H1 & _)];
    [|by destruct (Hconvert _ _ H1)].
  destruct (Hconvert _ _ H1) as [Hnodup _].
  assert (emits (fun e => is_build e \/ is_encode e \/ is_report e)
            (let* st :=
               if negb (videosOnly opts)
               then buildSequences (Path.join (output opts) "sequences") processed
               else ret {| frameCounters := ∅; splatFrames := ∅ |} in
             do encodeAll localeCompare spawn ffmpeg_run opts
                  (Path.join (output opts) "sequences") (Path.join (output opts) "videos")
                  dwebpPath in
             let* splats :=
               if negb (videosOnly opts)
               then freshManifest JSON_parse JSON_stringify
                      (Path.join (output opts) "sequences")
                      (Path.join (output opts) "videos") processed (splatFrames st)
               else rebuildManifest localeCompare JSON_parse JSON_stringify
                      (Path.join (output opts) "sog") (Path.join (output opts) "videos") in
             do console (LogVideos (Path.join (output opts) "videos")) in
             ret splats)) as Hrest.
  { apply emits_bind.
    { destruct (negb _); [|apply emits_ret]. apply emits_buildSequences. by left. }
    intros st. apply emits_bind; [apply emits_encodeAll; by right; left|]. intros _.
    apply emits_bind.
    { destruct (negb _); [|apply emits_rebuildManifest].
      apply emits_freshManifest. by right; right. }
    intros splats. apply emits_bind; [apply emits_console; by right; right|].
    intros _. apply emits_ret. }
  destruct (Hrest _ _ _ Hrun) as (rest & -> & Hall).
  by rewrite conversions_app, (conversions_none rest), app_nil_r.
Qed.

End Distinct.

Lemma converter_outputs_are_distinct_witness :
  exists r w',
    Host.run (Host.opts false false) Host.disk_three = (r, w')
    /\ NoDup (map (fun conversion : list arg * child_outcome =>
                     List.last (fst conversion) (ArgText ""))
                  (conversions (trace w'))).
Proof.
  destruct (Host.run (Host.opts false false) Host.disk_three) as [r w'] eqn:Hrun.
  exists r, w'. split; [reflexivity|].
  exact (converter_outputs_are_distinct
           Host.codeUnitCompare Host.spawn Host.ffmpeg Host.parse Host.stringify
           host_spawn_keeps (Host.opts false false) Host.disk_three r w' Hrun).
Defined.
